(** * OpenTelemetry instrumentation for the Dust SDK: a shallow embedding

    The development follows [src/instrumentation.ts].  The two patched
    methods and the event-stream wrapper are written as programs of a small
    monad, [Tracer], that hands out fresh spans and records, in order, every
    call made on the tracing API together with every event handed to the
    consumer.  What a span ends up holding is computed from that record by
    [observe], which follows the behaviour of the tracing SDK's [Span]. *)

From Stdlib Require Import String List ZArith QArith Lia Bool.
From stdpp Require Import base option gmap strings.
Import ListNotations.

Set Warnings "-register-all".

Local Open Scope string_scope.

(** ** JavaScript values *)

(** Event payloads arrive over the wire, so an [unknown] field holds JSON
    data.  A string stands for its sequence of UTF-16 code units. *)
Inductive JsValue : Type :=
| JNull
| JBool (b : bool)
| JNum (q : Q)
| JStr (s : string)
| JArr (items : list JsValue)
| JObj (fields : list (string * JsValue)).

(** An [Error] object, as far as the code reads it. *)
Record JsError : Type := mkError { error_name : string; error_message : string }.

(** Truthiness of a possibly absent string. *)
Definition truthy_str (o : option string) : bool :=
  match o with
  | Some s => negb (String.eqb s "")
  | None => false
  end.

(** [a || d] where [a] is a possibly absent string and [d] a string. *)
Definition or_else (o : option string) (d : string) : string :=
  match o with
  | Some s => if String.eqb s "" then d else s
  | None => d
  end.

(** Truthiness of a JSON value. *)
Definition truthy (v : JsValue) : bool :=
  match v with
  | JNull => false
  | JBool b => b
  | JNum q => negb (Qeq_bool q 0)
  | JStr s => negb (String.eqb s "")
  | JArr _ => true
  | JObj _ => true
  end.

Definition truthy_opt (o : option JsValue) : bool :=
  match o with
  | Some v => truthy v
  | None => false
  end.

(** Property lookup on an object literal. *)
Fixpoint lookup_field (k : string) (fields : list (string * JsValue)) : option JsValue :=
  match fields with
  | [] => None
  | (k', v) :: rest => if String.eqb k k' then Some v else lookup_field k rest
  end.

(** [item.k]: reading a property of [null] raises a TypeError; reading one
    of a primitive or of an array that lacks it gives [undefined].  The
    message is the engine's wording; nothing below depends on it. *)
Definition get_prop (item : JsValue) (k : string) : JsError + option JsValue :=
  match item with
  | JNull =>
      inl (mkError "TypeError"
             ("Cannot read properties of null (reading '" ++ k ++ "')"))
  | JObj fields => inr (lookup_field k fields)
  | _ => inr None
  end.

(** The characters of a string, each as a one-character string. *)
Fixpoint chars (s : string) : list JsValue :=
  match s with
  | EmptyString => []
  | String c rest => JStr (String c EmptyString) :: chars rest
  end.

(** [...v]: arrays and strings are iterable, other values are not. *)
Definition spread (v : JsValue) : JsError + list JsValue :=
  match v with
  | JArr items => inr items
  | JStr s => inr (chars s)
  | _ => inl (mkError "TypeError" "item.documents is not iterable")
  end.

(** ** The SDK's shapes, from [types.ts] *)

Record DustInstrumentationConfig : Type := {
  enabled : option bool;
  captureMessageContent : option bool;
  captureSystemInstructions : option bool
}.

(** [Required<DustInstrumentationConfig>] *)
Record RequiredConfig : Type := {
  r_enabled : bool;
  r_captureMessageContent : bool;
  r_captureSystemInstructions : bool
}.

Record Action : Type := {
  action_id : option Q;
  action_sId : option string;
  functionCallName : option string;
  functionCallId : option string;
  params : option JsValue;
  output : option JsValue;
  action_status : option string;
  action_step : option Q
}.

Record EventError : Type := {
  error_code : option string;
  event_error_message : option string
}.

Record Configuration : Type := {
  configuration_sId : option string;
  configuration_name : option string;
  configuration_description : option string;
  configuration_version : option Q;
  (* [string | null | undefined]; [None] stands for both absent forms *)
  configuration_versionCreatedAt : option string
}.

Record EventMessage : Type := {
  message_id : option string;
  message_content : option string;
  message_configuration : option Configuration
}.

Record AgentEvent : Type := {
  event_type : string;
  created : option Q;
  configurationId : option string;
  messageId : option string;
  text : option string;
  classification : option string;
  delimiterClassification : option string;
  action : option Action;
  error : option EventError;
  message : option EventMessage
}.

Record ConversationPublicType : Type := {
  conversation_sId : string;
  conversation_created : Q;
  conversation_title : option string
}.

Record AgentMessagePublicType : Type := {
  agent_message_sId : string;
  agent_message_content : option string
}.

Record Mention : Type := { mention_configurationId : string }.

Record MessageContext : Type := {
  email : option string;
  username : option string
}.

Record PublicPostMessagesRequestBody : Type := {
  content : string;
  mentions : list Mention;
  context : option MessageContext
}.

(** Arguments of [createConversation] and of [streamAgentAnswerEvents]. *)
Record CreateArgs : Type := {
  create_title : option string;
  create_message : option PublicPostMessagesRequestBody
}.

Record StreamArgs : Type := {
  stream_conversation : ConversationPublicType;
  stream_userMessageId : string
}.

(** The SDK's [Result]: [isErr()] holds of [Err]. *)
Record ApiError : Type := {
  api_error_type : option string;
  api_error_message : option string
}.

Inductive Result (V : Type) : Type :=
| Ok (value : V)
| Err (error : option ApiError).
Arguments Ok {V} value.
Arguments Err {V} error.

Record CreateValue : Type := {
  value_conversation : option ConversationPublicType;
  value_message : option AgentMessagePublicType
}.

(** How a promise settles.  Both SDK methods are [async], so a call always
    gives a promise. *)
Inductive Settled (A : Type) : Type :=
| Fulfilled (a : A)
| Rejected (e : JsError).
Arguments Fulfilled {A} a.
Arguments Rejected {A} e.

(** ** Constants *)

(** Modelled from the spec: [constants.ts] is not among the sources.  The
    names below are the ones imported by [instrumentation.ts]; the values
    are those asserted in the test file and listed in the README's span
    table, and the GenAI convention's names for the rest. *)
Definition SEMATTRS_GEN_AI_OPERATION_NAME := "gen_ai.operation.name".
Definition SEMATTRS_GEN_AI_PROVIDER_NAME := "gen_ai.provider.name".
Definition SEMATTRS_GEN_AI_AGENT_ID := "gen_ai.agent.id".
Definition SEMATTRS_GEN_AI_AGENT_NAME := "gen_ai.agent.name".
Definition SEMATTRS_GEN_AI_AGENT_DESCRIPTION := "gen_ai.agent.description".
Definition SEMATTRS_GEN_AI_CONVERSATION_ID := "gen_ai.conversation.id".
Definition SEMATTRS_GEN_AI_RESPONSE_ID := "gen_ai.response.id".
Definition SEMATTRS_GEN_AI_RESPONSE_FINISH_REASONS := "gen_ai.response.finish_reasons".
Definition SEMATTRS_GEN_AI_INPUT_MESSAGES := "gen_ai.input.messages".
Definition SEMATTRS_GEN_AI_OUTPUT_MESSAGES := "gen_ai.output.messages".
Definition SEMATTRS_GEN_AI_USAGE_OUTPUT_TOKENS := "gen_ai.usage.output_tokens".
Definition SEMATTRS_GEN_AI_TOOL_NAME := "gen_ai.tool.name".
Definition SEMATTRS_GEN_AI_TOOL_CALL_ID := "gen_ai.tool.call.id".
Definition SEMATTRS_GEN_AI_TOOL_CALL_ARGUMENTS := "gen_ai.tool.call.arguments".
Definition SEMATTRS_GEN_AI_TOOL_CALL_RESULT := "gen_ai.tool.call.result".
Definition SEMATTRS_GEN_AI_RETRIEVAL_DOCUMENTS := "gen_ai.retrieval.documents".
Definition SEMATTRS_DUST_AGENT_VERSION := "dust.agent.version".
Definition SEMATTRS_DUST_AGENT_VERSION_CREATED_AT := "dust.agent.version_created_at".
Definition SEMATTRS_ENDUSER_ID := "enduser.id".
Definition SEMATTRS_ERROR_TYPE := "error.type".

Definition GEN_AI_OPERATION_INVOKE_AGENT := "invoke_agent".
Definition GEN_AI_OPERATION_EXECUTE_TOOL := "execute_tool".
Definition GEN_AI_PROVIDER_DUST := "dust".

Definition DUST_EVENT_GENERATION_TOKENS := "generation_tokens".
Definition DUST_EVENT_AGENT_ACTION_SUCCESS := "agent_action_success".
Definition DUST_EVENT_AGENT_MESSAGE_SUCCESS := "agent_message_success".
Definition DUST_EVENT_AGENT_ERROR := "agent_error".
Definition DUST_EVENT_USER_MESSAGE_ERROR := "user_message_error".

(** ** The tracing API *)

Definition SpanId := nat.

Inductive SpanKind : Type := INTERNAL | SERVER | CLIENT | PRODUCER | CONSUMER.

Inductive SpanStatusCode : Type := UNSET | OK | ERROR.

(** Attribute values.  [AJson v] is the string [JSON.stringify(v)]. *)
Inductive AttrValue : Type :=
| AStr (s : string)
| ANum (q : Q)
| AStrings (l : list string)
| AJson (v : JsValue).

(** What the instrumented program does that can be seen from outside: the
    calls on the tracing API, and the events given to the consumer. *)
Inductive Effect : Type :=
| StartSpan (id : SpanId) (name : string) (kind : SpanKind)
            (attributes : list (string * option AttrValue))
            (parent : option SpanId)
| SetAttribute (id : SpanId) (key : string) (value : option AttrValue)
| SetStatus (id : SpanId) (code : SpanStatusCode) (message : string)
| RecordException (id : SpanId) (e : JsError)
| EndSpan (id : SpanId)
| Yield (event : AgentEvent).

Local Open Scope list_scope.

(** A program that draws fresh spans and leaves a record of effects. *)
Definition Tracer (A : Type) : Type := SpanId -> A * list Effect * SpanId.

Definition ret {A} (a : A) : Tracer A := fun n => (a, [], n).

Definition bind {A B} (m : Tracer A) (f : A -> Tracer B) : Tracer B :=
  fun n =>
    match m n with
    | (a, l1, n1) =>
        match f a n1 with
        | (b, l2, n2) => (b, l1 ++ l2, n2)
        end
    end.

#[export] Instance Tracer_ret : MRet Tracer := @ret.
#[export] Instance Tracer_bind : MBind Tracer := fun A B f m => bind m f.

Definition emit (e : Effect) : Tracer unit := fun n => (tt, [e], n).

Definition when (b : bool) (m : Tracer unit) : Tracer unit :=
  if b then m else ret tt.

(** [tracer.startSpan(name, {kind, attributes}, ctx)]; [parent] is the
    span carried by [ctx]. *)
Definition startSpan (name : string) (kind : SpanKind)
    (attributes : list (string * option AttrValue)) (parent : option SpanId)
  : Tracer SpanId :=
  fun n => (n, [StartSpan n name kind attributes parent], S n).

Definition setAttribute (span : SpanId) (key : string) (value : option AttrValue) : Tracer unit :=
  emit (SetAttribute span key value).

Definition setStatus (span : SpanId) (code : SpanStatusCode) (message : string) : Tracer unit :=
  emit (SetStatus span code message).

Definition recordException (span : SpanId) (e : JsError) : Tracer unit :=
  emit (RecordException span e).

Definition endSpan (span : SpanId) : Tracer unit := emit (EndSpan span).

Definition yield (event : AgentEvent) : Tracer unit := emit (Yield event).

Definition effects {A} (r : A * list Effect * SpanId) : list Effect := snd (fst r).
Definition outcome {A} (r : A * list Effect * SpanId) : A := fst (fst r).

(** ** The instrumentation *)

(** [_getConfig]: the defaults of the three switches. *)
Definition _getConfig (baseConfig : DustInstrumentationConfig) : RequiredConfig :=
  {| r_enabled := default true (enabled baseConfig);
     r_captureMessageContent := default false (captureMessageContent baseConfig);
     r_captureSystemInstructions := default false (captureSystemInstructions baseConfig) |}.

(** [args.message?.mentions?.[0]?.configurationId] *)
Definition first_mention (args : CreateArgs) : option string :=
  match create_message args with
  | Some m =>
      match mentions m with
      | mention :: _ => Some (mention_configurationId mention)
      | [] => None
      end
  | None => None
  end.

(** [args.message?.context?.email] *)
Definition context_email (args : CreateArgs) : option string :=
  match create_message args with
  | Some m =>
      match context m with
      | Some c => email c
      | None => None
      end
  | None => None
  end.

(** [args.message?.content] *)
Definition message_text (args : CreateArgs) : option string :=
  match create_message args with
  | Some m => Some (content m)
  | None => None
  end.

Definition role_content (role body : string) : JsValue :=
  JArr [JObj [("role", JStr role); ("content", JStr body)]].

(** The error branch shared by the two [.then] handlers. *)
Definition flag_error (span : SpanId) (error : option ApiError) : Tracer unit :=
  setStatus span ERROR (or_else (error ≫= api_error_message) "Unknown error");;
  setAttribute span SEMATTRS_ERROR_TYPE
    (Some (AStr (or_else (error ≫= api_error_type) "unknown"))).

(** The [.catch] handler shared by the two patched methods. *)
Definition on_rejected {A} (span : SpanId) (error : JsError) : Tracer (Settled A) :=
  recordException span error;;
  setStatus span ERROR (error_message error);;
  setAttribute span SEMATTRS_ERROR_TYPE
    (Some (AStr (or_else (Some (error_name error)) "Error")));;
  endSpan span;;
  mret (Rejected error).

(** [patchedCreateConversation].  [original] is the SDK method, [active]
    the span of [context.active()], if any. *)
Definition patchedCreateConversation
    (baseConfig : DustInstrumentationConfig)
    (original : CreateArgs -> Settled (Result (option CreateValue)))
    (active : option SpanId) (args : CreateArgs)
  : Tracer (Settled (Result (option CreateValue))) :=
  let config := _getConfig baseConfig in
  if negb (r_enabled config) then mret (original args)
  else
    let agentName := or_else (first_mention args) "unknown" in
    let spanName := "invoke_agent " +:+ agentName in
    span ← startSpan spanName CLIENT
      [ (SEMATTRS_GEN_AI_OPERATION_NAME, Some (AStr GEN_AI_OPERATION_INVOKE_AGENT));
        (SEMATTRS_GEN_AI_PROVIDER_NAME, Some (AStr GEN_AI_PROVIDER_DUST));
        (SEMATTRS_GEN_AI_AGENT_ID, Some (AStr agentName)) ]
      active;
    when (truthy_str (context_email args))
      (setAttribute span SEMATTRS_ENDUSER_ID (AStr <$> context_email args));;
    when (r_captureMessageContent config && truthy_str (message_text args))
      (setAttribute span SEMATTRS_GEN_AI_INPUT_MESSAGES
         (Some (AJson (role_content "user" (default "" (message_text args))))));;
    match original args with
    | Fulfilled result =>
        match result with
        | Err error => flag_error span error
        | Ok (Some value) =>
            setAttribute span SEMATTRS_GEN_AI_CONVERSATION_ID
              (AStr <$> (conversation_sId <$> value_conversation value));;
            when (truthy_str (agent_message_sId <$> value_message value))
              (setAttribute span SEMATTRS_GEN_AI_RESPONSE_ID
                 (AStr <$> (agent_message_sId <$> value_message value)))
        | Ok None => mret tt
        end;;
        endSpan span;;
        mret (Fulfilled result)
    | Rejected error => on_rejected span error
    end.

(** *** Event streams *)

(** How the SDK's generator stops: it is exhausted, or it throws. *)
Inductive StreamEnd : Type :=
| EndOfStream
| StreamThrows (e : JsError).

(** The SDK's generator: the events it gives, then how it stops. *)
Record UnderlyingStream : Type := {
  events : list AgentEvent;
  ending : StreamEnd
}.

(** The stream held by a result: the SDK's own generator, or the generator
    object made by [_wrapEventStream], which keeps its three arguments and
    runs nothing until it is iterated. *)
Inductive EventStream : Type :=
| Raw (eventStream : UnderlyingStream)
| Wrapped (eventStream : UnderlyingStream) (span : SpanId) (config : RequiredConfig).

Record StreamValue (S : Type) : Type := { eventStream : S }.
Arguments eventStream {S} _.

(** How an iteration of a generator stops, seen from its consumer. *)
Inductive Completion : Type :=
| Returned
| Threw (e : JsError).

(** The local variables of [_wrapEventStream].  The token counts are sums
    of quarters of string lengths, which binary floating point adds without
    rounding; they are kept as rationals. *)
Record Locals : Type := {
  inputTokens : Q;
  outputTokens : Q;
  outputContent : string;
  agentConfig : option JsValue;
  finishReason : option string;
  retrievalDocuments : list JsValue
}.

Definition initial_locals : Locals :=
  {| inputTokens := 0; outputTokens := 0; outputContent := "";
     agentConfig := None; finishReason := None; retrievalDocuments := [] |}.

(** [v === s] for a possibly absent property value [v]. *)
Definition strict_eq_str (v : option JsValue) (s : string) : bool :=
  match v with
  | Some (JStr t) => String.eqb t s
  | _ => false
  end.

(** The body of the loop over [event.action.output], for one item:
    [if (item.type === 'retrieval_documents' && item.documents) push(...item.documents)
     else if (item.type === 'resource') push(item)]. *)
Definition scan_item (item : JsValue) (docs : list JsValue) : JsError + list JsValue :=
  match get_prop item "type" with
  | inl e => inl e
  | inr type =>
      let otherwise :=
        if strict_eq_str type "resource" then inr (docs ++ [item]) else inr docs in
      if strict_eq_str type "retrieval_documents" then
        match get_prop item "documents" with
        | inl e => inl e
        | inr documents =>
            if truthy_opt documents then
              match spread (default JNull documents) with
              | inl e => inl e
              | inr more => inr (docs ++ more)
              end
            else otherwise
        end
      else otherwise
  end.

Fixpoint scan_items (items : list JsValue) (docs : list JsValue) : JsError + list JsValue :=
  match items with
  | [] => inr docs
  | item :: rest =>
      match scan_item item docs with
      | inl e => inl e
      | inr docs' => scan_items rest docs'
      end
  end.

(** [if (output && Array.isArray(output)) for (const item of output) ...] *)
Definition scan_output (output : option JsValue) (docs : list JsValue) : JsError + list JsValue :=
  match output with
  | Some (JArr items) => scan_items items docs
  | _ => inr docs
  end.

(** [case DUST_EVENT_GENERATION_TOKENS] *)
Definition on_generation_tokens (config : RequiredConfig) (event : AgentEvent) (st : Locals)
  : Locals :=
  if truthy_str (text event) then
    let t := default "" (text event) in
    {| inputTokens := inputTokens st;
       outputTokens := outputTokens st + inject_Z (Z.of_nat (String.length t)) / 4;
       outputContent :=
         if r_captureMessageContent config then outputContent st +:+ t
         else outputContent st;
       agentConfig := agentConfig st;
       finishReason := finishReason st;
       retrievalDocuments := retrievalDocuments st |}
  else st.

Definition with_documents (st : Locals) (docs : list JsValue) : Locals :=
  {| inputTokens := inputTokens st;
     outputTokens := outputTokens st;
     outputContent := outputContent st;
     agentConfig := agentConfig st;
     finishReason := finishReason st;
     retrievalDocuments := docs |}.

Definition with_finish (st : Locals) (reason : string) : Locals :=
  {| inputTokens := inputTokens st;
     outputTokens := outputTokens st;
     outputContent := outputContent st;
     agentConfig := agentConfig st;
     finishReason := Some reason;
     retrievalDocuments := retrievalDocuments st |}.

(** [case DUST_EVENT_AGENT_ACTION_SUCCESS], with [event.action] truthy.  A
    TypeError raised while the output is scanned leaves the block before
    [toolSpan.end()]. *)
Definition on_action (config : RequiredConfig) (span : SpanId) (a : Action) (st : Locals)
  : Tracer (JsError + Locals) :=
  toolSpan ← startSpan GEN_AI_OPERATION_EXECUTE_TOOL CLIENT
    [ (SEMATTRS_GEN_AI_OPERATION_NAME, Some (AStr GEN_AI_OPERATION_EXECUTE_TOOL));
      (SEMATTRS_GEN_AI_PROVIDER_NAME, Some (AStr GEN_AI_PROVIDER_DUST));
      (SEMATTRS_GEN_AI_TOOL_NAME, Some (AStr (or_else (functionCallName a) "unknown")));
      (SEMATTRS_GEN_AI_TOOL_CALL_ID,
        Some (AStr (or_else (functionCallId a) (or_else (action_sId a) "unknown")))) ]
    (Some span);
  when (r_captureMessageContent config)
    (when (truthy_opt (params a))
       (setAttribute toolSpan SEMATTRS_GEN_AI_TOOL_CALL_ARGUMENTS (AJson <$> params a));;
     when (truthy_opt (output a))
       (setAttribute toolSpan SEMATTRS_GEN_AI_TOOL_CALL_RESULT (AJson <$> output a)));;
  match scan_output (output a) (retrievalDocuments st) with
  | inl e => mret (inl e)
  | inr docs =>
      endSpan toolSpan;;
      mret (inr (with_documents st docs))
  end.

(** [case DUST_EVENT_AGENT_MESSAGE_SUCCESS] *)
Definition on_message_success (span : SpanId) (event : AgentEvent) (st : Locals)
  : Tracer Locals :=
  when (truthy_str (configurationId event))
    (setAttribute span SEMATTRS_GEN_AI_AGENT_ID (AStr <$> configurationId event));;
  when (truthy_str (messageId event))
    (setAttribute span SEMATTRS_GEN_AI_RESPONSE_ID (AStr <$> messageId event));;
  match message event ≫= message_configuration with
  | Some config =>
      when (truthy_str (configuration_name config))
        (setAttribute span SEMATTRS_GEN_AI_AGENT_NAME (AStr <$> configuration_name config));;
      when (truthy_str (configuration_description config))
        (setAttribute span SEMATTRS_GEN_AI_AGENT_DESCRIPTION
           (AStr <$> configuration_description config));;
      when (bool_decide (is_Some (configuration_version config)))
        (setAttribute span SEMATTRS_DUST_AGENT_VERSION (ANum <$> configuration_version config));;
      when (truthy_str (configuration_versionCreatedAt config))
        (setAttribute span SEMATTRS_DUST_AGENT_VERSION_CREATED_AT
           (AStr <$> configuration_versionCreatedAt config))
  | None => mret tt
  end;;
  mret (with_finish st "stop").

(** [case DUST_EVENT_AGENT_ERROR: case DUST_EVENT_USER_MESSAGE_ERROR:] *)
Definition on_error_event (span : SpanId) (event : AgentEvent) (st : Locals)
  : Tracer Locals :=
  setStatus span ERROR (or_else (error event ≫= event_error_message) "Unknown error");;
  setAttribute span SEMATTRS_ERROR_TYPE
    (Some (AStr (or_else (error event ≫= error_code) "unknown")));;
  mret (with_finish st "error").

(** The [switch (event.type)] of the loop body. *)
Definition on_event (config : RequiredConfig) (span : SpanId) (event : AgentEvent) (st : Locals)
  : Tracer (JsError + Locals) :=
  if String.eqb (event_type event) DUST_EVENT_GENERATION_TOKENS then
    mret (inr (on_generation_tokens config event st))
  else if String.eqb (event_type event) DUST_EVENT_AGENT_ACTION_SUCCESS then
    match action event with
    | Some a => on_action config span a st
    | None => mret (inr st)
    end
  else if String.eqb (event_type event) DUST_EVENT_AGENT_MESSAGE_SUCCESS then
    st' ← on_message_success span event st; mret (inr st')
  else if String.eqb (event_type event) DUST_EVENT_AGENT_ERROR
          || String.eqb (event_type event) DUST_EVENT_USER_MESSAGE_ERROR then
    st' ← on_error_event span event st; mret (inr st')
  else mret (inr st).

(** The statements between the loop and the [catch]. *)
Definition on_exhausted (config : RequiredConfig) (span : SpanId) (st : Locals) : Tracer unit :=
  when (r_captureMessageContent config && negb (String.eqb (outputContent st) ""))
    (setAttribute span SEMATTRS_GEN_AI_OUTPUT_MESSAGES
       (Some (AJson (role_content "assistant" (outputContent st)))));;
  when (negb (Qle_bool (outputTokens st) 0))
    (setAttribute span SEMATTRS_GEN_AI_USAGE_OUTPUT_TOKENS (Some (ANum (outputTokens st))));;
  when (truthy_str (finishReason st))
    (setAttribute span SEMATTRS_GEN_AI_RESPONSE_FINISH_REASONS
       (Some (AStrings [default "" (finishReason st)])));;
  when (negb (Nat.eqb (length (retrievalDocuments st)) 0))
    (setAttribute span SEMATTRS_GEN_AI_RETRIEVAL_DOCUMENTS
       (Some (AJson (JArr (retrievalDocuments st)))));;
  endSpan span.

(** The [catch (error)] block. *)
Definition on_catch (span : SpanId) (error : JsError) : Tracer Completion :=
  recordException span error;;
  setStatus span ERROR (error_message error);;
  endSpan span;;
  mret (Threw error).

(** [for await (const event of eventStream) { switch ...; yield event }]
    inside the [try], run by a consumer that asks for every event. *)
Fixpoint for_await (config : RequiredConfig) (span : SpanId)
    (pending : list AgentEvent) (stop : StreamEnd) (st : Locals) : Tracer Completion :=
  match pending with
  | event :: rest =>
      r ← on_event config span event st;
      match r with
      | inl e => on_catch span e
      | inr st' => yield event;; for_await config span rest stop st'
      end
  | [] =>
      match stop with
      | EndOfStream => on_exhausted config span st;; mret Returned
      | StreamThrows e => on_catch span e
      end
  end.

(** [_wrapEventStream], iterated to its end. *)
Definition _wrapEventStream (eventStream : UnderlyingStream) (span : SpanId)
    (config : RequiredConfig) : Tracer Completion :=
  for_await config span (events eventStream) (ending eventStream) initial_locals.

(** What the SDK method gave, returned as it is: the stream of the result
    is still the SDK's own generator. *)
Definition handed_back (r : Settled (Result (StreamValue UnderlyingStream)))
  : Settled (Result (StreamValue EventStream)) :=
  match r with
  | Fulfilled (Ok value) => Fulfilled (Ok {| eventStream := Raw (eventStream value) |})
  | Fulfilled (Err error) => Fulfilled (Err error)
  | Rejected e => Rejected e
  end.

(** [patchedStreamAgentAnswerEvents] *)
Definition patchedStreamAgentAnswerEvents
    (baseConfig : DustInstrumentationConfig)
    (original : StreamArgs -> Settled (Result (StreamValue UnderlyingStream)))
    (active : option SpanId) (args : StreamArgs)
  : Tracer (Settled (Result (StreamValue EventStream))) :=
  let config := _getConfig baseConfig in
  if negb (r_enabled config) then mret (handed_back (original args))
  else
    let conversation := stream_conversation args in
    let agentName := "agent" in
    let spanName := "invoke_agent " +:+ agentName in
    span ← startSpan spanName CLIENT
      [ (SEMATTRS_GEN_AI_OPERATION_NAME, Some (AStr GEN_AI_OPERATION_INVOKE_AGENT));
        (SEMATTRS_GEN_AI_PROVIDER_NAME, Some (AStr GEN_AI_PROVIDER_DUST));
        (SEMATTRS_GEN_AI_CONVERSATION_ID, Some (AStr (conversation_sId conversation))) ]
      active;
    match original args with
    | Fulfilled (Err error) =>
        flag_error span error;;
        endSpan span;;
        mret (Fulfilled (Err error))
    | Fulfilled (Ok value) =>
        let originalEventStream := eventStream value in
        let wrappedEventStream := Wrapped originalEventStream span config in
        mret (Fulfilled (Ok {| eventStream := wrappedEventStream |}))
    | Rejected error => on_rejected span error
    end.

(** A consumer's [for await (const event of stream)] that takes every
    event: iterating the SDK's own generator touches no span. *)
Definition iterate (stream : EventStream) : Tracer Completion :=
  match stream with
  | Raw s =>
      fun n => (match ending s with EndOfStream => Returned | StreamThrows e => Threw e end,
                map Yield (events s), n)
  | Wrapped s span config => _wrapEventStream s span config
  end.

(** A caller, as in [examples/basic-usage.ts]: await the patched method
    and, when the result is not an error, iterate its event stream to the
    end. *)
Definition stream_and_consume
    (baseConfig : DustInstrumentationConfig)
    (original : StreamArgs -> Settled (Result (StreamValue UnderlyingStream)))
    (active : option SpanId) (args : StreamArgs)
  : Tracer (Settled (Result (StreamValue EventStream)) * option Completion) :=
  streamRes ← patchedStreamAgentAnswerEvents baseConfig original active args;
  match streamRes with
  | Fulfilled (Ok value) =>
      c ← iterate (eventStream value);
      mret (streamRes, Some c)
  | _ => mret (streamRes, None)
  end.

(** ** What a span holds *)

(** The state of a span, after the tracing SDK's [Span]: its attributes,
    status and recorded exceptions, and the number of [end()] calls made on
    it. *)
Record SpanData : Type := {
  span_name : string;
  span_kind : SpanKind;
  span_parent : option SpanId;
  span_attributes : gmap string AttrValue;
  span_status : SpanStatusCode * string;
  span_exceptions : list JsError;
  span_end_calls : nat
}.

(** [sanitizeAttributes]: entries without a value are dropped. *)
Definition sanitize (attributes : list (string * option AttrValue)) : gmap string AttrValue :=
  fold_left (fun m kv => match snd kv with
                         | Some v => <[fst kv := v]> m
                         | None => m
                         end) attributes ∅.

Definition new_span (name : string) (kind : SpanKind)
    (attributes : list (string * option AttrValue)) (parent : option SpanId) : SpanData :=
  {| span_name := name; span_kind := kind; span_parent := parent;
     span_attributes := sanitize attributes;
     span_status := (UNSET, ""); span_exceptions := []; span_end_calls := 0 |}.

Definition is_ended (sd : SpanData) : bool := negb (Nat.eqb (span_end_calls sd) 0).

(** [span.setAttribute(key, value)]: nothing changes when the value is
    [undefined] or the span has ended. *)
Definition put_attribute (key : string) (value : option AttrValue) (sd : SpanData) : SpanData :=
  match value with
  | Some v =>
      if is_ended sd then sd
      else {| span_name := span_name sd; span_kind := span_kind sd;
              span_parent := span_parent sd;
              span_attributes := <[key := v]> (span_attributes sd);
              span_status := span_status sd;
              span_exceptions := span_exceptions sd;
              span_end_calls := span_end_calls sd |}
  | None => sd
  end.

Definition put_status (code : SpanStatusCode) (message : string) (sd : SpanData) : SpanData :=
  if is_ended sd then sd
  else {| span_name := span_name sd; span_kind := span_kind sd;
          span_parent := span_parent sd;
          span_attributes := span_attributes sd;
          span_status := (code, message);
          span_exceptions := span_exceptions sd;
          span_end_calls := span_end_calls sd |}.

Definition put_exception (e : JsError) (sd : SpanData) : SpanData :=
  if is_ended sd then sd
  else {| span_name := span_name sd; span_kind := span_kind sd;
          span_parent := span_parent sd;
          span_attributes := span_attributes sd;
          span_status := span_status sd;
          span_exceptions := span_exceptions sd ++ [e];
          span_end_calls := span_end_calls sd |}.

Definition put_end (sd : SpanData) : SpanData :=
  {| span_name := span_name sd; span_kind := span_kind sd;
     span_parent := span_parent sd;
     span_attributes := span_attributes sd;
     span_status := span_status sd;
     span_exceptions := span_exceptions sd;
     span_end_calls := S (span_end_calls sd) |}.

(** The span an effect is about. *)
Definition effect_span (e : Effect) : option SpanId :=
  match e with
  | StartSpan id _ _ _ _ => Some id
  | SetAttribute id _ _ => Some id
  | SetStatus id _ _ => Some id
  | RecordException id _ => Some id
  | EndSpan id => Some id
  | Yield _ => None
  end.

(** One effect, seen from span [id]. *)
Definition observe (id : SpanId) (s : option SpanData) (e : Effect) : option SpanData :=
  if bool_decide (effect_span e = Some id) then
    match e with
    | StartSpan _ name kind attributes parent => Some (new_span name kind attributes parent)
    | SetAttribute _ key value => put_attribute key value <$> s
    | SetStatus _ code message => put_status code message <$> s
    | RecordException _ err => put_exception err <$> s
    | EndSpan _ => put_end <$> s
    | Yield _ => s
    end
  else s.

(** The state of span [id] after a record of effects; [None] when the
    record never starts it. *)
Definition span_view (id : SpanId) (record : list Effect) : option SpanData :=
  fold_left (observe id) record None.

Definition span_attribute (id : SpanId) (key : string) (record : list Effect)
  : option AttrValue :=
  span_view id record ≫= fun sd => span_attributes sd !! key.

(** The spans a record starts, in order. *)
Fixpoint started (record : list Effect) : list SpanId :=
  match record with
  | StartSpan id _ _ _ _ :: rest => id :: started rest
  | _ :: rest => started rest
  | [] => []
  end.

(** The events a record hands to the consumer, in order. *)
Fixpoint yielded (record : list Effect) : list AgentEvent :=
  match record with
  | Yield event :: rest => event :: yielded rest
  | _ :: rest => yielded rest
  | [] => []
  end.

(** The attribute-setting calls of a record, wherever the span. *)
Fixpoint attribute_calls (record : list Effect) : list (string * option AttrValue) :=
  match record with
  | SetAttribute _ key value :: rest => (key, value) :: attribute_calls rest
  | StartSpan _ _ _ attributes _ :: rest => attributes ++ attribute_calls rest
  | _ :: rest => attribute_calls rest
  | [] => []
  end.

(** ** Words of the specification *)

(** The token estimate the specification describes: over the token events
    that carry text, the sum of a quarter of the text length. *)
Definition is_token_event (event : AgentEvent) : bool :=
  String.eqb (event_type event) DUST_EVENT_GENERATION_TOKENS && truthy_str (text event).

Definition text_length (event : AgentEvent) : Z :=
  Z.of_nat (String.length (default "" (text event))).

Fixpoint fractional_estimate (evs : list AgentEvent) : Q :=
  match evs with
  | [] => 0
  | event :: rest =>
      (if is_token_event event then inject_Z (text_length event) / 4 else 0)
      + fractional_estimate rest
  end.

(** The same with each quotient rounded up. *)
Fixpoint ceiling_estimate (evs : list AgentEvent) : Z :=
  match evs with
  | [] => 0
  | event :: rest =>
      (if is_token_event event then (text_length event + 3) / 4 else 0)%Z
      + ceiling_estimate rest
  end%Z.

Fixpoint token_events (evs : list AgentEvent) : Z :=
  match evs with
  | [] => 0
  | event :: rest => (if is_token_event event then 1 else 0) + token_events rest
  end%Z.

(** The finish reason the specification describes: decided by the last
    message-success or error event, if there is one. *)
Definition is_message_success (event : AgentEvent) : bool :=
  String.eqb (event_type event) DUST_EVENT_AGENT_MESSAGE_SUCCESS.

Definition is_error_event (event : AgentEvent) : bool :=
  String.eqb (event_type event) DUST_EVENT_AGENT_ERROR
  || String.eqb (event_type event) DUST_EVENT_USER_MESSAGE_ERROR.

Fixpoint last_finish (evs : list AgentEvent) (seen : option string) : option string :=
  match evs with
  | [] => seen
  | event :: rest =>
      last_finish rest
        (if is_message_success event then Some "stop"
         else if is_error_event event then Some "error"
         else seen)
  end.

(** A message-success or error event. *)
Definition finishing (event : AgentEvent) : bool :=
  is_message_success event || is_error_event event.

(** An event whose handling raises: an action whose output cannot be
    scanned. *)
Definition scans_cleanly (o : option JsValue) : bool :=
  match scan_output o [] with
  | inr _ => true
  | inl _ => false
  end.

Definition raises (event : AgentEvent) : bool :=
  String.eqb (event_type event) DUST_EVENT_AGENT_ACTION_SUCCESS
  && match action event with
     | Some a => negb (scans_cleanly (output a))
     | None => false
     end.

Definition clean (evs : list AgentEvent) : Prop := Forall (fun e => raises e = false) evs.

(** The events up to the first one that raises. *)
Fixpoint passing (evs : list AgentEvent) : list AgentEvent :=
  match evs with
  | [] => []
  | event :: rest => if raises event then [] else event :: passing rest
  end.

(** The attributes that only the end of the stream writes. *)
Definition final_keys : list string :=
  [ SEMATTRS_GEN_AI_OUTPUT_MESSAGES; SEMATTRS_GEN_AI_USAGE_OUTPUT_TOKENS;
    SEMATTRS_GEN_AI_RESPONSE_FINISH_REASONS; SEMATTRS_GEN_AI_RETRIEVAL_DOCUMENTS ].

(** The attributes that carry message text, tool arguments or tool
    results. *)
Definition content_keys : list string :=
  [ SEMATTRS_GEN_AI_INPUT_MESSAGES; SEMATTRS_GEN_AI_OUTPUT_MESSAGES;
    SEMATTRS_GEN_AI_TOOL_CALL_ARGUMENTS; SEMATTRS_GEN_AI_TOOL_CALL_RESULT ].

(** ** Predicates on records of effects *)

(** No attribute-setting call of the record uses one of the four content
    attributes. *)
Definition no_content (record : list Effect) : Prop :=
  Forall (fun kv => fst kv ∉ content_keys) (attribute_calls record).

(** An effect on another span leaves a span as it is. *)
Definition foreign (id : SpanId) (e : Effect) : Prop := effect_span e ≠ Some id.

(** Effects allowed on the stream span [p] while the loop runs: nothing
    ends it or records an exception on it, and no final attribute is
    written. *)
Definition during_loop (p : SpanId) (e : Effect) : Prop :=
  match e with
  | StartSpan id _ _ _ _ => id ≠ p
  | SetAttribute id k _ => id = p -> k ∉ final_keys
  | SetStatus _ _ _ => True
  | RecordException id _ => id ≠ p
  | EndSpan id => id ≠ p
  | Yield _ => True
  end.

Record open_span (sd : SpanData) : Prop := {
  open_end : span_end_calls sd = 0;
  open_exceptions : span_exceptions sd = [];
  open_final : forall k, k ∈ final_keys -> span_attributes sd !! k = None
}.

(** ** Scanning a tool output *)

(** The documents a tool output adds to the batch. *)
Definition found_documents (o : option JsValue) : list JsValue :=
  match scan_output o [] with
  | inr d => d
  | inl _ => []
  end.

(** ** The calls made for one event *)

(** The start of a tool span. *)
Definition tool_start (span toolSpan : SpanId) (a : Action) : Effect :=
  StartSpan toolSpan GEN_AI_OPERATION_EXECUTE_TOOL CLIENT
    [ (SEMATTRS_GEN_AI_OPERATION_NAME, Some (AStr GEN_AI_OPERATION_EXECUTE_TOOL));
      (SEMATTRS_GEN_AI_PROVIDER_NAME, Some (AStr GEN_AI_PROVIDER_DUST));
      (SEMATTRS_GEN_AI_TOOL_NAME, Some (AStr (or_else (functionCallName a) "unknown")));
      (SEMATTRS_GEN_AI_TOOL_CALL_ID,
        Some (AStr (or_else (functionCallId a) (or_else (action_sId a) "unknown")))) ]
    (Some span).

(** The opt-in attributes of a tool span. *)
Definition captured (config : RequiredConfig) (toolSpan : SpanId) (a : Action) : list Effect :=
  if r_captureMessageContent config then
    (if truthy_opt (params a)
     then [SetAttribute toolSpan SEMATTRS_GEN_AI_TOOL_CALL_ARGUMENTS (AJson <$> params a)]
     else [])
    ++ (if truthy_opt (output a)
        then [SetAttribute toolSpan SEMATTRS_GEN_AI_TOOL_CALL_RESULT (AJson <$> output a)]
        else [])
  else [].

(** A span no later than [n] has not been started, and a started span has
    been ended once. *)
Definition settled (n id : SpanId) (s : option SpanData) : Prop :=
  (n <= id -> s = None) /\ (forall sd, s = Some sd -> span_end_calls sd = 1).

(** An effect on the stream span [p] or on a span drawn in [lo, hi). *)
Definition scoped (p lo hi : SpanId) (e : Effect) : Prop :=
  forall i, effect_span e = Some i -> i = p \/ (lo <= i < hi).

(** What stretches of the loop's record have in common, when spans are
    drawn from [n] up to [n']. *)
Record body_ok (p n n' : SpanId) (l : list Effect) : Prop := {
  ck_mono : n <= n';
  ck_started : started l = seq n (n' - n);
  ck_scoped : Forall (scoped p n n') l;
  ck_loop : p < n -> Forall (during_loop p) l;
  ck_tools : forall id s, id ≠ p -> settled n id s ->
             settled n' id (fold_left (observe id) l s)
}.

(** Attribute and status calls on the stream span that the loop makes. *)
Definition on_parent (p : SpanId) (e : Effect) : Prop :=
  match e with
  | SetAttribute id k _ => id = p /\ (k ∉ final_keys) /\ (k ∉ content_keys)
  | SetStatus id _ _ => id = p
  | _ => False
  end.

(** A tool span, once its block has run: ended once, child of the stream
    span, named after the operation, carrying tool name and call id. *)
Record tool_span (p : SpanId) (a : Action) (sd : SpanData) : Prop := {
  tool_ended : span_end_calls sd = 1;
  tool_parent : span_parent sd = Some p;
  tool_named : span_name sd = GEN_AI_OPERATION_EXECUTE_TOOL;
  tool_name_attr :
    span_attributes sd !! SEMATTRS_GEN_AI_TOOL_NAME
    = Some (AStr (or_else (functionCallName a) "unknown"));
  tool_call_id_attr :
    span_attributes sd !! SEMATTRS_GEN_AI_TOOL_CALL_ID
    = Some (AStr (or_else (functionCallId a) (or_else (action_sId a) "unknown")))
}.

(** What one event adds to the wrapper's local variables. *)
Definition event_text (config : RequiredConfig) (event : AgentEvent) : string :=
  if r_captureMessageContent config && is_token_event event
  then default "" (text event) else "".

Definition event_documents (event : AgentEvent) : list JsValue :=
  if String.eqb (event_type event) DUST_EVENT_AGENT_ACTION_SUCCESS then
    match action event with
    | Some a => found_documents (output a)
    | None => []
    end
  else [].

Fixpoint generated_text (config : RequiredConfig) (evs : list AgentEvent) : string :=
  match evs with
  | [] => ""
  | event :: rest => event_text config event +:+ generated_text config rest
  end.

Fixpoint collected_documents (evs : list AgentEvent) : list JsValue :=
  match evs with
  | [] => []
  | event :: rest => event_documents event ++ collected_documents rest
  end.

Record step_spec (config : RequiredConfig) (event : AgentEvent) (st st' : Locals) : Prop := {
  sp_tokens :
    outputTokens st' ==
    outputTokens st + (if is_token_event event then inject_Z (text_length event) / 4 else 0);
  sp_content : outputContent st' = outputContent st +:+ event_text config event;
  sp_finish :
    finishReason st' =
    if is_message_success event then Some "stop"
    else if is_error_event event then Some "error"
    else finishReason st;
  sp_documents : retrievalDocuments st' = retrievalDocuments st ++ event_documents event
}.

(** ** The calls that close a stream *)

(** The attribute calls made once the underlying stream is exhausted. *)
Definition final_attributes (config : RequiredConfig) (p : SpanId) (st : Locals)
  : list Effect :=
  (if r_captureMessageContent config && negb (String.eqb (outputContent st) "")
   then [SetAttribute p SEMATTRS_GEN_AI_OUTPUT_MESSAGES
           (Some (AJson (role_content "assistant" (outputContent st))))]
   else [])
  ++ (if negb (Qle_bool (outputTokens st) 0)
      then [SetAttribute p SEMATTRS_GEN_AI_USAGE_OUTPUT_TOKENS
              (Some (ANum (outputTokens st)))]
      else [])
  ++ (if truthy_str (finishReason st)
      then [SetAttribute p SEMATTRS_GEN_AI_RESPONSE_FINISH_REASONS
              (Some (AStrings [default "" (finishReason st)]))]
      else [])
  ++ (if negb (Nat.eqb (length (retrievalDocuments st)) 0)
      then [SetAttribute p SEMATTRS_GEN_AI_RETRIEVAL_DOCUMENTS
              (Some (AJson (JArr (retrievalDocuments st))))]
      else []).

(** All the calls made there: the attributes, then the end of the span. *)
Definition final_calls (config : RequiredConfig) (p : SpanId) (st : Locals) : list Effect :=
  final_attributes config p st ++ [EndSpan p].

(** The calls made by the [catch] block. *)
Definition catch_calls (p : SpanId) (e : JsError) : list Effect :=
  [RecordException p e; SetStatus p ERROR (error_message e); EndSpan p].

Definition closing (config : RequiredConfig) (p : SpanId) (stop : StreamEnd) (st : Locals)
  : list Effect :=
  match stop with
  | EndOfStream => final_calls config p st
  | StreamThrows e => catch_calls p e
  end.

Definition completion_of (stop : StreamEnd) : Completion :=
  match stop with
  | EndOfStream => Returned
  | StreamThrows e => Threw e
  end.

Record locals_spec (config : RequiredConfig) (evs : list AgentEvent) (st st' : Locals)
  : Prop := {
  ls_tokens : outputTokens st' == outputTokens st + fractional_estimate evs;
  ls_content : outputContent st' = outputContent st +:+ generated_text config evs;
  ls_finish : finishReason st' = last_finish evs (finishReason st);
  ls_documents : retrievalDocuments st' = retrievalDocuments st ++ collected_documents evs
}.

(** ** The closing calls, seen from the stream span *)

(** The attributes the end of the stream leaves on a span that was open. *)
Record flushed (config : RequiredConfig) (st : Locals) (sd : SpanData) : Prop := {
  fl_ended : span_end_calls sd = 1;
  fl_content :
    span_attributes sd !! SEMATTRS_GEN_AI_OUTPUT_MESSAGES =
    if r_captureMessageContent config && negb (String.eqb (outputContent st) "")
    then Some (AJson (role_content "assistant" (outputContent st))) else None;
  fl_tokens :
    span_attributes sd !! SEMATTRS_GEN_AI_USAGE_OUTPUT_TOKENS =
    if negb (Qle_bool (outputTokens st) 0) then Some (ANum (outputTokens st)) else None;
  fl_finish :
    span_attributes sd !! SEMATTRS_GEN_AI_RESPONSE_FINISH_REASONS =
    if truthy_str (finishReason st)
    then Some (AStrings [default "" (finishReason st)]) else None;
  fl_documents :
    span_attributes sd !! SEMATTRS_GEN_AI_RETRIEVAL_DOCUMENTS =
    if negb (Nat.eqb (length (retrievalDocuments st)) 0)
    then Some (AJson (JArr (retrievalDocuments st))) else None;
  fl_exceptions : span_exceptions sd = []
}.

(** ** The calls of the patched methods *)

(** The start of the stream span. *)
Definition stream_start (active : option SpanId) (args : StreamArgs) (n : SpanId) : Effect :=
  StartSpan n ("invoke_agent " +:+ "agent") CLIENT
    [ (SEMATTRS_GEN_AI_OPERATION_NAME, Some (AStr GEN_AI_OPERATION_INVOKE_AGENT));
      (SEMATTRS_GEN_AI_PROVIDER_NAME, Some (AStr GEN_AI_PROVIDER_DUST));
      (SEMATTRS_GEN_AI_CONVERSATION_ID,
        Some (AStr (conversation_sId (stream_conversation args)))) ]
    active.

(** The calls of the error branch of a [.then] handler, with the end of
    the span that follows it. *)
Definition error_calls (n : SpanId) (error : option ApiError) : list Effect :=
  [ SetStatus n ERROR (or_else (error ≫= api_error_message) "Unknown error");
    SetAttribute n SEMATTRS_ERROR_TYPE
      (Some (AStr (or_else (error ≫= api_error_type) "unknown")));
    EndSpan n ].

(** The calls of a [.catch] handler. *)
Definition rejected_calls (n : SpanId) (e : JsError) : list Effect :=
  [ RecordException n e;
    SetStatus n ERROR (error_message e);
    SetAttribute n SEMATTRS_ERROR_TYPE
      (Some (AStr (or_else (Some (error_name e)) "Error")));
    EndSpan n ].

(** The start of the span of [createConversation]. *)
Definition create_start (active : option SpanId) (args : CreateArgs) (n : SpanId) : Effect :=
  StartSpan n ("invoke_agent " +:+ or_else (first_mention args) "unknown") CLIENT
    [ (SEMATTRS_GEN_AI_OPERATION_NAME, Some (AStr GEN_AI_OPERATION_INVOKE_AGENT));
      (SEMATTRS_GEN_AI_PROVIDER_NAME, Some (AStr GEN_AI_PROVIDER_DUST));
      (SEMATTRS_GEN_AI_AGENT_ID, Some (AStr (or_else (first_mention args) "unknown"))) ]
    active.

(** The request attributes of [createConversation]. *)
Definition create_prelude (config : RequiredConfig) (args : CreateArgs) (n : SpanId)
  : list Effect :=
  (if truthy_str (context_email args)
   then [SetAttribute n SEMATTRS_ENDUSER_ID (AStr <$> context_email args)] else [])
  ++ (if r_captureMessageContent config && truthy_str (message_text args)
      then [SetAttribute n SEMATTRS_GEN_AI_INPUT_MESSAGES
              (Some (AJson (role_content "user" (default "" (message_text args)))))]
      else []).

(** The calls made when the promise of [createConversation] settles. *)
Definition settle_calls (n : SpanId) (r : Settled (Result (option CreateValue)))
  : list Effect :=
  match r with
  | Fulfilled (Err error) => error_calls n error
  | Fulfilled (Ok (Some value)) =>
      SetAttribute n SEMATTRS_GEN_AI_CONVERSATION_ID
        (AStr <$> (conversation_sId <$> value_conversation value))
      :: (if truthy_str (agent_message_sId <$> value_message value)
          then [SetAttribute n SEMATTRS_GEN_AI_RESPONSE_ID
                  (AStr <$> (agent_message_sId <$> value_message value))]
          else [])
      ++ [EndSpan n]
  | Fulfilled (Ok None) => [EndSpan n]
  | Rejected e => rejected_calls n e
  end.

(** A span that has been started and on which only request attributes
    have been set. *)
Record pending_span (sd : SpanData) : Prop := {
  pd_end : span_end_calls sd = 0;
  pd_exceptions : span_exceptions sd = [];
  pd_conversation : span_attributes sd !! SEMATTRS_GEN_AI_CONVERSATION_ID = None;
  pd_response : span_attributes sd !! SEMATTRS_GEN_AI_RESPONSE_ID = None
}.

(** The record leaves span [span] ended once, with error status and with
    the exceptions [thrown] recorded on it, and leaves no span open. *)
Definition ends_in_error (record : list Effect) (span : SpanId) (thrown : list JsError)
  : Prop :=
  (exists sd, span_view span record = Some sd
              /\ span_end_calls sd = 1
              /\ fst (span_status sd) = ERROR
              /\ span_exceptions sd = thrown)
  /\ (forall id sd, span_view id record = Some sd -> span_end_calls sd = 1).

(** ** Sample inputs *)

Definition default_config : DustInstrumentationConfig :=
  {| enabled := None; captureMessageContent := None; captureSystemInstructions := None |}.

Definition disabled_config : DustInstrumentationConfig :=
  {| enabled := Some false; captureMessageContent := None;
     captureSystemInstructions := None |}.

Definition capturing_config : DustInstrumentationConfig :=
  {| enabled := None; captureMessageContent := Some true;
     captureSystemInstructions := None |}.

Definition bare_event (type : string) : AgentEvent :=
  {| event_type := type; created := None; configurationId := None; messageId := None;
     text := None; classification := None; delimiterClassification := None;
     action := None; error := None; message := None |}.

Definition tokens_event (t : string) : AgentEvent :=
  {| event_type := DUST_EVENT_GENERATION_TOKENS; created := None;
     configurationId := None; messageId := None;
     text := Some t; classification := Some "tokens"; delimiterClassification := None;
     action := None; error := None; message := None |}.

Definition action_event (a : Action) : AgentEvent :=
  {| event_type := DUST_EVENT_AGENT_ACTION_SUCCESS; created := None;
     configurationId := None; messageId := None;
     text := None; classification := None; delimiterClassification := None;
     action := Some a; error := None; message := None |}.

Definition search_action (result : option JsValue) : Action :=
  {| action_id := None; action_sId := Some "act_1";
     functionCallName := Some "search"; functionCallId := Some "call_1";
     params := Some (JObj [("query", JStr "quarterly figures")]);
     output := result; action_status := None; action_step := None |}.

Definition sample_conversation : ConversationPublicType :=
  {| conversation_sId := "conv-123"; conversation_created := 0;
     conversation_title := None |}.

Definition sample_stream_args : StreamArgs :=
  {| stream_conversation := sample_conversation; stream_userMessageId := "msg-1" |}.

Definition sample_create_args : CreateArgs :=
  {| create_title := None;
     create_message :=
       Some {| content := "Hello, agent!";
               mentions := [ {| mention_configurationId := "agent-1" |} ];
               context := None |} |}.

Definition streaming (evs : list AgentEvent) (stop : StreamEnd)
  : StreamArgs -> Settled (Result (StreamValue UnderlyingStream)) :=
  fun _ => Fulfilled (Ok {| eventStream := {| events := evs; ending := stop |} |}).

Definition network_error : JsError := mkError "Error" "socket hang up".

(** A result whose message has the empty string as its id. *)
Definition empty_message_id : option CreateValue :=
  Some {| value_conversation := Some sample_conversation;
          value_message := Some {| agent_message_sId := "";
                                   agent_message_content := None |} |}.

(** An action-success event without an [action]. *)
Definition actionless_event : AgentEvent := bare_event DUST_EVENT_AGENT_ACTION_SUCCESS.

(** A stream whose second event has the tool output [[null]]. *)
Definition null_item_stream : list AgentEvent :=
  [ tokens_event "Hi";
    action_event (search_action (Some (JArr [JNull])));
    bare_event DUST_EVENT_AGENT_MESSAGE_SUCCESS ].

(** A tool output made of one resource item. *)
Definition resource_item : JsValue :=
  JObj [ ("type", JStr "resource");
         ("uri", JStr "file://payroll.csv");
         ("text", JStr "salary table") ].

Definition resource_stream : list AgentEvent :=
  [ action_event (search_action (Some (JArr [resource_item]))) ].

(** ** What a record says of one span *)

(** The attribute values a record sets on span [p], in order. *)
Fixpoint writes (p : SpanId) (record : list Effect) : list (string * AttrValue) :=
  match record with
  | SetAttribute id key (Some v) :: rest =>
      if Nat.eqb id p then (key, v) :: writes p rest else writes p rest
  | _ :: rest => writes p rest
  | [] => []
  end.

(** The statuses a record sets on span [p], in order. *)
Fixpoint statuses (p : SpanId) (record : list Effect) : list (SpanStatusCode * string) :=
  match record with
  | SetStatus id code msg :: rest =>
      if Nat.eqb id p then (code, msg) :: statuses p rest else statuses p rest
  | _ :: rest => statuses p rest
  | [] => []
  end.

(** The exceptions a record records on span [p], in order. *)
Fixpoint thrown (p : SpanId) (record : list Effect) : list JsError :=
  match record with
  | RecordException id e :: rest =>
      if Nat.eqb id p then e :: thrown p rest else thrown p rest
  | _ :: rest => thrown p rest
  | [] => []
  end.

(** The spans a record starts, with all that [startSpan] was given. *)
Fixpoint starts (record : list Effect) : list Effect :=
  match record with
  | StartSpan id name kind attributes parent :: rest =>
      StartSpan id name kind attributes parent :: starts rest
  | _ :: rest => starts rest
  | [] => []
  end.

(** The value of key [k] after the writes [ws]: the last one wins. *)
Definition last_write (k : string) (ws : list (string * AttrValue))
    (seen : option AttrValue) : option AttrValue :=
  fold_left (fun acc kv => if String.eqb (fst kv) k then Some (snd kv) else acc) ws seen.

(** The status after the settings [ss]: the last one wins. *)
Definition last_status (ss : list (SpanStatusCode * string))
    (seen : SpanStatusCode * string) : SpanStatusCode * string :=
  fold_left (fun _ s => s) ss seen.

(** A stretch of record that neither starts nor ends span [p]. *)
Definition keeps_alive (p : SpanId) (record : list Effect) : Prop :=
  Forall (fun e => match e with
                   | StartSpan id _ _ _ _ => id ≠ p
                   | EndSpan id => id ≠ p
                   | _ => True
                   end) record.

(** What span [p] has become, from [sd], through a stretch of record
    that keeps it alive: the same span, with the stretch's writes,
    statuses and exceptions applied. *)
Record carried (p : SpanId) (record : list Effect) (sd sd' : SpanData) : Prop := {
  cr_name : span_name sd' = span_name sd;
  cr_kind : span_kind sd' = span_kind sd;
  cr_parent : span_parent sd' = span_parent sd;
  cr_end : span_end_calls sd' = span_end_calls sd;
  cr_attributes : forall k,
    span_attributes sd' !! k = last_write k (writes p record) (span_attributes sd !! k);
  cr_status : span_status sd' = last_status (statuses p record) (span_status sd);
  cr_exceptions : span_exceptions sd' = span_exceptions sd ++ thrown p record
}.

(** ** What one event calls *)

(** The attribute calls that write [ws] on span [p]. *)
Definition sets (p : SpanId) (ws : list (string * AttrValue)) : list Effect :=
  map (fun kv => SetAttribute p (fst kv) (Some (snd kv))) ws.

(** [if (o) span.setAttribute(key, o)] for a possibly absent string. *)
Definition attr_if_truthy (key : string) (o : option string) : list (string * AttrValue) :=
  match o with
  | Some s => if String.eqb s "" then [] else [(key, AStr s)]
  | None => []
  end.

(** What a message-success event writes on the stream span. *)
Definition message_writes (event : AgentEvent) : list (string * AttrValue) :=
  attr_if_truthy SEMATTRS_GEN_AI_AGENT_ID (configurationId event)
  ++ attr_if_truthy SEMATTRS_GEN_AI_RESPONSE_ID (messageId event)
  ++ match message event ≫= message_configuration with
     | Some c =>
         attr_if_truthy SEMATTRS_GEN_AI_AGENT_NAME (configuration_name c)
         ++ attr_if_truthy SEMATTRS_GEN_AI_AGENT_DESCRIPTION (configuration_description c)
         ++ match configuration_version c with
            | Some q => [(SEMATTRS_DUST_AGENT_VERSION, ANum q)]
            | None => []
            end
         ++ attr_if_truthy SEMATTRS_DUST_AGENT_VERSION_CREATED_AT
              (configuration_versionCreatedAt c)
     | None => []
     end.

(** What an error event writes on the stream span, and the status it
    sets. *)
Definition error_writes (event : AgentEvent) : list (string * AttrValue) :=
  [(SEMATTRS_ERROR_TYPE, AStr (or_else (error event ≫= error_code) "unknown"))].

Definition error_status (event : AgentEvent) : SpanStatusCode * string :=
  (ERROR, or_else (error event ≫= event_error_message) "Unknown error").

Definition event_writes (event : AgentEvent) : list (string * AttrValue) :=
  if is_message_success event then message_writes event
  else if is_error_event event then error_writes event
  else [].

Definition event_statuses (event : AgentEvent) : list (SpanStatusCode * string) :=
  if is_error_event event then [error_status event] else [].

(** The action of a tool-execution event: an action-success event that
    carries one. *)
Definition tool_action (event : AgentEvent) : option Action :=
  if String.eqb (event_type event) DUST_EVENT_AGENT_ACTION_SUCCESS then action event
  else None.

(** The calls an event makes on the stream span. *)
Definition parent_calls (p : SpanId) (event : AgentEvent) : list Effect :=
  if is_message_success event then sets p (message_writes event)
  else if is_error_event event then
    [ SetStatus p ERROR (snd (error_status event));
      SetAttribute p SEMATTRS_ERROR_TYPE
        (Some (AStr (or_else (error event ≫= error_code) "unknown"))) ]
  else [].

(** All the calls made for one event, when the next span to draw is [n]. *)
Definition event_calls (config : RequiredConfig) (p n : SpanId) (event : AgentEvent)
  : list Effect :=
  match tool_action event with
  | Some a =>
      tool_start p n a :: captured config n a
        ++ (if scans_cleanly (output a) then [EndSpan n] else [])
  | None => parent_calls p event
  end.

(** The span that follows [n] once an event has been handled. *)
Definition next_span (n : SpanId) (event : AgentEvent) : SpanId :=
  match tool_action event with
  | Some _ => S n
  | None => n
  end.

(** The events the loop gets to handle: all up to and including the first
    one that raises. *)
Fixpoint reached (evs : list AgentEvent) : list AgentEvent :=
  match evs with
  | [] => []
  | event :: rest => if raises event then [event] else event :: reached rest
  end.

(** The tool spans of a run of events, drawn from [n] on. *)
Fixpoint tool_starts (p n : SpanId) (evs : list AgentEvent) : list Effect :=
  match evs with
  | [] => []
  | event :: rest =>
      match tool_action event with
      | Some a => tool_start p n a :: tool_starts p (S n) rest
      | None => tool_starts p n rest
      end
  end.

(** ** What a whole iteration says of the stream span *)

(** The values written once the underlying stream is exhausted. *)
Definition final_writes (config : RequiredConfig) (st : Locals) : list (string * AttrValue) :=
  (if r_captureMessageContent config && negb (String.eqb (outputContent st) "")
   then [(SEMATTRS_GEN_AI_OUTPUT_MESSAGES,
          AJson (role_content "assistant" (outputContent st)))]
   else [])
  ++ (if negb (Qle_bool (outputTokens st) 0)
      then [(SEMATTRS_GEN_AI_USAGE_OUTPUT_TOKENS, ANum (outputTokens st))]
      else [])
  ++ (if truthy_str (finishReason st)
      then [(SEMATTRS_GEN_AI_RESPONSE_FINISH_REASONS,
             AStrings [default "" (finishReason st)])]
      else [])
  ++ (if negb (Nat.eqb (length (retrievalDocuments st)) 0)
      then [(SEMATTRS_GEN_AI_RETRIEVAL_DOCUMENTS, AJson (JArr (retrievalDocuments st)))]
      else []).

(** The status set and the exception recorded by the [catch] block, when
    the iteration throws. *)
Definition failure_status (c : Completion) : list (SpanStatusCode * string) :=
  match c with
  | Threw e => [(ERROR, error_message e)]
  | Returned => []
  end.

Definition failure_thrown (c : Completion) : list JsError :=
  match c with
  | Threw e => [e]
  | Returned => []
  end.

(** What the loop writes on the stream span and the statuses it sets: those
    of the events that pass, in order. *)
Definition loop_writes (evs : list AgentEvent) : list (string * AttrValue) :=
  flat_map event_writes (passing evs).

Definition loop_statuses (evs : list AgentEvent) : list (SpanStatusCode * string) :=
  flat_map event_statuses (passing evs).

(** The record of an iteration, seen from the stream span [p]: it ends
    with the one [end()] of the span, and before that the span is written
    by the passing events, then by the final attributes, and receives the
    status and the exception of the [catch] block when the iteration
    throws. *)
Inductive iteration_shape (p : SpanId) (evs : list AgentEvent) (c : Completion)
    (record : list Effect) : Prop :=
| Build_iteration_shape (it_front : list Effect) (it_tail : list (string * AttrValue))
    (it_record : record = it_front ++ [EndSpan p])
    (it_alive : keeps_alive p it_front)
    (it_writes : writes p it_front = loop_writes evs ++ it_tail)
    (it_tail_keys : Forall (fun kv => fst kv ∈ final_keys) it_tail)
    (it_statuses : statuses p it_front = loop_statuses evs ++ failure_status c)
    (it_thrown : thrown p it_front = failure_thrown c).


(** The message ids a run of events puts in [gen_ai.response.id]: those of
    its message-success events, when not empty. *)
Definition response_ids (evs : list AgentEvent) : list string :=
  flat_map (fun event =>
              if is_message_success event && truthy_str (messageId event)
              then [default "" (messageId event)] else []) evs.

(** The error events of a run of events. *)
Definition error_events (evs : list AgentEvent) : list AgentEvent :=
  filter (fun event => is_error_event event = true) evs.

(** ** The settling of the two promises *)

(** The calls made when the promise of [createConversation] settles,
    short of the [end()] that closes them. *)
Definition settle_front (n : SpanId) (r : Settled (Result (option CreateValue)))
  : list Effect :=
  match r with
  | Fulfilled (Err error) =>
      [ SetStatus n ERROR (or_else (error ≫= api_error_message) "Unknown error");
        SetAttribute n SEMATTRS_ERROR_TYPE
          (Some (AStr (or_else (error ≫= api_error_type) "unknown"))) ]
  | Fulfilled (Ok (Some value)) =>
      SetAttribute n SEMATTRS_GEN_AI_CONVERSATION_ID
        (AStr <$> (conversation_sId <$> value_conversation value))
      :: (if truthy_str (agent_message_sId <$> value_message value)
          then [SetAttribute n SEMATTRS_GEN_AI_RESPONSE_ID
                  (AStr <$> (agent_message_sId <$> value_message value))]
          else [])
  | Fulfilled (Ok None) => []
  | Rejected e =>
      [ RecordException n e;
        SetStatus n ERROR (error_message e);
        SetAttribute n SEMATTRS_ERROR_TYPE
          (Some (AStr (or_else (Some (error_name e)) "Error"))) ]
  end.

(** The attributes given to [startSpan] by [createConversation]. *)
Definition create_attributes (args : CreateArgs) : list (string * option AttrValue) :=
  [ (SEMATTRS_GEN_AI_OPERATION_NAME, Some (AStr GEN_AI_OPERATION_INVOKE_AGENT));
    (SEMATTRS_GEN_AI_PROVIDER_NAME, Some (AStr GEN_AI_PROVIDER_DUST));
    (SEMATTRS_GEN_AI_AGENT_ID, Some (AStr (or_else (first_mention args) "unknown"))) ].

(** The attributes given to [startSpan] by [streamAgentAnswerEvents]. *)
Definition stream_attributes (args : StreamArgs) : list (string * option AttrValue) :=
  [ (SEMATTRS_GEN_AI_OPERATION_NAME, Some (AStr GEN_AI_OPERATION_INVOKE_AGENT));
    (SEMATTRS_GEN_AI_PROVIDER_NAME, Some (AStr GEN_AI_PROVIDER_DUST));
    (SEMATTRS_GEN_AI_CONVERSATION_ID,
      Some (AStr (conversation_sId (stream_conversation args)))) ].

(** ** The items of a tool output *)

(** The documents of a [retrieval_documents] item that are spread into
    the batch: a truthy [documents] property. *)
Definition spreadable (fields : list (string * JsValue)) : bool :=
  strict_eq_str (lookup_field "type" fields) "retrieval_documents"
  && truthy_opt (lookup_field "documents" fields).

(** The items on which the scan of a tool output raises: [null], whose
    [type] cannot be read, and a [retrieval_documents] item whose truthy
    [documents] is neither an array nor a string. *)
Definition unscannable (item : JsValue) : bool :=
  match item with
  | JNull => true
  | JObj fields =>
      spreadable fields
      && match lookup_field "documents" fields with
         | Some (JArr _) | Some (JStr _) => false
         | _ => true
         end
  | _ => false
  end.

(** What an item that can be scanned adds to the batch: the elements of
    the [documents] of a [retrieval_documents] item (the characters, when
    it is a string), a [resource] item itself, and nothing otherwise. *)
Definition item_documents (item : JsValue) : list JsValue :=
  match item with
  | JObj fields =>
      if spreadable fields then
        match lookup_field "documents" fields with
        | Some (JArr documents) => documents
        | Some (JStr s) => chars s
        | _ => []
        end
      else if strict_eq_str (lookup_field "type" fields) "resource" then [item]
      else []
  | _ => []
  end.

(** ** A consumer that leaves the loop early *)

(** The events a consumer takes when it leaves its own [for await] loop,
    with [break], at the first event for which [leave] holds. *)
Fixpoint taken (leave : AgentEvent -> bool) (evs : list AgentEvent) : list AgentEvent :=
  match evs with
  | [] => []
  | event :: rest => if leave event then [event] else event :: taken leave rest
  end.

(** The loop of [_wrapEventStream], run by such a consumer.  Leaving the
    consumer's loop calls [return()] on the generator, which is suspended
    at [yield event]: it completes there and, the [try] having no
    [finally], runs neither the statements that follow its loop nor the
    [catch] block.  [None] is that case; otherwise the iteration stops as
    in [for_await]. *)
Fixpoint for_await_until (leave : AgentEvent -> bool) (config : RequiredConfig)
    (span : SpanId) (pending : list AgentEvent) (stop : StreamEnd) (st : Locals)
  : Tracer (option Completion) :=
  match pending with
  | event :: rest =>
      r ← on_event config span event st;
      match r with
      | inl e => c ← on_catch span e; mret (Some c)
      | inr st' =>
          yield event;;
          if leave event then mret None
          else for_await_until leave config span rest stop st'
      end
  | [] =>
      match stop with
      | EndOfStream => on_exhausted config span st;; mret (Some Returned)
      | StreamThrows e => c ← on_catch span e; mret (Some c)
      end
  end.

(** A consumer's [for await (const event of stream) { if (leave(event)) break }]. *)
Definition iterate_until (leave : AgentEvent -> bool) (stream : EventStream)
  : Tracer (option Completion) :=
  match stream with
  | Raw s =>
      fun n => (if existsb leave (events s) then None
                else Some (match ending s with
                           | EndOfStream => Returned
                           | StreamThrows e => Threw e
                           end),
                map Yield (taken leave (events s)), n)
  | Wrapped s span config =>
      for_await_until leave config span (events s) (ending s) initial_locals
  end.

(** A caller that stops listening at some event, as the second example of
    [examples/basic-usage.ts] does at the first message-success event:
    await the patched method and, when the result is not an error, iterate
    its event stream until [leave] holds. *)
Definition stream_until (leave : AgentEvent -> bool)
    (baseConfig : DustInstrumentationConfig)
    (original : StreamArgs -> Settled (Result (StreamValue UnderlyingStream)))
    (active : option SpanId) (args : StreamArgs)
  : Tracer (Settled (Result (StreamValue EventStream)) * option (option Completion)) :=
  streamRes ← patchedStreamAgentAnswerEvents baseConfig original active args;
  match streamRes with
  | Fulfilled (Ok value) =>
      c ← iterate_until leave (eventStream value);
      mret (streamRes, Some c)
  | _ => mret (streamRes, None)
  end.

(** ** What a message-success event says of the agent *)

(** [event.message?.configuration] *)
Definition configuration_of (event : AgentEvent) : option Configuration :=
  message event ≫= message_configuration.

(** A string that a message-success event carries and that is not empty. *)
Definition named (read : AgentEvent -> option string) (event : AgentEvent)
  : option AttrValue :=
  if is_message_success event && truthy_str (read event) then AStr <$> read event
  else None.

(** The version that a message-success event carries, whatever it is. *)
Definition versioned (event : AgentEvent) : option AttrValue :=
  if is_message_success event then ANum <$> (configuration_of event ≫= configuration_version)
  else None.

(** The documents that the output of a tool-execution event adds to the
    batch, item by item. *)
Definition tool_documents (event : AgentEvent) : list JsValue :=
  match tool_action event with
  | Some a =>
      match output a with
      | Some (JArr items) => flat_map item_documents items
      | _ => []
      end
  | None => []
  end.

(** The text of the generation-token events of a run, end to end. *)
Fixpoint spoken (evs : list AgentEvent) : string :=
  match evs with
  | [] => ""
  | event :: rest =>
      (if is_token_event event then default "" (text event) else "") +:+ spoken rest
  end.

(** The number of spans the loop draws for a run of events that pass: one
    for each tool-execution event. *)
Definition spans_drawn (evs : list AgentEvent) : nat := length (omap tool_action evs).

(** ** More sample inputs *)

(** A message-success event. *)
Definition success_event (agent id : option string) (configuration : option Configuration)
  : AgentEvent :=
  {| event_type := DUST_EVENT_AGENT_MESSAGE_SUCCESS; created := None;
     configurationId := agent; messageId := id;
     text := None; classification := None; delimiterClassification := None;
     action := None; error := None;
     message := Some {| message_id := id; message_content := None;
                        message_configuration := configuration |} |}.

(** An agent-error event. *)
Definition failed_event (code reason : option string) : AgentEvent :=
  {| event_type := DUST_EVENT_AGENT_ERROR; created := None;
     configurationId := None; messageId := None;
     text := None; classification := None; delimiterClassification := None;
     action := None;
     error := Some {| error_code := code; event_error_message := reason |};
     message := None |}.

(** A stream in which several events write the same attributes: two error
    events, the second without a code, and three message-success events,
    the second with an empty agent id and an empty configuration name and
    the version zero, the third with an empty message id and no
    configuration. *)
Definition replies_stream : list AgentEvent :=
  [ failed_event (Some "rate_limited") (Some "slow down");
    success_event (Some "agent-1") (Some "msg-1")
      (Some {| configuration_sId := None; configuration_name := Some "Helper";
               configuration_description := Some "first";
               configuration_version := Some 3%Q;
               configuration_versionCreatedAt := None |});
    failed_event None None;
    success_event (Some "") (Some "msg-2")
      (Some {| configuration_sId := None; configuration_name := Some "";
               configuration_description := Some "second";
               configuration_version := Some 0%Q;
               configuration_versionCreatedAt := None |});
    success_event None (Some "") None ].

(** A stream of two tool-execution events with the same tool name and the
    same ids, the second with an output. *)
Definition twin_stream : list AgentEvent :=
  [ action_event (search_action None);
    action_event (search_action (Some (JArr [resource_item]))) ].

(** The same, the output of the second holding [null]. *)
Definition twin_null_stream : list AgentEvent :=
  [ action_event (search_action None);
    action_event (search_action (Some (JArr [JNull]))) ].

(** * Properties of the instrumentation *)

(** ** Records of effects *)

Ltac run_tracer :=
  unfold when, setAttribute, setStatus, recordException, endSpan, yield, startSpan, emit,
    effects, outcome in *;
  unfold mbind, Tracer_bind, bind, mret, Tracer_ret, ret in *.

Lemma yielded_app (l1 l2 : list Effect) : yielded (l1 ++ l2) = yielded l1 ++ yielded l2.
Proof.
  induction l1 as [|e l1 IH]; [reflexivity|].
  destruct e; simpl; rewrite IH; reflexivity.
Qed.

Lemma started_app (l1 l2 : list Effect) : started (l1 ++ l2) = started l1 ++ started l2.
Proof.
  induction l1 as [|e l1 IH]; [reflexivity|].
  destruct e; simpl; rewrite IH; reflexivity.
Qed.

Lemma yielded_map_Yield (evs : list AgentEvent) : yielded (map Yield evs) = evs.
Proof. induction evs as [|e evs IH]; simpl; congruence. Qed.

Lemma observe_foreign id s e : foreign id e -> observe id s e = s.
Proof.
  intros H. unfold observe. rewrite bool_decide_eq_false_2; [reflexivity | exact H].
Qed.

Lemma fold_foreign id l : forall s, Forall (foreign id) l -> fold_left (observe id) l s = s.
Proof.
  induction l as [|e l IH]; intros s H; [reflexivity|].
  inversion H; subst. simpl. rewrite observe_foreign by assumption. auto.
Qed.

Lemma observe_during_loop p sd e :
  during_loop p e -> open_span sd ->
  exists sd', observe p (Some sd) e = Some sd' /\ open_span sd'.
Proof.
  intros He [H0 Hx Hf]. unfold observe.
  case_bool_decide as Hid; [|exists sd; split; [reflexivity | split; assumption]].
  destruct e; simpl in *; try (inversion Hid; subst; contradiction).
  - inversion Hid; subst. unfold put_attribute, is_ended. destruct value as [v|].
    + rewrite H0. simpl. eexists; split; [reflexivity|].
      split; simpl; [reflexivity | assumption |].
      intros k Hk. rewrite lookup_insert_ne; [auto|].
      intros ->. exact (He eq_refl Hk).
    + exists sd. split; [reflexivity | split; assumption].
  - unfold put_status, is_ended. rewrite H0. simpl.
    eexists; split; [reflexivity|]. split; simpl; auto.
Qed.

Lemma fold_during_loop p l : forall sd,
  Forall (during_loop p) l -> open_span sd ->
  exists sd', fold_left (observe p) l (Some sd) = Some sd' /\ open_span sd'.
Proof.
  induction l as [|e l IH]; intros sd H Ho.
  - exists sd. split; [reflexivity | assumption].
  - inversion H; subst. simpl.
    destruct (observe_during_loop p sd e) as (sd1 & -> & Ho1); auto.
Qed.

(** ** Scanning a tool output *)

(** Whether an item can be scanned, and what it adds, does not depend on
    the documents gathered so far. *)
Lemma scan_item_inl item docs e :
  scan_item item docs = inl e -> forall docs', scan_item item docs' = inl e.
Proof.
  unfold scan_item. intros H docs'.
  destruct (get_prop item "type") as [e1|type]; [exact H|].
  destruct (strict_eq_str type "retrieval_documents").
  - destruct (get_prop item "documents") as [e2|documents]; [exact H|].
    destruct (truthy_opt documents).
    + destruct (spread (default JNull documents)); [exact H | discriminate].
    + destruct (strict_eq_str type "resource"); discriminate.
  - destruct (strict_eq_str type "resource"); discriminate.
Qed.

Lemma scan_item_inr item docs d :
  scan_item item docs = inr d ->
  exists more, d = docs ++ more /\ forall docs', scan_item item docs' = inr (docs' ++ more).
Proof.
  unfold scan_item. intros H.
  destruct (get_prop item "type") as [e1|type]; [discriminate|].
  destruct (strict_eq_str type "retrieval_documents").
  - destruct (get_prop item "documents") as [e2|documents]; [discriminate|].
    destruct (truthy_opt documents).
    + destruct (spread (default JNull documents)) as [e3|more]; [discriminate|].
      exists more. split; [congruence | reflexivity].
    + destruct (strict_eq_str type "resource").
      * exists [item]. split; [congruence | reflexivity].
      * exists []. split; [rewrite app_nil_r; congruence|].
        intros docs'. rewrite app_nil_r. reflexivity.
  - destruct (strict_eq_str type "resource").
    + exists [item]. split; [congruence | reflexivity].
    + exists []. split; [rewrite app_nil_r; congruence|].
      intros docs'. rewrite app_nil_r. reflexivity.
Qed.

Lemma scan_items_inl items : forall docs e,
  scan_items items docs = inl e -> forall docs', scan_items items docs' = inl e.
Proof.
  induction items as [|item rest IH]; intros docs e H docs'; simpl in *; [discriminate|].
  destruct (scan_item item docs) as [e1|d] eqn:E.
  - rewrite (scan_item_inl _ _ _ E docs'). exact H.
  - destruct (scan_item_inr _ _ _ E) as (more & -> & Hall).
    rewrite Hall. eapply IH. exact H.
Qed.

Lemma scan_items_inr items : forall docs d,
  scan_items items docs = inr d ->
  exists more, d = docs ++ more /\ forall docs', scan_items items docs' = inr (docs' ++ more).
Proof.
  induction items as [|item rest IH]; intros docs d H; simpl in *.
  - exists []. split; [rewrite app_nil_r; congruence|].
    intros docs'. rewrite app_nil_r. reflexivity.
  - destruct (scan_item item docs) as [e1|d1] eqn:E; [discriminate|].
    destruct (scan_item_inr _ _ _ E) as (more1 & -> & Hall1).
    destruct (IH _ _ H) as (more2 & -> & Hall2).
    exists (more1 ++ more2). split; [rewrite app_assoc; reflexivity|].
    intros docs'. rewrite Hall1, Hall2, app_assoc. reflexivity.
Qed.

Lemma scan_output_clean o docs :
  scans_cleanly o = true -> scan_output o docs = inr (docs ++ found_documents o).
Proof.
  unfold scans_cleanly, found_documents, scan_output.
  destruct o as [[| | | |items|]|]; intros H; try (rewrite app_nil_r; reflexivity).
  destruct (scan_items items []) as [e|d] eqn:E; [discriminate|].
  destruct (scan_items_inr _ _ _ E) as (more & -> & Hall).
  rewrite Hall. reflexivity.
Qed.

Lemma scan_output_raises o docs :
  scans_cleanly o = false -> exists e, scan_output o docs = inl e.
Proof.
  unfold scans_cleanly, scan_output.
  destruct o as [[| | | |items|]|]; intros H; try discriminate.
  destruct (scan_items items []) as [e|d] eqn:E; [|discriminate].
  exists e. eapply scan_items_inl. exact E.
Qed.

(** ** One event *)

Lemma on_action_run config span a st n :
  on_action config span a st n =
  match scan_output (output a) (retrievalDocuments st) with
  | inl e => (inl e, tool_start span n a :: captured config n a, S n)
  | inr docs =>
      (inr (with_documents st docs),
       tool_start span n a :: captured config n a ++ [EndSpan n], S n)
  end.
Proof.
  unfold on_action, captured, tool_start. run_tracer.
  destruct (r_captureMessageContent config), (truthy_opt (params a)),
    (truthy_opt (output a)), (scan_output (output a) (retrievalDocuments st));
    reflexivity.
Qed.

Lemma captured_on_tool config toolSpan a :
  Forall (fun e => exists k v, e = SetAttribute toolSpan k v) (captured config toolSpan a).
Proof.
  unfold captured.
  destruct (r_captureMessageContent config), (truthy_opt (params a)),
    (truthy_opt (output a)); simpl; repeat constructor; eauto.
Qed.

Lemma observe_start id s name kind attributes parent :
  observe id s (StartSpan id name kind attributes parent)
  = Some (new_span name kind attributes parent).
Proof. unfold observe. rewrite bool_decide_eq_true_2; reflexivity. Qed.

Lemma observe_set id s key value :
  observe id s (SetAttribute id key value) = put_attribute key value <$> s.
Proof. unfold observe. rewrite bool_decide_eq_true_2; reflexivity. Qed.

Lemma observe_status id s code msg :
  observe id s (SetStatus id code msg) = put_status code msg <$> s.
Proof. unfold observe. rewrite bool_decide_eq_true_2; reflexivity. Qed.

Lemma observe_exception id s e :
  observe id s (RecordException id e) = put_exception e <$> s.
Proof. unfold observe. rewrite bool_decide_eq_true_2; reflexivity. Qed.

Lemma observe_end id s : observe id s (EndSpan id) = put_end <$> s.
Proof. unfold observe. rewrite bool_decide_eq_true_2; reflexivity. Qed.

Lemma observe_yield id s event : observe id s (Yield event) = s.
Proof. reflexivity. Qed.

Lemma parent_silent p l : Forall (on_parent p) l -> yielded l = [].
Proof.
  intros H. induction H as [|e l He _ IH]; [reflexivity|].
  destruct e; simpl in *; try contradiction; exact IH.
Qed.

Lemma parent_chunk p n l : Forall (on_parent p) l -> body_ok p n n l.
Proof.
  intros H. split.
  - lia.
  - rewrite Nat.sub_diag. simpl.
    induction H as [|e l He _ IH]; [reflexivity|].
    destruct e; simpl in *; try contradiction; exact IH.
  - eapply Forall_impl; [exact H|]. intros e He i Hi.
    destruct e; simpl in *; try contradiction.
    + destruct He as [-> _]. left. congruence.
    + subst. left. congruence.
  - intros _. eapply Forall_impl; [exact H|]. intros e He.
    destruct e; simpl in *; try contradiction; tauto.
  - intros id s Hid Hs. rewrite fold_foreign; [exact Hs|].
    eapply Forall_impl; [exact H|]. intros e He Heq.
    destruct e; simpl in *; try contradiction.
    + destruct He as [-> _]. congruence.
    + subst. congruence.
Qed.

Lemma tool_block_view config p n a s :
  exists sd,
    fold_left (observe n) (tool_start p n a :: captured config n a ++ [EndSpan n]) s = Some sd
    /\ tool_span p a sd.
Proof.
  unfold captured, tool_start.
  destruct (r_captureMessageContent config);
    [destruct (params a) as [pv|], (output a) as [ov|]; simpl truthy_opt;
     [destruct (truthy pv), (truthy ov) | destruct (truthy pv) | destruct (truthy ov) |]|];
    simpl fold_left;
    rewrite ?observe_start, ?observe_set, ?observe_end; simpl;
    (eexists; split; [reflexivity|]);
    (split; simpl; try reflexivity;
     rewrite ?lookup_insert_ne by (unfold SEMATTRS_GEN_AI_TOOL_CALL_RESULT,
       SEMATTRS_GEN_AI_TOOL_CALL_ARGUMENTS, SEMATTRS_GEN_AI_TOOL_NAME,
       SEMATTRS_GEN_AI_TOOL_CALL_ID; discriminate);
     reflexivity).
Qed.

Lemma captured_silent config n a : yielded (captured config n a) = [].
Proof.
  pose proof (captured_on_tool config n a) as Hc.
  induction Hc as [|e l (k & v & ->) _ IH]; [reflexivity | exact IH].
Qed.

Lemma captured_starts_none config n a : started (captured config n a) = [].
Proof.
  pose proof (captured_on_tool config n a) as Hc.
  induction Hc as [|e l (k & v & ->) _ IH]; [reflexivity | exact IH].
Qed.

Lemma tool_chunk config p n a :
  body_ok p n (S n) (tool_start p n a :: captured config n a ++ [EndSpan n]).
Proof.
  pose proof (captured_on_tool config n a) as Hc.
  assert (Hall : Forall (fun e => effect_span e = Some n)
                   (tool_start p n a :: captured config n a ++ [EndSpan n])).
  { constructor; [reflexivity|]. apply Forall_app. split.
    - eapply Forall_impl; [exact Hc|]. intros e (k & v & ->). reflexivity.
    - repeat constructor. }
  split.
  - lia.
  - replace (S n - n) with 1 by lia. simpl. f_equal.
    rewrite started_app, captured_starts_none. reflexivity.
  - eapply Forall_impl; [exact Hall|]. intros e He i Hi.
    right. rewrite He in Hi. inversion Hi; subst. lia.
  - intros Hp. constructor; [simpl; lia|]. apply Forall_app. split.
    + eapply Forall_impl; [exact Hc|]. intros e (k & v & ->). simpl. lia.
    + repeat constructor. simpl. lia.
  - intros id s Hid [Hfresh Hclosed]. destruct (decide (id = n)) as [->|Hne].
    + destruct (tool_block_view config p n a s) as (sd & -> & Hsd). split.
      * lia.
      * intros sd' [= <-]. apply Hsd.
    + rewrite fold_foreign.
      * split; [intros; apply Hfresh; lia | exact Hclosed].
      * eapply Forall_impl; [exact Hall|]. intros e He Heq.
        rewrite He in Heq. congruence.
Qed.

Lemma body_ok_yield p n event : body_ok p n n [Yield event].
Proof.
  split.
  - lia.
  - rewrite Nat.sub_diag. reflexivity.
  - constructor; [|constructor]. intros j Hj. discriminate.
  - intros _. repeat constructor.
  - intros id s _ Hs. exact Hs.
Qed.

Lemma body_ok_nil p n : body_ok p n n [].
Proof. apply parent_chunk. constructor. Qed.

Lemma body_ok_app p n m k l1 l2 :
  body_ok p n m l1 -> body_ok p m k l2 -> body_ok p n k (l1 ++ l2).
Proof.
  intros [M1 S1 C1 L1 T1] [M2 S2 C2 L2 T2]. split.
  - lia.
  - rewrite started_app, S1, S2.
    replace (k - n) with ((m - n) + (k - m)) by lia.
    rewrite seq_app. do 2 f_equal. lia.
  - apply Forall_app. split.
    + eapply Forall_impl; [exact C1|]. intros e He i Hi.
      destruct (He i Hi); [left; assumption | right; lia].
    + eapply Forall_impl; [exact C2|]. intros e He i Hi.
      destruct (He i Hi); [left; assumption | right; lia].
  - intros Hp. apply Forall_app. split; [apply L1; lia | apply L2; lia].
  - intros id s Hid Hs. rewrite fold_left_app. apply T2; [exact Hid|].
    apply T1; assumption.
Qed.

Lemma string_app_empty (s : string) : s +:+ "" = s.
Proof.
  induction s as [|c s IH]; [reflexivity|].
  change (String c (s +:+ "") = String c s). congruence.
Qed.

Lemma string_app_assoc (s t u : string) : (s +:+ t) +:+ u = s +:+ (t +:+ u).
Proof.
  induction s as [|c s IH]; [reflexivity|].
  change (String c ((s +:+ t) +:+ u) = String c (s +:+ (t +:+ u))). congruence.
Qed.

Lemma on_message_success_run span event st n :
  exists l,
    on_message_success span event st n = (with_finish st "stop", l, n)
    /\ Forall (on_parent span) l.
Proof.
  unfold on_message_success.
  assert (Hset : forall k v, (k ∉ final_keys) /\ (k ∉ content_keys) ->
                       on_parent span (SetAttribute span k v)).
  { intros k v Hk. split; [reflexivity | exact Hk]. }
  destruct (truthy_str (configurationId event)), (truthy_str (messageId event)),
    (message event ≫= message_configuration) as [c|];
    [destruct (truthy_str (configuration_name c)),
       (truthy_str (configuration_description c)),
       (bool_decide (is_Some (configuration_version c))),
       (truthy_str (configuration_versionCreatedAt c)) | |
     destruct (truthy_str (configuration_name c)),
       (truthy_str (configuration_description c)),
       (bool_decide (is_Some (configuration_version c))),
       (truthy_str (configuration_versionCreatedAt c)) | |
     destruct (truthy_str (configuration_name c)),
       (truthy_str (configuration_description c)),
       (bool_decide (is_Some (configuration_version c))),
       (truthy_str (configuration_versionCreatedAt c)) | |
     destruct (truthy_str (configuration_name c)),
       (truthy_str (configuration_description c)),
       (bool_decide (is_Some (configuration_version c))),
       (truthy_str (configuration_versionCreatedAt c)) | ];
    run_tracer; simpl; (eexists; split; [reflexivity|]);
    repeat (constructor; [apply Hset; split; compute_done|]); constructor.
Qed.

Lemma on_error_event_run span event st n :
  exists l,
    on_error_event span event st n = (with_finish st "error", l, n)
    /\ Forall (on_parent span) l.
Proof.
  unfold on_error_event. run_tracer. simpl.
  eexists; split; [reflexivity|].
  constructor; [reflexivity|]. constructor; [|constructor].
  split; [reflexivity | split; compute_done].
Qed.

Ltac unfold_event_types :=
  unfold DUST_EVENT_GENERATION_TOKENS, DUST_EVENT_AGENT_ACTION_SUCCESS,
    DUST_EVENT_AGENT_MESSAGE_SUCCESS, DUST_EVENT_AGENT_ERROR,
    DUST_EVENT_USER_MESSAGE_ERROR in *.

Ltac finish_step :=
  split;
  unfold event_text, event_documents, is_token_event, is_message_success,
    is_error_event, text_length;
  simpl;
  repeat match goal with
         | H : _ = false |- _ => rewrite H
         | H : _ = true |- _ => rewrite H
         | H : forall b : bool, _ = false |- _ => rewrite H
         end;
  unfold_event_types; simpl;
  rewrite ?Qplus_0_r, ?andb_false_r, ?string_app_empty, ?app_nil_r;
  reflexivity.

(** Handling an event that does not raise: the effects are a stretch of
    loop record without any yield, and the locals move as [step_spec] says. *)
Lemma on_event_clean config p event st n :
  raises event = false ->
  exists st' l n',
    on_event config p event st n = (inr st', l, n')
    /\ yielded l = [] /\ body_ok p n n' l /\ step_spec config event st st'.
Proof.
  intros Hclean. destruct event as [ty cr cid mid tx cl dcl act err msg].
  unfold on_event, raises in *. simpl in *.
  destruct (String.eqb_spec ty DUST_EVENT_GENERATION_TOKENS) as [->|H1].
  { clear Hclean. eexists _, [], n.
    split; [reflexivity|]. split; [reflexivity|]. split; [apply body_ok_nil|].
    unfold on_generation_tokens. simpl.
    destruct (truthy_str tx) eqn:Htx; [destruct (r_captureMessageContent config) eqn:Hc|];
      finish_step. }
  destruct (String.eqb_spec ty DUST_EVENT_AGENT_ACTION_SUCCESS) as [->|H2].
  { simpl in Hclean. destruct act as [a|].
    - rewrite on_action_run.
      apply negb_false_iff in Hclean.
      rewrite (scan_output_clean _ (retrievalDocuments st) Hclean).
      eexists _, _, _. split; [reflexivity|]. split.
      + simpl. rewrite yielded_app, captured_silent. reflexivity.
      + split; [apply tool_chunk|]. clear Hclean. finish_step.
    - clear Hclean. exists st, [], n. split; [reflexivity|]. split; [reflexivity|].
      split; [apply body_ok_nil|]. finish_step. }
  clear Hclean.
  assert (Hnot_tok : forall b, String.eqb ty DUST_EVENT_GENERATION_TOKENS && b = false).
  { intros b. apply String.eqb_neq in H1. rewrite H1. reflexivity. }
  assert (Hnot_act : String.eqb ty DUST_EVENT_AGENT_ACTION_SUCCESS = false).
  { apply String.eqb_neq. exact H2. }
  clear H1 H2.
  destruct (String.eqb ty DUST_EVENT_AGENT_MESSAGE_SUCCESS) eqn:H3.
  { match goal with
    | |- context [on_message_success p ?e st] =>
        destruct (on_message_success_run p e st n) as (l & Hrun & Hl)
    end.
    exists (with_finish st "stop"), l, n.
    split; [run_tracer; rewrite Hrun; rewrite app_nil_r; reflexivity|].
    split; [eapply parent_silent; exact Hl|]. split; [apply parent_chunk; exact Hl|].
    clear Hrun Hl. finish_step. }
  destruct (String.eqb ty DUST_EVENT_AGENT_ERROR
            || String.eqb ty DUST_EVENT_USER_MESSAGE_ERROR) eqn:H4.
  { match goal with
    | |- context [on_error_event p ?e st] =>
        destruct (on_error_event_run p e st n) as (l & Hrun & Hl)
    end.
    exists (with_finish st "error"), l, n.
    split; [run_tracer; rewrite Hrun; rewrite app_nil_r; reflexivity|].
    split; [eapply parent_silent; exact Hl|]. split; [apply parent_chunk; exact Hl|].
    clear Hrun Hl. finish_step. }
  exists st, [], n. split; [reflexivity|]. split; [reflexivity|].
  split; [apply body_ok_nil|]. finish_step.
Qed.

(** ** The whole stream *)

Lemma on_exhausted_run config p st n :
  on_exhausted config p st n = (tt, final_calls config p st, n).
Proof.
  unfold on_exhausted, final_calls, final_attributes. run_tracer.
  destruct (r_captureMessageContent config && negb (String.eqb (outputContent st) "")),
    (negb (Qle_bool (outputTokens st) 0)), (truthy_str (finishReason st)),
    (negb (Nat.eqb (length (retrievalDocuments st)) 0)); reflexivity.
Qed.

Lemma on_catch_run p e n : on_catch p e n = (Threw e, catch_calls p e, n).
Proof. reflexivity. Qed.

(** The loop over a stream none of whose events raises: every event is
    yielded, in order, and then come the closing calls. *)
Lemma for_await_clean config p evs : forall stop st n,
  clean evs ->
  exists body st_end n_end,
    for_await config p evs stop st n
    = (completion_of stop, body ++ closing config p stop st_end, n_end)
    /\ yielded body = evs
    /\ body_ok p n n_end body
    /\ locals_spec config evs st st_end.
Proof.
  induction evs as [|event rest IH]; intros stop st n Hclean.
  - exists [], st, n. split.
    + destruct stop as [|e]; simpl.
      * run_tracer. rewrite on_exhausted_run. rewrite app_nil_r. reflexivity.
      * apply on_catch_run.
    + split; [reflexivity|]. split; [apply body_ok_nil|].
      split; simpl.
      * rewrite Qplus_0_r. reflexivity.
      * rewrite string_app_empty. reflexivity.
      * reflexivity.
      * rewrite app_nil_r. reflexivity.
  - inversion Hclean as [|? ? He Hrest]; subst.
    destruct (on_event_clean config p event st n He)
      as (st1 & l & n1 & Hrun & Hsilent & Hbody & Hstep).
    destruct (IH stop st1 n1 Hrest) as (body & st_end & n_end & Hloop & Hy & Hb & Hl).
    exists (l ++ Yield event :: body), st_end, n_end. split.
    + simpl. run_tracer. rewrite Hrun. rewrite Hloop. simpl.
      rewrite <- app_assoc. reflexivity.
    + split.
      * rewrite yielded_app, Hsilent. simpl. rewrite Hy. reflexivity.
      * split.
        -- eapply body_ok_app; [exact Hbody|].
           change (Yield event :: body) with ([Yield event] ++ body).
           eapply body_ok_app; [apply body_ok_yield | exact Hb].
        -- destruct Hstep as [T1 C1 F1 D1], Hl as [T2 C2 F2 D2]. split; simpl.
           ++ rewrite T2, T1. ring.
           ++ rewrite C2, C1. apply string_app_assoc.
           ++ rewrite F2, F1. reflexivity.
           ++ rewrite D2, D1, app_assoc. reflexivity.
Qed.

(** ** The closing calls, seen from the stream span *)

Ltac unfold_keys :=
  unfold SEMATTRS_GEN_AI_OPERATION_NAME, SEMATTRS_GEN_AI_PROVIDER_NAME,
    SEMATTRS_GEN_AI_AGENT_ID, SEMATTRS_GEN_AI_AGENT_NAME,
    SEMATTRS_GEN_AI_AGENT_DESCRIPTION, SEMATTRS_GEN_AI_CONVERSATION_ID,
    SEMATTRS_GEN_AI_RESPONSE_ID, SEMATTRS_GEN_AI_RESPONSE_FINISH_REASONS,
    SEMATTRS_GEN_AI_INPUT_MESSAGES, SEMATTRS_GEN_AI_OUTPUT_MESSAGES,
    SEMATTRS_GEN_AI_USAGE_OUTPUT_TOKENS, SEMATTRS_GEN_AI_TOOL_NAME,
    SEMATTRS_GEN_AI_TOOL_CALL_ID, SEMATTRS_GEN_AI_TOOL_CALL_ARGUMENTS,
    SEMATTRS_GEN_AI_TOOL_CALL_RESULT, SEMATTRS_GEN_AI_RETRIEVAL_DOCUMENTS,
    SEMATTRS_DUST_AGENT_VERSION, SEMATTRS_DUST_AGENT_VERSION_CREATED_AT,
    SEMATTRS_ENDUSER_ID, SEMATTRS_ERROR_TYPE in *.

Ltac observe_calls :=
  rewrite ?observe_start, ?observe_set, ?observe_status, ?observe_exception,
    ?observe_end, ?observe_yield.

Lemma final_calls_view config p st sd :
  open_span sd ->
  exists sd', fold_left (observe p) (final_calls config p st) (Some sd) = Some sd'
              /\ flushed config st sd' /\ span_status sd' = span_status sd.
Proof.
  intros [H0 Hx Hf].
  assert (F1 := Hf SEMATTRS_GEN_AI_OUTPUT_MESSAGES ltac:(compute_done)).
  assert (F2 := Hf SEMATTRS_GEN_AI_USAGE_OUTPUT_TOKENS ltac:(compute_done)).
  assert (F3 := Hf SEMATTRS_GEN_AI_RESPONSE_FINISH_REASONS ltac:(compute_done)).
  assert (F4 := Hf SEMATTRS_GEN_AI_RETRIEVAL_DOCUMENTS ltac:(compute_done)).
  clear Hf. destruct sd as [nm kd pr attrs status excs ends]. simpl in *. subst.
  unfold final_calls, final_attributes.
  destruct (r_captureMessageContent config && negb (String.eqb (outputContent st) ""))
    eqn:E1;
    destruct (negb (Qle_bool (outputTokens st) 0)) eqn:E2;
    destruct (truthy_str (finishReason st)) eqn:E3;
    destruct (negb (Nat.eqb (length (retrievalDocuments st)) 0)) eqn:E4;
    simpl fold_left; observe_calls; simpl;
    (eexists; split; [reflexivity|]); (split; [|reflexivity]);
    split; simpl; rewrite ?E1, ?E2, ?E3, ?E4; try reflexivity;
    unfold_keys; simplify_map_eq; done.
Qed.

(** The same for the [catch] block. *)
Lemma catch_calls_view p e sd :
  open_span sd ->
  exists sd', fold_left (observe p) (catch_calls p e) (Some sd) = Some sd'
              /\ span_end_calls sd' = 1
              /\ span_status sd' = (ERROR, error_message e)
              /\ span_exceptions sd' = [e].
Proof.
  intros [H0 Hx Hf]. destruct sd as [nm kd pr attrs status excs ends]. simpl in *. subst.
  unfold catch_calls. simpl fold_left. observe_calls. simpl.
  eexists; split; [reflexivity|]. simpl. auto.
Qed.

Lemma closing_on_parent config p stop st :
  Forall (fun e => effect_span e = Some p) (closing config p stop st).
Proof.
  destruct stop as [|e]; simpl; [|repeat constructor].
  unfold final_calls, final_attributes.
  destruct (r_captureMessageContent config && negb (String.eqb (outputContent st) "")),
    (negb (Qle_bool (outputTokens st) 0)), (truthy_str (finishReason st)),
    (negb (Nat.eqb (length (retrievalDocuments st)) 0)); repeat constructor.
Qed.

Lemma closing_silent config p stop st : yielded (closing config p stop st) = [].
Proof.
  pose proof (closing_on_parent config p stop st) as H.
  induction H as [|e l He _ IH]; [reflexivity|].
  destruct e; simpl in *; try exact IH. discriminate.
Qed.

Lemma closing_starts_none config p stop st : started (closing config p stop st) = [].
Proof.
  destruct stop as [|e]; simpl; [|reflexivity].
  unfold final_calls, final_attributes.
  destruct (r_captureMessageContent config && negb (String.eqb (outputContent st) "")),
    (negb (Qle_bool (outputTokens st) 0)), (truthy_str (finishReason st)),
    (negb (Nat.eqb (length (retrievalDocuments st)) 0)); reflexivity.
Qed.

(** ** A streamed call, from the patched method to the end of the stream *)

Lemma patched_stream_ok baseConfig original active args n value :
  r_enabled (_getConfig baseConfig) = true ->
  original args = Fulfilled (Ok value) ->
  patchedStreamAgentAnswerEvents baseConfig original active args n
  = (Fulfilled (Ok {| eventStream := Wrapped (eventStream value) n (_getConfig baseConfig) |}),
     [stream_start active args n], S n).
Proof.
  intros Hen Horig. unfold patchedStreamAgentAnswerEvents.
  rewrite Hen, Horig. reflexivity.
Qed.

Lemma stream_start_open active args n :
  exists sd, observe n None (stream_start active args n) = Some sd /\ open_span sd
             /\ span_status sd = (UNSET, "").
Proof.
  unfold stream_start. rewrite observe_start.
  eexists; split; [reflexivity|]. split; [|reflexivity].
  split; try reflexivity.
  intros k Hk. unfold final_keys in Hk.
  repeat (apply elem_of_cons in Hk; destruct Hk as [->|Hk]; [reflexivity|]).
  apply elem_of_nil in Hk. contradiction.
Qed.

(** The record of a streamed call whose events all pass: the start of the
    stream span, the loop's record, the closing calls. *)
Lemma session_clean baseConfig original active args n value :
  r_enabled (_getConfig baseConfig) = true ->
  original args = Fulfilled (Ok value) ->
  clean (events (eventStream value)) ->
  exists body st_end n_end,
    stream_and_consume baseConfig original active args n
    = ((Fulfilled (Ok {| eventStream :=
                           Wrapped (eventStream value) n (_getConfig baseConfig) |}),
        Some (completion_of (ending (eventStream value)))),
       stream_start active args n
         :: body ++ closing (_getConfig baseConfig) n (ending (eventStream value)) st_end,
       n_end)
    /\ yielded body = events (eventStream value)
    /\ body_ok n (S n) n_end body
    /\ locals_spec (_getConfig baseConfig) (events (eventStream value)) initial_locals st_end
    /\ exists sd, fold_left (observe n) (stream_start active args n :: body) None = Some sd
                  /\ open_span sd.
Proof.
  intros Hen Horig Hclean.
  destruct (for_await_clean (_getConfig baseConfig) n (events (eventStream value))
              (ending (eventStream value)) initial_locals (S n) Hclean)
    as (body & st_end & n_end & Hloop & Hy & Hb & Hl).
  exists body, st_end, n_end. split.
  - unfold stream_and_consume. run_tracer.
    rewrite (patched_stream_ok _ _ _ _ _ _ Hen Horig).
    unfold iterate, _wrapEventStream. cbn [eventStream]. rewrite Hloop. simpl.
    rewrite app_nil_r. reflexivity.
  - split; [exact Hy|]. split; [exact Hb|]. split; [exact Hl|].
    simpl fold_left.
    destruct (stream_start_open active args n) as (sd0 & -> & Ho & _).
    apply fold_during_loop; [|exact Ho].
    apply (ck_loop _ _ _ _ Hb). lia.
Qed.

(** In such a record every span that was started has been ended once. *)
Lemma session_spans_closed active args config n body n_end stop st :
  body_ok n (S n) n_end body ->
  forall id sd,
    span_view id (stream_start active args n :: body ++ closing config n stop st) = Some sd ->
    span_end_calls sd = 1.
Proof.
  intros Hb id sd. unfold span_view.
  change (stream_start active args n :: body ++ closing config n stop st)
    with ([stream_start active args n] ++ body ++ closing config n stop st).
  rewrite !fold_left_app. destruct (decide (id = n)) as [->|Hne].
  - simpl fold_left at 3.
    destruct (stream_start_open active args n) as (sd0 & -> & Ho & _).
    destruct (fold_during_loop n body sd0) as (sd1 & -> & Ho1);
      [apply (ck_loop _ _ _ _ Hb); lia | exact Ho |].
    destruct stop as [|e]; simpl closing.
    + destruct (final_calls_view config n st sd1 Ho1) as (sd2 & -> & Hfl & _).
      intros [= <-]. apply Hfl.
    + destruct (catch_calls_view n e sd1 Ho1) as (sd2 & -> & Hend & _).
      intros [= <-]. exact Hend.
  - rewrite (fold_foreign id (closing config n stop st)).
    + simpl fold_left at 2. rewrite observe_foreign
        by (unfold foreign, stream_start; simpl; intros [= Heq]; congruence).
      intros Hview.
      apply (ck_tools _ _ _ _ Hb id None Hne); [|exact Hview].
      split; [reflexivity | discriminate].
    + eapply Forall_impl; [apply closing_on_parent|].
      intros e He Heq. rewrite He in Heq. congruence.
Qed.

(** ** The settlement of a patched call *)

(** An enabled [createConversation]: the caller gets what the SDK method
    gave, result or rejection, and the record is the start of the span, the
    request attributes and the settlement. *)
Lemma create_run baseConfig original active args n :
  r_enabled (_getConfig baseConfig) = true ->
  patchedCreateConversation baseConfig original active args n
  = (original args,
     create_start active args n
       :: create_prelude (_getConfig baseConfig) args n ++ settle_calls n (original args),
     S n).
Proof.
  intros Hen. unfold patchedCreateConversation, create_prelude, settle_calls,
    create_start, flag_error, on_rejected, error_calls, rejected_calls.
  rewrite Hen. simpl negb. cbv iota.
  destruct (truthy_str (context_email args)),
    (r_captureMessageContent (_getConfig baseConfig) && truthy_str (message_text args)),
    (original args) as [[[value|]|error]|e];
    try destruct (truthy_str (agent_message_sId <$> value_message value));
    reflexivity.
Qed.

(** An enabled [streamAgentAnswerEvents] that does not give a stream. *)
Lemma patched_stream_err baseConfig original active args n error :
  r_enabled (_getConfig baseConfig) = true ->
  original args = Fulfilled (Err error) ->
  patchedStreamAgentAnswerEvents baseConfig original active args n
  = (Fulfilled (Err error), stream_start active args n :: error_calls n error, S n).
Proof.
  intros Hen Horig. unfold patchedStreamAgentAnswerEvents.
  rewrite Hen, Horig. reflexivity.
Qed.

Lemma patched_stream_rejected baseConfig original active args n e :
  r_enabled (_getConfig baseConfig) = true ->
  original args = Rejected e ->
  patchedStreamAgentAnswerEvents baseConfig original active args n
  = (Rejected e, stream_start active args n :: rejected_calls n e, S n).
Proof.
  intros Hen Horig. unfold patchedStreamAgentAnswerEvents.
  rewrite Hen, Horig. reflexivity.
Qed.

Lemma create_prelude_view config active args n :
  exists sd,
    fold_left (observe n) (create_start active args n :: create_prelude config args n) None
    = Some sd /\ pending_span sd.
Proof.
  unfold create_start, create_prelude.
  destruct (truthy_str (context_email args)) eqn:E1;
    destruct (r_captureMessageContent config && truthy_str (message_text args));
    try (destruct (context_email args) as [mail|]; [|discriminate]);
    simpl fold_left; observe_calls; simpl;
    (eexists; split; [reflexivity|]); split; reflexivity.
Qed.

Lemma error_calls_view n error sd :
  span_end_calls sd = 0 -> span_exceptions sd = [] ->
  exists sd', fold_left (observe n) (error_calls n error) (Some sd) = Some sd'
              /\ span_end_calls sd' = 1
              /\ fst (span_status sd') = ERROR
              /\ span_exceptions sd' = [].
Proof.
  intros H0 Hx. destruct sd as [nm kd pr attrs status excs ends]. simpl in *. subst.
  unfold error_calls. simpl fold_left. observe_calls. simpl.
  eexists; split; [reflexivity|]. simpl. auto.
Qed.

Lemma rejected_calls_view n e sd :
  span_end_calls sd = 0 -> span_exceptions sd = [] ->
  exists sd', fold_left (observe n) (rejected_calls n e) (Some sd) = Some sd'
              /\ span_end_calls sd' = 1
              /\ fst (span_status sd') = ERROR
              /\ span_exceptions sd' = [e].
Proof.
  intros H0 Hx. destruct sd as [nm kd pr attrs status excs ends]. simpl in *. subst.
  unfold rejected_calls. simpl fold_left. observe_calls. simpl.
  eexists; split; [reflexivity|]. simpl. auto.
Qed.

(** A record all of whose calls are on one span says nothing of the
    others. *)
Lemma view_of_other_span n l id :
  Forall (fun e => effect_span e = Some n) l -> id ≠ n -> span_view id l = None.
Proof.
  intros H Hne. unfold span_view. apply fold_foreign.
  eapply Forall_impl; [exact H|]. intros e He Heq. rewrite He in Heq. congruence.
Qed.

Lemma create_prelude_on_span config args n :
  Forall (fun e => effect_span e = Some n) (create_prelude config args n).
Proof.
  unfold create_prelude.
  destruct (truthy_str (context_email args)),
    (r_captureMessageContent config && truthy_str (message_text args));
    repeat constructor.
Qed.

Lemma settle_calls_on_span n r :
  Forall (fun e => effect_span e = Some n) (settle_calls n r).
Proof.
  destruct r as [[[value|]|error]|e]; simpl; repeat constructor.
  destruct (truthy_str (agent_message_sId <$> value_message value)); repeat constructor.
Qed.

Lemma create_record_on_span config active args n r :
  Forall (fun e => effect_span e = Some n)
    (create_start active args n :: create_prelude config args n ++ settle_calls n r).
Proof.
  constructor; [reflexivity|]. apply Forall_app. split.
  - apply create_prelude_on_span.
  - apply settle_calls_on_span.
Qed.

Lemma create_view config active args n r :
  exists sd,
    pending_span sd
    /\ span_view n (create_start active args n
                      :: create_prelude config args n ++ settle_calls n r)
       = fold_left (observe n) (settle_calls n r) (Some sd).
Proof.
  destruct (create_prelude_view config active args n) as (sd & Hsd & Hp).
  exists sd. split; [exact Hp|].
  unfold span_view.
  change (create_start active args n :: create_prelude config args n ++ settle_calls n r)
    with ((create_start active args n :: create_prelude config args n)
          ++ settle_calls n r).
  rewrite fold_left_app, Hsd. reflexivity.
Qed.

Lemma create_failure_ends config active args n r :
  match r with
  | Fulfilled (Err _) =>
      ends_in_error (create_start active args n
                       :: create_prelude config args n ++ settle_calls n r) n []
  | Rejected e =>
      ends_in_error (create_start active args n
                       :: create_prelude config args n ++ settle_calls n r) n [e]
  | Fulfilled (Ok _) => True
  end.
Proof.
  destruct (create_view config active args n r) as (sd & [H0 Hx _ _] & Hview).
  assert (Hother : forall id sd',
             span_view id (create_start active args n
                             :: create_prelude config args n ++ settle_calls n r) = Some sd' ->
             id = n).
  { intros id sd' Hv. destruct (decide (id = n)) as [|Hne]; [assumption|].
    rewrite (view_of_other_span n) in Hv; [discriminate | | exact Hne].
    apply create_record_on_span. }
  destruct r as [[v|error]|e]; [exact I | |].
  - destruct (error_calls_view n error sd H0 Hx) as (sd' & Hf & He & Hs & Hexc).
    simpl settle_calls in *. rewrite Hf in Hview. split.
    + exists sd'. auto.
    + intros id sd2 Hv. pose proof (Hother _ _ Hv) as ->. congruence.
  - destruct (rejected_calls_view n e sd H0 Hx) as (sd' & Hf & He & Hs & Hexc).
    simpl settle_calls in *. rewrite Hf in Hview. split.
    + exists sd'. auto.
    + intros id sd2 Hv. pose proof (Hother _ _ Hv) as ->. congruence.
Qed.

Lemma stream_failure_ends active args n (tail : list Effect) (thrown : list JsError) :
  Forall (fun e => effect_span e = Some n) tail ->
  (forall sd, span_end_calls sd = 0 -> span_exceptions sd = [] ->
     exists sd', fold_left (observe n) tail (Some sd) = Some sd'
                 /\ span_end_calls sd' = 1
                 /\ fst (span_status sd') = ERROR
                 /\ span_exceptions sd' = thrown) ->
  ends_in_error (stream_start active args n :: tail) n thrown.
Proof.
  intros Hon Htail.
  destruct (stream_start_open active args n) as (sd0 & Hs0 & [H0 Hx _] & _).
  destruct (Htail sd0 H0 Hx) as (sd' & Hf & He & Hs & Hexc).
  assert (Hview : span_view n (stream_start active args n :: tail) = Some sd').
  { unfold span_view. simpl fold_left. rewrite Hs0. exact Hf. }
  split.
  - exists sd'. auto.
  - intros id sd2 Hv. destruct (decide (id = n)) as [->|Hne]; [congruence|].
    rewrite (view_of_other_span n) in Hv; [discriminate | | exact Hne].
    constructor; [reflexivity | exact Hon].
Qed.

(** ** Failing outcomes *)

(** C3.  With the instrumentation enabled, however a patched call fails
    the span it opened is ended exactly once with error status and no span
    is left open: when the settled result is error-flagged (the result is
    returned as it is), when the promise rejects (the exception is recorded
    on the span and the caller gets the same rejection), and when the
    underlying event stream throws while it is iterated (every event it
    gave before has been yielded, the exception is recorded on the span and
    thrown on to the consumer). *)
Theorem failing_outcomes_end_span_once (baseConfig : DustInstrumentationConfig) :
  r_enabled (_getConfig baseConfig) = true ->
  (forall original active args n,
     let R := patchedCreateConversation baseConfig original active args n in
     outcome R = original args
     /\ match original args with
        | Fulfilled (Err _) => ends_in_error (effects R) n []
        | Rejected e => ends_in_error (effects R) n [e]
        | Fulfilled (Ok _) => True
        end)
  /\ (forall original active args n,
        let R := stream_and_consume baseConfig original active args n in
        match original args with
        | Fulfilled (Err error) =>
            outcome R = (Fulfilled (Err error), None)
            /\ ends_in_error (effects R) n []
        | Rejected e =>
            outcome R = (Rejected e, None)
            /\ ends_in_error (effects R) n [e]
        | Fulfilled (Ok value) =>
            forall e,
              ending (eventStream value) = StreamThrows e ->
              clean (events (eventStream value)) ->
              snd (outcome R) = Some (Threw e)
              /\ yielded (effects R) = events (eventStream value)
              /\ ends_in_error (effects R) n [e]
        end).
Proof.
  intros Hen. split.
  - intros original active args n R. subst R.
    rewrite (create_run _ _ _ _ _ Hen). unfold outcome, effects. simpl fst. simpl snd.
    split; [reflexivity|]. apply create_failure_ends.
  - intros original active args n R. subst R.
    destruct (original args) as [[value|error]|e] eqn:Horig.
    + intros e Hstop Hclean.
      destruct (session_clean _ _ active _ n _ Hen Horig Hclean)
        as (body & st_end & n_end & Hrun & Hy & Hb & _ & sd & Hsd & Hopen).
      rewrite Hrun, Hstop. unfold outcome, effects. simpl fst. simpl snd.
      split; [reflexivity|]. split.
      * simpl yielded. rewrite yielded_app, Hy. simpl. apply app_nil_r.
      * split.
        -- destruct (catch_calls_view n e sd Hopen) as (sd' & Hf & Hend & Hst & Hexc).
           exists sd'. split; [|rewrite Hst; auto].
           unfold span_view.
           change (stream_start active args n :: body ++ catch_calls n e)
             with ((stream_start active args n :: body) ++ catch_calls n e).
           rewrite fold_left_app, Hsd. exact Hf.
        -- exact (session_spans_closed active args (_getConfig baseConfig) n body n_end
                    (StreamThrows e) st_end Hb).
    + unfold stream_and_consume. run_tracer.
      rewrite (patched_stream_err _ _ _ _ _ _ Hen Horig). simpl.
      split; [reflexivity|].
      apply stream_failure_ends; [repeat constructor|].
      intros sd. apply error_calls_view.
    + unfold stream_and_consume. run_tracer.
      rewrite (patched_stream_rejected _ _ _ _ _ _ Hen Horig). simpl.
      split; [reflexivity|].
      apply stream_failure_ends; [repeat constructor|].
      intros sd. apply rejected_calls_view.
Qed.

Lemma failing_outcomes_witness :
  r_enabled (_getConfig default_config) = true
  /\ clean [tokens_event "Hi"]
  /\ let R := stream_and_consume default_config
                (streaming [tokens_event "Hi"] (StreamThrows network_error))
                None sample_stream_args 0 in
     snd (outcome R) = Some (Threw network_error)
     /\ yielded (effects R) = [tokens_event "Hi"]
     /\ ends_in_error (effects R) 0 [network_error].
Proof.
  split; [reflexivity|].
  split; [repeat constructor|].
  exact (proj2 (failing_outcomes_end_span_once default_config eq_refl)
           (streaming [tokens_event "Hi"] (StreamThrows network_error))
           None sample_stream_args 0 network_error eq_refl
           ltac:(repeat constructor)).
Defined.

(** ** Disabled mode *)

(** C2.  When the configuration has [enabled = false], each patched method
    returns what the original method returns for the same arguments and
    makes no call on the tracing API: no span is started and no attribute is
    set.  For the stream method that is, outcome by outcome: a result with
    the SDK's own generator as its stream, an error result with the same
    error, a rejection with the same thrown error.  Iterating the stream of
    the result gives its events and touches no span either. *)
Theorem disabled_is_passthrough (baseConfig : DustInstrumentationConfig) :
  enabled baseConfig = Some false ->
  (forall original active args n,
     patchedCreateConversation baseConfig original active args n
     = (original args, [], n))
  /\ (forall original active args n,
        patchedStreamAgentAnswerEvents baseConfig original active args n
        = (match original args with
           | Fulfilled (Ok value) =>
               Fulfilled (Ok {| eventStream := Raw (eventStream value) |})
           | Fulfilled (Err error) => Fulfilled (Err error)
           | Rejected e => Rejected e
           end, [], n))
  /\ (forall original active args n,
        (forall value, original args <> Fulfilled (Ok value)) ->
        let R := stream_and_consume baseConfig original active args n in
        snd (outcome R) = None /\ effects R = [])
  /\ (forall original active args n value,
        original args = Fulfilled (Ok value) ->
        let R := stream_and_consume baseConfig original active args n in
        outcome R = (Fulfilled (Ok {| eventStream := Raw (eventStream value) |}),
                     Some (completion_of (ending (eventStream value))))
        /\ yielded (effects R) = events (eventStream value)
        /\ started (effects R) = []
        /\ attribute_calls (effects R) = []).
Proof.
  intros Hoff.
  assert (Hen : r_enabled (_getConfig baseConfig) = false).
  { unfold _getConfig. simpl. rewrite Hoff. reflexivity. }
  split; [|split; [|split]].
  - intros. unfold patchedCreateConversation. rewrite Hen. reflexivity.
  - intros. unfold patchedStreamAgentAnswerEvents. rewrite Hen.
    destruct (original args) as [[value|error]|e]; reflexivity.
  - intros original active args n Hno R. subst R.
    unfold stream_and_consume, patchedStreamAgentAnswerEvents. rewrite Hen.
    destruct (original args) as [[value|error]|e]; [|split; reflexivity..].
    destruct (Hno value eq_refl).
  - intros original active args n value Horig R. subst R.
    unfold stream_and_consume, patchedStreamAgentAnswerEvents.
    rewrite Hen, Horig. run_tracer. simpl. rewrite app_nil_r.
    split; [destruct (ending (eventStream value)); reflexivity|].
    split; [apply yielded_map_Yield|].
    induction (events (eventStream value)) as [|e l [IH1 IH2]]; simpl; auto.
Qed.

Lemma disabled_is_passthrough_witness :
  enabled disabled_config = Some false
  /\ patchedStreamAgentAnswerEvents disabled_config
       (streaming [tokens_event "Hi"] EndOfStream) None sample_stream_args 0
     = (Fulfilled (Ok {| eventStream :=
                           Raw {| events := [tokens_event "Hi"];
                                  ending := EndOfStream |} |}), [], 0)
  /\ patchedStreamAgentAnswerEvents disabled_config
       (fun _ => Fulfilled (Err (Some {| api_error_type := Some "not_found";
                                         api_error_message := None |})))
       None sample_stream_args 0
     = (Fulfilled (Err (Some {| api_error_type := Some "not_found";
                                api_error_message := None |})), [], 0)
  /\ patchedStreamAgentAnswerEvents disabled_config
       (fun _ => Rejected network_error) None sample_stream_args 0
     = (Rejected network_error, [], 0).
Proof.
  split; [reflexivity|]. split; [|split].
  - exact (proj1 (proj2 (disabled_is_passthrough disabled_config eq_refl))
             (streaming [tokens_event "Hi"] EndOfStream) None sample_stream_args 0).
  - exact (proj1 (proj2 (disabled_is_passthrough disabled_config eq_refl))
             (fun _ => Fulfilled (Err (Some {| api_error_type := Some "not_found";
                                               api_error_message := None |})))
             None sample_stream_args 0).
  - exact (proj1 (proj2 (disabled_is_passthrough disabled_config eq_refl))
             (fun _ => Rejected network_error) None sample_stream_args 0).
Defined.

(** ** A successful [createConversation] *)

(** C4, as stated, fails: a result whose message carries the empty string
    as its id has the id present, and the response id attribute is not
    set. *)
Lemma response_id_present_but_not_set :
  let R := patchedCreateConversation default_config
             (fun _ => Fulfilled (Ok empty_message_id)) None sample_create_args 0 in
  (exists m, empty_message_id ≫= value_message = Some m)
  /\ span_attribute 0 SEMATTRS_GEN_AI_RESPONSE_ID (effects R) = None.
Proof.
  split; [eexists; reflexivity | vm_compute; reflexivity].
Qed.

(** C4, amended.  A successful [createConversation] call (enabled, result
    not error-flagged) returns the result as it is, starts exactly one span
    and ends it exactly once.  On that span the conversation id attribute is
    set exactly when the result's value carries a conversation, to its id;
    the response id attribute is set exactly when the value carries a
    message whose id is not the empty string, to that id. *)
Theorem create_success_span baseConfig original active args n (value : option CreateValue) :
  r_enabled (_getConfig baseConfig) = true ->
  original args = Fulfilled (Ok value) ->
  let R := patchedCreateConversation baseConfig original active args n in
  outcome R = Fulfilled (Ok value)
  /\ started (effects R) = [n]
  /\ (forall id sd, span_view id (effects R) = Some sd -> id = n)
  /\ exists sd,
       span_view n (effects R) = Some sd
       /\ span_end_calls sd = 1
       /\ span_attributes sd !! SEMATTRS_GEN_AI_CONVERSATION_ID
          = (fun c => AStr (conversation_sId c)) <$> (value ≫= value_conversation)
       /\ span_attributes sd !! SEMATTRS_GEN_AI_RESPONSE_ID
          = match value ≫= value_message with
            | Some m => if String.eqb (agent_message_sId m) "" then None
                        else Some (AStr (agent_message_sId m))
            | None => None
            end.
Proof.
  intros Hen Horig R. subst R.
  rewrite (create_run _ _ _ _ _ Hen), Horig. unfold outcome, effects. cbn [fst snd].
  split; [reflexivity|]. split; [|split].
  - simpl started. f_equal. rewrite started_app.
    replace (started (create_prelude (_getConfig baseConfig) args n)) with (@nil SpanId).
    + destruct value as [[conv msg]|]; simpl; [|reflexivity].
      destruct (truthy_str (agent_message_sId <$> msg)); reflexivity.
    + unfold create_prelude.
      destruct (truthy_str (context_email args)),
        (r_captureMessageContent (_getConfig baseConfig) && truthy_str (message_text args));
        reflexivity.
  - intros id sd Hv. destruct (decide (id = n)) as [|Hne]; [assumption|].
    rewrite (view_of_other_span n) in Hv; [discriminate | | exact Hne].
    apply create_record_on_span.
  - destruct (create_view (_getConfig baseConfig) active args n (Fulfilled (Ok value)))
      as (sd & [H0 Hx Hc Hr] & ->).
    destruct sd as [nm kd pr attrs status excs ends]. simpl in *. subst.
    destruct value as [[[conv|] [[sid mc]|]]|]; simpl;
      try destruct (String.eqb_spec sid ""); simpl;
      observe_calls; simpl;
      (eexists; split; [reflexivity|]); simpl;
      (split; [reflexivity|]);
      unfold_keys; split; simplify_map_eq; done.
Qed.

Lemma create_success_span_witness :
  r_enabled (_getConfig default_config) = true
  /\ started (effects (patchedCreateConversation default_config
                         (fun _ => Fulfilled (Ok empty_message_id)) None
                         sample_create_args 0)) = [0].
Proof.
  split; [reflexivity|].
  exact (proj1 (proj2 (create_success_span default_config
                         (fun _ => Fulfilled (Ok empty_message_id)) None
                         sample_create_args 0 empty_message_id eq_refl eq_refl))).
Defined.

(** ** Events that raise *)

(** Handling an event that raises: the tool span has been started, the
    TypeError leaves the block before it is ended. *)
Lemma on_event_raising config p event st n :
  raises event = true ->
  exists err a,
    action event = Some a
    /\ on_event config p event st n
       = (inl err, tool_start p n a :: captured config n a, S n).
Proof.
  intros Hr. unfold raises in Hr. apply andb_prop in Hr as [Hty Ha].
  unfold on_event.
  destruct (String.eqb_spec (event_type event) DUST_EVENT_AGENT_ACTION_SUCCESS)
    as [Heq|]; [|discriminate].
  rewrite Heq. unfold_event_types.
  assert (Hf : String.eqb "agent_action_success" "generation_tokens" = false)
    by reflexivity.
  rewrite Hf. cbv iota.
  destruct (action event) as [a|]; [|discriminate].
  apply negb_true_iff in Ha.
  destruct (scan_output_raises (output a) (retrievalDocuments st) Ha) as (err & Herr).
  exists err, a. split; [reflexivity|].
  rewrite on_action_run, Herr. reflexivity.
Qed.

(** Whatever the stream, the loop's calls are on the stream span or on
    spans drawn after the loop began. *)
Lemma for_await_scoped config p evs : forall stop st m,
  Forall (fun e => forall i, effect_span e = Some i -> i = p \/ m <= i)
    (effects (for_await config p evs stop st m)).
Proof.
  induction evs as [|event rest IH]; intros stop st m.
  - simpl. destruct stop as [|e].
    + run_tracer. rewrite on_exhausted_run. simpl. rewrite app_nil_r.
      eapply Forall_impl; [apply (closing_on_parent config p EndOfStream st)|].
      intros e He i Hi. left. congruence.
    + rewrite on_catch_run. simpl.
      eapply Forall_impl; [apply (closing_on_parent config p (StreamThrows e) st)|].
      intros e' He i Hi. left. congruence.
  - simpl. destruct (raises event) eqn:Hr.
    + destruct (on_event_raising config p event st m Hr) as (err & a & _ & Hrun).
      run_tracer. rewrite Hrun. simpl.
      constructor; [intros i [= <-]; right; lia|].
      apply Forall_app. split.
      * eapply Forall_impl; [apply captured_on_tool|].
        intros e (k & v & ->) i [= <-]. right. lia.
      * unfold catch_calls.
        repeat (apply List.Forall_cons; [intros i [= <-]; left; reflexivity|]).
        apply List.Forall_nil.
    + destruct (on_event_clean config p event st m Hr)
        as (st1 & l & m1 & Hrun & _ & Hbody & _).
      specialize (IH stop st1 m1). run_tracer. rewrite Hrun.
      destruct (for_await config p rest stop st1 m1) as [[c l2] m2]. simpl in *.
      apply Forall_app. split.
      * eapply Forall_impl; [apply (ck_scoped _ _ _ _ Hbody)|].
        intros e He i Hi. destruct (He i Hi); [left; assumption | right; lia].
      * constructor; [intros i Hi; discriminate|].
        eapply Forall_impl; [exact IH|].
        intros e He i Hi. pose proof (ck_mono _ _ _ _ Hbody).
        destruct (He i Hi); [left; assumption | right; lia].
Qed.


(** ** Tool-execution events *)

(** C5, as stated, fails: an action-success event without an [action] goes
    through the wrapper and no span is started for it. *)
Lemma action_event_without_child_span :
  let R := _wrapEventStream {| events := [actionless_event]; ending := EndOfStream |}
             0 (_getConfig default_config) 1 in
  event_type actionless_event = DUST_EVENT_AGENT_ACTION_SUCCESS
  /\ yielded (effects R) = [actionless_event]
  /\ started (effects R) = [].
Proof. vm_compute. repeat split; reflexivity. Qed.

(** C5, amended.  For an action-success event whose [action] is present
    and whose output is scanned without a TypeError, the wrapper starts
    exactly one span, a child of the stream span that carries the tool name
    and the call id, and ends it; all of that comes before the event is
    yielded and before any later event is handled, and nothing that follows
    touches that span again: at the end of the stream it is ended exactly
    once.  ([p < n]: the stream span was drawn before the loop began, as it
    is by [patchedStreamAgentAnswerEvents].) *)
Theorem tool_span_per_action config p event a rest stop st n :
  event_type event = DUST_EVENT_AGENT_ACTION_SUCCESS ->
  action event = Some a ->
  scans_cleanly (output a) = true ->
  p < n ->
  let block := tool_start p n a :: captured config n a ++ [EndSpan n] in
  exists st',
    on_event config p event st n = (inr st', block, S n)
    /\ effects (for_await config p (event :: rest) stop st n)
       = block ++ Yield event :: effects (for_await config p rest stop st' (S n))
    /\ started block = [n]
    /\ exists sd,
         span_view n (effects (for_await config p (event :: rest) stop st n)) = Some sd
         /\ tool_span p a sd.
Proof.
  intros Hty Ha Hscan Hp block.
  assert (Hrun : on_event config p event st n
                 = (inr (with_documents st (retrievalDocuments st ++ found_documents (output a))),
                    block, S n)).
  { unfold on_event. rewrite Hty, Ha. unfold_event_types.
    assert (Hf : String.eqb "agent_action_success" "generation_tokens" = false)
      by reflexivity.
    rewrite Hf, String.eqb_refl. cbv iota.
    rewrite on_action_run, (scan_output_clean _ _ Hscan). reflexivity. }
  eexists. split; [exact Hrun|].
  assert (Heff : effects (for_await config p (event :: rest) stop st n)
                 = block ++ Yield event
                     :: effects (for_await config p rest stop
                                   (with_documents st
                                      (retrievalDocuments st ++ found_documents (output a)))
                                   (S n))).
  { simpl for_await. run_tracer. rewrite Hrun.
    destruct (for_await config p rest stop _ (S n)) as [[c l] m]. reflexivity. }
  split; [exact Heff|]. split.
  - unfold block. simpl. rewrite started_app, captured_starts_none. reflexivity.
  - rewrite Heff. unfold span_view. rewrite fold_left_app.
    destruct (tool_block_view config p n a None) as (sd & Hsd & Htool).
    fold block in Hsd. rewrite Hsd. exists sd. split; [|exact Htool].
    apply fold_foreign. constructor; [discriminate|].
    eapply Forall_impl; [apply for_await_scoped|].
    intros e He Heq. destruct (He n Heq); lia.
Qed.

Lemma tool_span_per_action_witness :
  event_type (action_event (search_action None)) = DUST_EVENT_AGENT_ACTION_SUCCESS
  /\ action (action_event (search_action None)) = Some (search_action None)
  /\ scans_cleanly (output (search_action None)) = true
  /\ 0 < 1
  /\ exists st',
       on_event (_getConfig capturing_config) 0 (action_event (search_action None))
         initial_locals 1
       = (inr st',
          tool_start 0 1 (search_action None)
            :: captured (_getConfig capturing_config) 1 (search_action None) ++ [EndSpan 1],
          2).
Proof.
  split; [reflexivity|]. split; [reflexivity|]. split; [reflexivity|]. split; [lia|].
  destruct (tool_span_per_action (_getConfig capturing_config) 0
              (action_event (search_action None)) (search_action None)
              [] EndOfStream initial_locals 1 eq_refl eq_refl eq_refl ltac:(lia))
    as (st' & Hrun & _).
  exists st'. exact Hrun.
Defined.




(** ** Normal completion *)

(** The wrapper returns normally only when the underlying stream is
    exhausted and no event raised on the way. *)
Lemma for_await_returned config p evs : forall stop st n,
  outcome (for_await config p evs stop st n) = Returned ->
  stop = EndOfStream /\ clean evs.
Proof.
  induction evs as [|event rest IH]; intros stop st n Hret.
  - destruct stop as [|e]; [split; [reflexivity | constructor]|].
    rewrite (on_catch_run p e n : for_await config p [] (StreamThrows e) st n = _) in Hret.
    discriminate.
  - simpl for_await in Hret. destruct (raises event) eqn:Hr.
    + destruct (on_event_raising config p event st n Hr) as (err & a & _ & Hrun).
      run_tracer. rewrite Hrun in Hret. discriminate.
    + destruct (on_event_clean config p event st n Hr)
        as (st1 & l & n1 & Hrun & _ & _ & _).
      run_tracer. rewrite Hrun in Hret.
      destruct (for_await config p rest stop st1 n1) as [[c l2] n2] eqn:Hloop.
      simpl in Hret. subst c.
      destruct (IH stop st1 n1) as [Hstop Hclean]; [rewrite Hloop; reflexivity|].
      split; [exact Hstop | constructor; assumption].
Qed.

Lemma session_returned baseConfig original active args n value :
  r_enabled (_getConfig baseConfig) = true ->
  original args = Fulfilled (Ok value) ->
  snd (outcome (stream_and_consume baseConfig original active args n)) = Some Returned ->
  ending (eventStream value) = EndOfStream /\ clean (events (eventStream value)).
Proof.
  intros Hen Horig Hret.
  apply (for_await_returned (_getConfig baseConfig) n _ _ initial_locals (S n)).
  unfold stream_and_consume in Hret. run_tracer.
  rewrite (patched_stream_ok _ _ _ _ _ _ Hen Horig) in Hret.
  unfold iterate, _wrapEventStream in Hret. cbn [eventStream] in Hret.
  destruct (for_await (_getConfig baseConfig) n (events (eventStream value))
              (ending (eventStream value)) initial_locals (S n)) as [[c l] m].
  simpl in *. congruence.
Qed.

(** ** The token estimate *)

Lemma quarter_bounds (len : Z) :
  (0 <= len)%Z ->
  (0 <= inject_Z len / 4)%Q
  /\ (inject_Z len / 4 <= inject_Z ((len + 3) / 4))%Q
  /\ (inject_Z ((len + 3) / 4) <= inject_Z len / 4 + (3 # 4))%Q.
Proof.
  intros Hlen.
  pose proof (Z.div_mod (len + 3) 4 ltac:(lia)) as Hdiv.
  pose proof (Z.mod_pos_bound (len + 3) 4 ltac:(lia)) as Hmod.
  unfold Qle, Qdiv, Qmult, Qplus, Qinv, inject_Z. simpl.
  repeat split; lia.
Qed.

Lemma estimate_bounds (evs : list AgentEvent) :
  (0 <= fractional_estimate evs)%Q
  /\ (fractional_estimate evs <= inject_Z (ceiling_estimate evs))%Q
  /\ (inject_Z (ceiling_estimate evs)
      <= fractional_estimate evs + (3 # 4) * inject_Z (token_events evs))%Q.
Proof.
  induction evs as [|event rest (IH0 & IH1 & IH2)]; simpl.
  - unfold Qle; simpl; lia.
  - rewrite !inject_Z_plus.
    destruct (is_token_event event).
    + destruct (quarter_bounds (text_length event)) as (B0 & B1 & B2);
        [unfold text_length; lia|].
      repeat split.
      * apply Qle_trans with (0 + 0)%Q; [unfold Qle; simpl; lia|].
        apply Qplus_le_compat; assumption.
      * apply Qplus_le_compat; assumption.
      * apply Qle_trans
          with ((inject_Z (text_length event) / 4 + (3 # 4))
                + (fractional_estimate rest + (3 # 4) * inject_Z (token_events rest)))%Q.
        -- apply Qplus_le_compat; assumption.
        -- apply Qle_lteq. right. ring.
    + repeat split.
      * rewrite Qplus_0_l. exact IH0.
      * rewrite !Qplus_0_l. exact IH1.
      * rewrite !Qplus_0_l. exact IH2.
Qed.

(** ** The end of a stream that gave all its events *)

(** The record of a streamed call whose stream is exhausted, and the state
    of the stream span it leaves. *)
Lemma session_exhausted baseConfig original active args n value :
  r_enabled (_getConfig baseConfig) = true ->
  original args = Fulfilled (Ok value) ->
  snd (outcome (stream_and_consume baseConfig original active args n)) = Some Returned ->
  exists body st sd,
    effects (stream_and_consume baseConfig original active args n)
    = stream_start active args n
        :: body ++ final_attributes (_getConfig baseConfig) n st ++ [EndSpan n]
    /\ yielded body = events (eventStream value)
    /\ Forall (during_loop n) body
    /\ locals_spec (_getConfig baseConfig) (events (eventStream value)) initial_locals st
    /\ span_view n (effects (stream_and_consume baseConfig original active args n)) = Some sd
    /\ flushed (_getConfig baseConfig) st sd.
Proof.
  intros Hen Horig Hret.
  destruct (session_returned _ _ _ _ _ _ Hen Horig Hret) as [Hstop Hclean].
  destruct (session_clean _ _ active _ n _ Hen Horig Hclean)
    as (body & st & n_end & Hrun & Hy & Hb & Hl & sd1 & Hsd1 & Hopen).
  rewrite Hstop in Hrun. simpl closing in Hrun.
  destruct (final_calls_view (_getConfig baseConfig) n st sd1 Hopen)
    as (sd & Hsd & Hfl & _).
  exists body, st, sd. rewrite Hrun. unfold effects. cbn [fst snd].
  split; [reflexivity|]. split; [exact Hy|].
  split; [apply (ck_loop _ _ _ _ Hb); lia|]. split; [exact Hl|].
  split; [|exact Hfl].
  unfold span_view.
  change (stream_start active args n :: body ++ final_calls (_getConfig baseConfig) n st)
    with ((stream_start active args n :: body) ++ final_calls (_getConfig baseConfig) n st).
  rewrite fold_left_app, Hsd1. exact Hsd.
Qed.

(** C6.  After the wrapped stream has been consumed to its end, the
    output-token attribute of the stream span holds the sum, over the token
    events that carry text, of a quarter of the text length: this is the
    fractional accumulation the wrapper uses.  The attribute is written only
    when that sum is positive.  The sum of the rounded-up quotients is at
    least this value and exceeds it by at most three quarters per token
    event. *)
Theorem output_token_estimate baseConfig original active args n value :
  r_enabled (_getConfig baseConfig) = true ->
  original args = Fulfilled (Ok value) ->
  snd (outcome (stream_and_consume baseConfig original active args n)) = Some Returned ->
  let R := effects (stream_and_consume baseConfig original active args n) in
  let estimate := fractional_estimate (events (eventStream value)) in
  ((0 < estimate)%Q ->
     exists q, span_attribute n SEMATTRS_GEN_AI_USAGE_OUTPUT_TOKENS R = Some (ANum q)
               /\ q == estimate)
  /\ (estimate == 0 -> span_attribute n SEMATTRS_GEN_AI_USAGE_OUTPUT_TOKENS R = None)
  /\ (estimate <= inject_Z (ceiling_estimate (events (eventStream value))))%Q
  /\ (inject_Z (ceiling_estimate (events (eventStream value)))
      <= estimate + (3 # 4) * inject_Z (token_events (events (eventStream value))))%Q.
Proof.
  intros Hen Horig Hret R estimate.
  destruct (session_exhausted _ _ active _ n _ Hen Horig Hret)
    as (body & st & sd & _ & _ & _ & Hl & Hview & Hfl).
  assert (Hq : outputTokens st == estimate).
  { rewrite (ls_tokens _ _ _ _ Hl). simpl. apply Qplus_0_l. }
  assert (Hattr : span_attribute n SEMATTRS_GEN_AI_USAGE_OUTPUT_TOKENS R
                  = if negb (Qle_bool (outputTokens st) 0)
                    then Some (ANum (outputTokens st)) else None).
  { unfold span_attribute, R. rewrite Hview. simpl. apply (fl_tokens _ _ _ Hfl). }
  destruct (estimate_bounds (events (eventStream value))) as (_ & B1 & B2).
  split; [|split; [|split; [exact B1 | exact B2]]].
  - intros Hpos. exists (outputTokens st). split; [|exact Hq].
    rewrite Hattr.
    destruct (Qle_bool (outputTokens st) 0) eqn:Hle; [|reflexivity].
    apply Qle_bool_iff in Hle. rewrite Hq in Hle.
    exfalso. exact (Qlt_not_le _ _ Hpos Hle).
  - intros Hzero. rewrite Hattr.
    destruct (Qle_bool (outputTokens st) 0) eqn:Hle; [reflexivity|].
    exfalso. apply not_true_iff_false in Hle. apply Hle.
    apply Qle_bool_iff. rewrite Hq, Hzero. apply Qle_refl.
Qed.

Lemma output_token_estimate_witness :
  r_enabled (_getConfig default_config) = true
  /\ snd (outcome (stream_and_consume default_config
                     (streaming [tokens_event "Hello"; tokens_event " world"] EndOfStream)
                     None sample_stream_args 0)) = Some Returned
  /\ exists q,
       span_attribute 0 SEMATTRS_GEN_AI_USAGE_OUTPUT_TOKENS
         (effects (stream_and_consume default_config
                     (streaming [tokens_event "Hello"; tokens_event " world"] EndOfStream)
                     None sample_stream_args 0))
       = Some (ANum q)
       /\ q == 11 # 4.
Proof.
  split; [reflexivity|]. split; [reflexivity|].
  destruct (proj1 (output_token_estimate default_config
                     (streaming [tokens_event "Hello"; tokens_event " world"] EndOfStream)
                     None sample_stream_args 0 _ eq_refl eq_refl eq_refl)
            ltac:(reflexivity))
    as (q & Hq & Heq).
  exists q. split; [exact Hq|]. rewrite Heq. reflexivity.
Defined.

(** C8, as stated, fails: a stream that gives one message-success event
    and ends is exhausted without an exception, and neither an output-token
    count nor a retrieval-document list is written on the stream span,
    which is ended all the same. *)
Lemma exhausted_without_tokens_or_documents :
  let R := stream_and_consume default_config
             (streaming [bare_event DUST_EVENT_AGENT_MESSAGE_SUCCESS] EndOfStream)
             None sample_stream_args 0 in
  snd (outcome R) = Some Returned
  /\ span_attribute 0 SEMATTRS_GEN_AI_USAGE_OUTPUT_TOKENS (effects R) = None
  /\ span_attribute 0 SEMATTRS_GEN_AI_RETRIEVAL_DOCUMENTS (effects R) = None
  /\ (span_end_calls <$> span_view 0 (effects R)) = Some 1.
Proof. vm_compute. repeat split; reflexivity. Qed.

(** C8, amended.  When the underlying stream is exhausted without an
    exception, what follows the last yield is, in this order and each only
    when there is something to record: the output-messages attribute, when
    content capture is on and text was buffered; the output-token count,
    when it is positive; the finish reason, when one was marked; the
    retrieval documents, when some were gathered; and then, always, the end
    of the stream span.  The values are the buffered text, the fractional
    token sum, the last finish reason and the batch of documents; none of
    these attributes is written earlier, and the span, ended once, holds
    them. *)
Theorem exhaustion_flushes_then_ends baseConfig original active args n value :
  r_enabled (_getConfig baseConfig) = true ->
  original args = Fulfilled (Ok value) ->
  snd (outcome (stream_and_consume baseConfig original active args n)) = Some Returned ->
  let config := _getConfig baseConfig in
  let evs := events (eventStream value) in
  let R := effects (stream_and_consume baseConfig original active args n) in
  exists body st sd,
    R = stream_start active args n :: body ++ final_attributes config n st ++ [EndSpan n]
    /\ yielded body = evs
    /\ Forall (during_loop n) body
    /\ outputContent st = generated_text config evs
    /\ outputTokens st == fractional_estimate evs
    /\ finishReason st = last_finish evs None
    /\ retrievalDocuments st = collected_documents evs
    /\ span_view n R = Some sd
    /\ flushed config st sd
    /\ (r_captureMessageContent config = false ->
        span_attributes sd !! SEMATTRS_GEN_AI_OUTPUT_MESSAGES = None).
Proof.
  intros Hen Horig Hret config evs R.
  destruct (session_exhausted _ _ active _ n _ Hen Horig Hret)
    as (body & st & sd & HR & Hy & Hloop & [T C F D] & Hview & Hfl).
  exists body, st, sd. simpl in T, C, D.
  split; [exact HR|]. split; [exact Hy|]. split; [exact Hloop|].
  split; [exact C|]. split; [rewrite T; apply Qplus_0_l|].
  split; [exact F|]. split; [exact D|]. split; [exact Hview|]. split; [exact Hfl|].
  intros Hoff. rewrite (fl_content _ _ _ Hfl). fold config. rewrite Hoff. reflexivity.
Qed.

Lemma exhaustion_flushes_then_ends_witness :
  r_enabled (_getConfig capturing_config) = true
  /\ snd (outcome (stream_and_consume capturing_config
                     (streaming [tokens_event "Hello";
                                 bare_event DUST_EVENT_AGENT_MESSAGE_SUCCESS] EndOfStream)
                     None sample_stream_args 0)) = Some Returned
  /\ exists body st,
       effects (stream_and_consume capturing_config
                  (streaming [tokens_event "Hello";
                              bare_event DUST_EVENT_AGENT_MESSAGE_SUCCESS] EndOfStream)
                  None sample_stream_args 0)
       = stream_start None sample_stream_args 0
           :: body ++ final_attributes (_getConfig capturing_config) 0 st ++ [EndSpan 0]
       /\ outputContent st = "Hello"
       /\ finishReason st = Some "stop".
Proof.
  split; [reflexivity|]. split; [reflexivity|].
  destruct (exhaustion_flushes_then_ends capturing_config
              (streaming [tokens_event "Hello";
                          bare_event DUST_EVENT_AGENT_MESSAGE_SUCCESS] EndOfStream)
              None sample_stream_args 0 _ eq_refl eq_refl eq_refl)
    as (body & st & sd & HR & _ & _ & Hc & _ & Hf & _).
  exists body, st. split; [exact HR|]. split; [exact Hc | exact Hf].
Defined.

(** ** The finish reason *)

Lemma last_finish_unchanged evs : forall seen,
  Forall (fun e => finishing e = false) evs -> last_finish evs seen = seen.
Proof.
  induction evs as [|event rest IH]; intros seen H; [reflexivity|].
  inversion H as [|? ? He Hrest]; subst. simpl.
  unfold finishing in He. apply orb_false_elim in He as [-> ->]. auto.
Qed.

Lemma last_finish_decided pre event post : forall seen,
  Forall (fun e => finishing e = false) post ->
  finishing event = true ->
  last_finish (pre ++ event :: post) seen
  = Some (if is_message_success event then "stop" else "error").
Proof.
  induction pre as [|e pre IH]; intros seen Hpost He.
  - simpl. rewrite last_finish_unchanged by assumption.
    unfold finishing in He. destruct (is_message_success event); [reflexivity|].
    simpl in He. rewrite He. reflexivity.
  - simpl. auto.
Qed.

Lemma error_event_not_success event :
  is_error_event event = true -> is_message_success event = false.
Proof.
  unfold is_error_event, is_message_success. intros H.
  destruct (String.eqb_spec (event_type event) DUST_EVENT_AGENT_MESSAGE_SUCCESS)
    as [Heq|]; [|reflexivity].
  rewrite Heq in H. vm_compute in H. discriminate.
Qed.

(** C10.  On normal exhaustion of the stream, the finish-reasons attribute
    of the stream span is the one-element list ["stop"] when the last
    message-success or error event of the sequence is a message-success
    event, the one-element list ["error"] when it is an agent-level or
    user-message-level error event, and is absent when the sequence has no
    such event. *)
Theorem finish_reason_attribute baseConfig original active args n value :
  r_enabled (_getConfig baseConfig) = true ->
  original args = Fulfilled (Ok value) ->
  snd (outcome (stream_and_consume baseConfig original active args n)) = Some Returned ->
  let R := effects (stream_and_consume baseConfig original active args n) in
  let attr := span_attribute n SEMATTRS_GEN_AI_RESPONSE_FINISH_REASONS R in
  (forall pre event post,
     events (eventStream value) = pre ++ event :: post ->
     Forall (fun e => finishing e = false) post ->
     (is_message_success event = true -> attr = Some (AStrings ["stop"]))
     /\ (is_error_event event = true -> attr = Some (AStrings ["error"])))
  /\ (Forall (fun e => finishing e = false) (events (eventStream value)) -> attr = None).
Proof.
  intros Hen Horig Hret R attr.
  destruct (session_exhausted _ _ active _ n _ Hen Horig Hret)
    as (body & st & sd & _ & _ & _ & Hl & Hview & Hfl).
  assert (Hattr : attr = if truthy_str (last_finish (events (eventStream value)) None)
                         then Some (AStrings [default "" (last_finish
                                                 (events (eventStream value)) None)])
                         else None).
  { unfold attr, span_attribute, R. rewrite Hview. simpl.
    rewrite (fl_finish _ _ _ Hfl), (ls_finish _ _ _ _ Hl). reflexivity. }
  split.
  - intros pre event post Hsplit Hpost. split; intros Hev.
    + rewrite Hattr, Hsplit, (last_finish_decided pre event post None Hpost).
      * rewrite Hev. reflexivity.
      * unfold finishing. rewrite Hev. reflexivity.
    + rewrite Hattr, Hsplit, (last_finish_decided pre event post None Hpost).
      * rewrite (error_event_not_success _ Hev). reflexivity.
      * unfold finishing. rewrite Hev. apply orb_true_r.
  - intros Hnone. rewrite Hattr, (last_finish_unchanged _ None Hnone). reflexivity.
Qed.

Lemma finish_reason_attribute_witness :
  r_enabled (_getConfig default_config) = true
  /\ snd (outcome (stream_and_consume default_config
                     (streaming [bare_event DUST_EVENT_AGENT_ERROR; tokens_event "ok";
                                 bare_event DUST_EVENT_AGENT_MESSAGE_SUCCESS;
                                 tokens_event "."] EndOfStream)
                     None sample_stream_args 0)) = Some Returned
  /\ span_attribute 0 SEMATTRS_GEN_AI_RESPONSE_FINISH_REASONS
       (effects (stream_and_consume default_config
                   (streaming [bare_event DUST_EVENT_AGENT_ERROR; tokens_event "ok";
                               bare_event DUST_EVENT_AGENT_MESSAGE_SUCCESS;
                               tokens_event "."] EndOfStream)
                   None sample_stream_args 0))
     = Some (AStrings ["stop"]).
Proof.
  split; [reflexivity|]. split; [reflexivity|].
  exact (proj1 (proj1 (finish_reason_attribute default_config
                         (streaming [bare_event DUST_EVENT_AGENT_ERROR; tokens_event "ok";
                                     bare_event DUST_EVENT_AGENT_MESSAGE_SUCCESS;
                                     tokens_event "."] EndOfStream)
                         None sample_stream_args 0 _ eq_refl eq_refl eq_refl)
                  [bare_event DUST_EVENT_AGENT_ERROR; tokens_event "ok"]
                  (bare_event DUST_EVENT_AGENT_MESSAGE_SUCCESS)
                  [tokens_event "."] eq_refl ltac:(repeat constructor))
           eq_refl).
Defined.

(** ** Content capture switched off *)

Lemma attribute_calls_app (l1 l2 : list Effect) :
  attribute_calls (l1 ++ l2) = attribute_calls l1 ++ attribute_calls l2.
Proof.
  induction l1 as [|e l1 IH]; [reflexivity|].
  destruct e; simpl; rewrite IH; try reflexivity. apply app_assoc.
Qed.

Lemma no_content_app l1 l2 : no_content l1 -> no_content l2 -> no_content (l1 ++ l2).
Proof.
  unfold no_content. intros H1 H2. rewrite attribute_calls_app.
  apply Forall_app. split; assumption.
Qed.

Lemma no_content_parent p l : Forall (on_parent p) l -> no_content l.
Proof.
  unfold no_content. intros H.
  induction H as [|e l He _ IH]; [constructor|].
  destruct e; simpl in *; try contradiction; [|exact IH].
  constructor; [apply He | exact IH].
Qed.

Lemma no_content_tool_start p n a : no_content [tool_start p n a].
Proof. unfold no_content. simpl. repeat constructor; simpl; compute_done. Qed.

Lemma no_content_captured config n a :
  r_captureMessageContent config = false -> no_content (captured config n a).
Proof. intros H. unfold captured. rewrite H. constructor. Qed.

Lemma no_content_closing config p stop st :
  r_captureMessageContent config = false -> no_content (closing config p stop st).
Proof.
  intros H. destruct stop as [|e]; [|constructor].
  unfold closing, final_calls, final_attributes, no_content. rewrite H. simpl.
  destruct (negb (Qle_bool (outputTokens st) 0)), (truthy_str (finishReason st)),
    (negb (Nat.eqb (length (retrievalDocuments st)) 0));
    simpl; repeat constructor; simpl; compute_done.
Qed.

Lemma no_content_on_event config p event st n :
  r_captureMessageContent config = false ->
  no_content (effects (on_event config p event st n)).
Proof.
  intros Hoff. destruct (raises event) eqn:Hr.
  - destruct (on_event_raising config p event st n Hr) as (err & a & _ & ->).
    unfold effects. cbn [fst snd].
    apply (no_content_app [tool_start p n a]);
      [apply no_content_tool_start | apply no_content_captured, Hoff].
  - unfold on_event.
    destruct (String.eqb (event_type event) DUST_EVENT_GENERATION_TOKENS);
      [constructor|].
    destruct (String.eqb (event_type event) DUST_EVENT_AGENT_ACTION_SUCCESS) eqn:Hact.
    + destruct (action event) as [a|] eqn:Ha; [|constructor].
      rewrite on_action_run.
      unfold raises in Hr. rewrite Hact, Ha in Hr. simpl in Hr.
      apply negb_false_iff in Hr.
      rewrite (scan_output_clean _ _ Hr). unfold effects. cbn [fst snd].
      apply (no_content_app [tool_start p n a]); [apply no_content_tool_start|].
      apply no_content_app; [apply no_content_captured, Hoff | constructor].
    + destruct (String.eqb (event_type event) DUST_EVENT_AGENT_MESSAGE_SUCCESS).
      * destruct (on_message_success_run p event st n) as (l & Hrun & Hl).
        run_tracer. rewrite Hrun. simpl. rewrite app_nil_r.
        eapply no_content_parent. exact Hl.
      * destruct (String.eqb (event_type event) DUST_EVENT_AGENT_ERROR
                  || String.eqb (event_type event) DUST_EVENT_USER_MESSAGE_ERROR);
          [|constructor].
        destruct (on_error_event_run p event st n) as (l & Hrun & Hl).
        run_tracer. rewrite Hrun. simpl. rewrite app_nil_r.
        eapply no_content_parent. exact Hl.
Qed.

(** With content capture off, whatever the stream, the wrapper never
    writes the input-messages, output-messages, tool-arguments or
    tool-result attribute. *)
Lemma no_content_for_await config p evs : forall stop st n,
  r_captureMessageContent config = false ->
  no_content (effects (for_await config p evs stop st n)).
Proof.
  induction evs as [|event rest IH]; intros stop st n Hoff.
  - simpl. destruct stop as [|e].
    + run_tracer. rewrite on_exhausted_run. simpl. rewrite app_nil_r.
      apply (no_content_closing config p EndOfStream st Hoff).
    + constructor.
  - pose proof (no_content_on_event config p event st n Hoff) as Hev.
    simpl for_await. run_tracer.
    destruct (on_event config p event st n) as [[[err|st1] l] n1]; simpl in *.
    + apply no_content_app; [exact Hev | constructor].
    + specialize (IH stop st1 n1 Hoff).
      destruct (for_await config p rest stop st1 n1) as [[c l2] n2]. simpl in *.
      apply no_content_app; [exact Hev | exact IH].
Qed.

(** The same for a whole streamed call and for [createConversation]. *)
Lemma capture_off_no_content_attribute baseConfig :
  r_captureMessageContent (_getConfig baseConfig) = false ->
  (forall original active args n,
     no_content (effects (patchedCreateConversation baseConfig original active args n)))
  /\ (forall original active args n,
        no_content (effects (stream_and_consume baseConfig original active args n))).
Proof.
  intros Hoff. split; intros original active args n.
  - unfold patchedCreateConversation.
    destruct (r_enabled (_getConfig baseConfig)) eqn:Hen; [|constructor].
    pose proof (create_run baseConfig original active args n Hen) as Hrun.
    unfold patchedCreateConversation in Hrun. rewrite Hen in Hrun.
    simpl negb in *. cbv iota in *. rewrite Hrun. unfold effects. cbn [fst snd].
    unfold create_start, create_prelude, no_content. rewrite Hoff. simpl.
    repeat (constructor; [simpl; compute_done|]).
    rewrite attribute_calls_app. apply Forall_app. split.
    + destruct (truthy_str (context_email args)); simpl;
        repeat constructor; simpl; compute_done.
    + destruct (original args) as [[[v|]|error]|e]; simpl;
        try destruct (truthy_str (agent_message_sId <$> value_message v)); simpl;
        repeat constructor; simpl; compute_done.
  - unfold stream_and_consume, patchedStreamAgentAnswerEvents.
    destruct (r_enabled (_getConfig baseConfig)) eqn:Hen; simpl negb; cbv iota.
    + destruct (original args) as [[value|error]|e]; run_tracer; simpl.
      * pose proof (no_content_for_await (_getConfig baseConfig) n
                      (events (eventStream value)) (ending (eventStream value))
                      initial_locals (S n) Hoff) as Hloop.
        unfold _wrapEventStream.
        destruct (for_await _ n _ _ initial_locals (S n)) as [[c l] m]. simpl in *.
        rewrite app_nil_r. unfold no_content in *. simpl.
        repeat (constructor; [simpl; compute_done|]). exact Hloop.
      * unfold no_content. simpl. repeat constructor; simpl; compute_done.
      * unfold no_content. simpl. repeat constructor; simpl; compute_done.
    + destruct (original args) as [[value|error]|e]; run_tracer; simpl;
        try constructor.
      rewrite app_nil_r. unfold no_content.
      induction (events (eventStream value)); simpl; [constructor | assumption].
Qed.

(** ** What the consumer receives *)

(** The wrapper yields the events of the underlying stream, unchanged and
    in order, up to the first one whose handling raises. *)
Lemma for_await_yields config p evs : forall stop st n,
  yielded (effects (for_await config p evs stop st n)) = passing evs.
Proof.
  induction evs as [|event rest IH]; intros stop st n.
  - simpl. destruct stop as [|e]; [|reflexivity].
    run_tracer. rewrite on_exhausted_run. simpl. rewrite app_nil_r.
    apply (closing_silent config p EndOfStream st).
  - simpl. destruct (raises event) eqn:Hr.
    + destruct (on_event_raising config p event st n Hr) as (err & a & _ & Hrun).
      run_tracer. rewrite Hrun. simpl.
      rewrite yielded_app, captured_silent. reflexivity.
    + destruct (on_event_clean config p event st n Hr)
        as (st1 & l & n1 & Hrun & Hsilent & _ & _).
      specialize (IH stop st1 n1). run_tracer. rewrite Hrun.
      destruct (for_await config p rest stop st1 n1) as [[c l2] n2]. simpl in *.
      rewrite yielded_app, Hsilent. simpl. rewrite IH. reflexivity.
Qed.

Lemma passing_clean evs : clean evs -> passing evs = evs.
Proof.
  intros H. induction H as [|event rest He _ IH]; [reflexivity|].
  simpl. rewrite He, IH. reflexivity.
Qed.

(** A stream none of whose events raises comes out as it went in. *)
Lemma clean_stream_passes_through baseConfig original active args n value :
  r_enabled (_getConfig baseConfig) = true ->
  original args = Fulfilled (Ok value) ->
  clean (events (eventStream value)) ->
  let R := stream_and_consume baseConfig original active args n in
  yielded (effects R) = events (eventStream value)
  /\ snd (outcome R) = Some (completion_of (ending (eventStream value))).
Proof.
  intros Hen Horig Hclean R. subst R.
  destruct (session_clean _ _ active _ n _ Hen Horig Hclean)
    as (body & st_end & n_end & Hrun & Hy & _).
  rewrite Hrun. unfold effects, outcome. cbn [fst snd]. split; [|reflexivity].
  simpl yielded. rewrite yielded_app, Hy, closing_silent. apply app_nil_r.
Qed.

(** C1, at an input on which the code departs from it.  The second event
    is an action-success event whose output array holds [null].  Reading
    [item.type] raises a TypeError inside the [try]: the consumer gets the
    first event and then that exception, the second and third events never
    reach it, the stream span is ended by the [catch] block and the tool
    span that had been started stays open. *)
Theorem null_output_item_cuts_stream :
  let R := stream_and_consume default_config (streaming null_item_stream EndOfStream)
             None sample_stream_args 0 in
  yielded (effects R) = [tokens_event "Hi"]
  /\ yielded (effects R) <> null_item_stream
  /\ snd (outcome R)
     = Some (Threw (mkError "TypeError" "Cannot read properties of null (reading 'type')"))
  /\ started (effects R) = [0; 1]
  /\ (span_end_calls <$> span_view 0 (effects R)) = Some 1
  /\ (span_end_calls <$> span_view 1 (effects R)) = Some 0.
Proof.
  vm_compute. repeat split; try reflexivity. discriminate.
Qed.

(** C7, at an input on which the code departs from it.  Content capture is
    off.  The tool's result is an array with one resource item; the wrapper
    gathers the item and, at the end of the stream, writes it, serialized,
    as the retrieval-documents attribute of the stream span: a tool result
    in a span attribute.  The tool-result attribute itself is not
    written. *)
Theorem tool_result_recorded_with_capture_off :
  let R := effects (stream_and_consume default_config
                      (streaming resource_stream EndOfStream) None sample_stream_args 0) in
  r_captureMessageContent (_getConfig default_config) = false
  /\ output (search_action (Some (JArr [resource_item]))) = Some (JArr [resource_item])
  /\ span_attribute 0 SEMATTRS_GEN_AI_RETRIEVAL_DOCUMENTS R
     = Some (AJson (JArr [resource_item]))
  /\ span_attribute 1 SEMATTRS_GEN_AI_TOOL_CALL_RESULT R = None.
Proof.
  vm_compute. repeat split; reflexivity.
Qed.

(** ** What a record says of one span *)

Lemma writes_app p l1 l2 : writes p (l1 ++ l2) = writes p l1 ++ writes p l2.
Proof.
  induction l1 as [|e l1 IH]; [reflexivity|].
  destruct e as [| id k [v|] | | | |]; simpl; try exact IH.
  destruct (Nat.eqb id p); simpl; rewrite IH; reflexivity.
Qed.

Lemma statuses_app p l1 l2 : statuses p (l1 ++ l2) = statuses p l1 ++ statuses p l2.
Proof.
  induction l1 as [|e l1 IH]; [reflexivity|].
  destruct e as [| | id c m | | |]; simpl; try exact IH.
  destruct (Nat.eqb id p); simpl; rewrite IH; reflexivity.
Qed.

Lemma thrown_app p l1 l2 : thrown p (l1 ++ l2) = thrown p l1 ++ thrown p l2.
Proof.
  induction l1 as [|e l1 IH]; [reflexivity|].
  destruct e as [| | | id x | |]; simpl; try exact IH.
  destruct (Nat.eqb id p); simpl; rewrite IH; reflexivity.
Qed.

Lemma starts_app l1 l2 : starts (l1 ++ l2) = starts l1 ++ starts l2.
Proof.
  induction l1 as [|e l1 IH]; [reflexivity|].
  destruct e; simpl; rewrite IH; reflexivity.
Qed.

Lemma keeps_alive_app p l1 l2 :
  keeps_alive p l1 -> keeps_alive p l2 -> keeps_alive p (l1 ++ l2).
Proof. intros H1 H2. apply Forall_app. split; assumption. Qed.

Lemma last_write_app k ws1 ws2 seen :
  last_write k (ws1 ++ ws2) seen = last_write k ws2 (last_write k ws1 seen).
Proof. unfold last_write. apply fold_left_app. Qed.

Lemma last_write_absent k ws : forall seen,
  Forall (fun kv => fst kv ≠ k) ws -> last_write k ws seen = seen.
Proof.
  induction ws as [|[k' v] ws IH]; intros seen H; [reflexivity|].
  inversion H as [|? ? Hk Hrest]; subst. unfold last_write. simpl.
  destruct (String.eqb_spec k' k) as [Heq|_]; [contradiction|].
  apply IH. exact Hrest.
Qed.

Lemma last_status_app ss1 ss2 seen :
  last_status (ss1 ++ ss2) seen = last_status ss2 (last_status ss1 seen).
Proof. unfold last_status. apply fold_left_app. Qed.

Lemma carried_none p l sd :
  writes p l = [] -> statuses p l = [] -> thrown p l = [] -> carried p l sd sd.
Proof.
  intros Hw Hs Hx. split; try reflexivity.
  - intros k. rewrite Hw. reflexivity.
  - rewrite Hs. reflexivity.
  - rewrite Hx, app_nil_r. reflexivity.
Qed.

Lemma carried_refl p sd : carried p [] sd sd.
Proof. apply carried_none; reflexivity. Qed.

(** A record made of calls on other spans carries nothing to span [p]. *)
Lemma elsewhere p n l :
  Forall (fun e => effect_span e = Some n) l -> n ≠ p ->
  writes p l = [] /\ statuses p l = [] /\ thrown p l = [] /\ keeps_alive p l.
Proof.
  intros H Hne.
  assert (Hb : Nat.eqb n p = false) by (apply Nat.eqb_neq; exact Hne).
  induction H as [|e l He _ (IH1 & IH2 & IH3 & IH4)].
  - repeat split; constructor.
  - destruct e as [id ? ? ? ?| id k [v|] | id c m | id x | id | ev];
      simpl in He; try discriminate; inversion He; subst; simpl; rewrite ?Hb;
      (split; [exact IH1 | split; [exact IH2 | split; [exact IH3|]]]);
      (constructor; [first [exact Hne | exact I] | exact IH4]).
Qed.

(** The state of a live span after one more stretch of record. *)
Lemma view_live p l : forall sd,
  keeps_alive p l -> span_end_calls sd = 0 ->
  exists sd', fold_left (observe p) l (Some sd) = Some sd' /\ carried p l sd sd'.
Proof.
  induction l as [|e l IH]; intros sd Hl H0.
  - exists sd. split; [reflexivity | apply carried_refl].
  - inversion Hl as [|? ? He Hrest]; subst.
    assert (Hstep : exists sd1,
               observe p (Some sd) e = Some sd1 /\ carried p [e] sd sd1).
    { unfold observe. case_bool_decide as Hid.
      - destruct e as [id ? ? ? ?| id k [v|] | id c m | id x | id | ev];
          simpl in Hid; try discriminate; inversion Hid; subst;
          try (exfalso; apply He; reflexivity).
        + simpl. unfold put_attribute, is_ended. rewrite H0. simpl.
          eexists. split; [reflexivity|].
          split; simpl; rewrite ?Nat.eqb_refl; simpl; rewrite ?app_nil_r;
            try reflexivity; try congruence.
          intros k0. unfold last_write. simpl.
          destruct (String.eqb_spec k k0) as [->|Hne].
          * apply lookup_insert_eq.
          * apply lookup_insert_ne. exact Hne.
        + exists sd. split; [reflexivity | apply carried_none; reflexivity].
        + simpl. unfold put_status, is_ended. rewrite H0. simpl.
          eexists. split; [reflexivity|].
          split; simpl; rewrite ?Nat.eqb_refl; simpl; rewrite ?app_nil_r;
            first [reflexivity | congruence].
        + simpl. unfold put_exception, is_ended. rewrite H0. simpl.
          eexists. split; [reflexivity|].
          split; simpl; rewrite ?Nat.eqb_refl; simpl; rewrite ?app_nil_r;
            first [reflexivity | congruence].
      - exists sd. split; [reflexivity|].
        assert (Hb : forall id, effect_span e = Some id -> Nat.eqb id p = false).
        { intros id Hs. apply Nat.eqb_neq. intros ->. contradiction. }
        destruct e as [id ? ? ? ?| id k [v|] | id c m | id x | id | ev]; simpl;
          apply carried_none; simpl; rewrite ?(Hb id eq_refl); reflexivity. }
    destruct Hstep as (sd1 & Hobs & [N1 K1 P1 E1 A1 S1 X1]).
    destruct (IH sd1 Hrest ltac:(congruence)) as (sd' & Hfold & [N2 K2 P2 E2 A2 S2 X2]).
    exists sd'. simpl fold_left. rewrite Hobs. split; [exact Hfold|].
    change (e :: l) with ([e] ++ l).
    split; try congruence.
    + intros k. rewrite writes_app, last_write_app, A2, A1. reflexivity.
    + rewrite statuses_app, last_status_app, S2, S1. reflexivity.
    + rewrite thrown_app, X2, X1, app_assoc. reflexivity.
Qed.

(** The state of a span from its start through a stretch that keeps it
    alive, and once it has then been ended. *)
Lemma view_from_start p name kind attributes parent front :
  keeps_alive p front ->
  exists sd,
    span_view p (StartSpan p name kind attributes parent :: front) = Some sd
    /\ carried p front (new_span name kind attributes parent) sd.
Proof.
  intros Hf. unfold span_view. simpl fold_left. rewrite observe_start.
  apply view_live; [exact Hf | reflexivity].
Qed.

Lemma view_ended p name kind attributes parent front :
  keeps_alive p front ->
  exists sd,
    span_view p (StartSpan p name kind attributes parent :: front ++ [EndSpan p])
    = Some (put_end sd)
    /\ carried p front (new_span name kind attributes parent) sd.
Proof.
  intros Hf. destruct (view_from_start p name kind attributes parent front Hf)
    as (sd & Hv & Hc).
  exists sd. split; [|exact Hc].
  unfold span_view in *.
  change (StartSpan p name kind attributes parent :: front ++ [EndSpan p])
    with ((StartSpan p name kind attributes parent :: front) ++ [EndSpan p]).
  rewrite fold_left_app, Hv. simpl. rewrite observe_end. reflexivity.
Qed.

(** ** What one event calls *)

Lemma sets_projections p ws :
  writes p (sets p ws) = ws /\ statuses p (sets p ws) = []
  /\ thrown p (sets p ws) = [] /\ starts (sets p ws) = []
  /\ yielded (sets p ws) = [] /\ keeps_alive p (sets p ws).
Proof.
  induction ws as [|[k v] ws (IH1 & IH2 & IH3 & IH4 & IH5 & IH6)].
  - repeat split; constructor.
  - simpl. rewrite Nat.eqb_refl, IH1. repeat split; try assumption.
    constructor; [exact I | exact IH6].
Qed.

Lemma sets_app p ws1 ws2 : sets p (ws1 ++ ws2) = sets p ws1 ++ sets p ws2.
Proof. unfold sets. apply map_app. Qed.

Lemma when_truthy_run p key o n :
  when (truthy_str o) (setAttribute p key (AStr <$> o)) n
  = (tt, sets p (attr_if_truthy key o), n).
Proof.
  destruct o as [s|]; simpl; [|reflexivity].
  destruct (String.eqb s ""); reflexivity.
Qed.

Lemma on_message_success_calls p event st n :
  on_message_success p event st n
  = (with_finish st "stop", sets p (message_writes event), n).
Proof.
  unfold on_message_success, message_writes.
  destruct (message event ≫= message_configuration) as [c|];
    unfold mbind, Tracer_bind, bind, mret, Tracer_ret, ret;
    repeat (cbv beta iota; rewrite when_truthy_run).
  - destruct (configuration_version c) as [q|]; simpl;
      repeat (cbv beta iota; rewrite when_truthy_run);
      rewrite ?app_nil_r, ?sets_app, <- ?app_assoc; reflexivity.
  - cbv beta iota. rewrite ?app_nil_r, ?sets_app. reflexivity.
Qed.

Lemma on_error_event_calls p event st n :
  on_error_event p event st n
  = (with_finish st "error",
     [ SetStatus p ERROR (snd (error_status event));
       SetAttribute p SEMATTRS_ERROR_TYPE
         (Some (AStr (or_else (error event ≫= error_code) "unknown"))) ],
     n).
Proof. reflexivity. Qed.

(** The calls made for one event and the span drawn next, whatever the
    event and whatever the locals. *)
Lemma on_event_calls config p event st n :
  effects (on_event config p event st n) = event_calls config p n event
  /\ snd (on_event config p event st n) = next_span n event.
Proof.
  destruct event as [ty cr cid mid tx cl dcl act err msg].
  unfold on_event, event_calls, next_span, tool_action, parent_calls,
    is_message_success, is_error_event, effects. simpl.
  destruct (String.eqb_spec ty DUST_EVENT_GENERATION_TOKENS) as [->|H1].
  { split; reflexivity. }
  destruct (String.eqb_spec ty DUST_EVENT_AGENT_ACTION_SUCCESS) as [->|H2].
  { destruct act as [a|]; [|split; reflexivity].
    rewrite on_action_run. destruct (scans_cleanly (output a)) eqn:Hs.
    - rewrite (scan_output_clean _ _ Hs). split; reflexivity.
    - destruct (scan_output_raises _ (retrievalDocuments st) Hs) as (e & ->).
      simpl. rewrite app_nil_r. split; reflexivity. }
  destruct (String.eqb ty DUST_EVENT_AGENT_MESSAGE_SUCCESS).
  { unfold mbind, Tracer_bind, bind. rewrite on_message_success_calls.
    simpl. rewrite app_nil_r. split; reflexivity. }
  destruct (String.eqb ty DUST_EVENT_AGENT_ERROR
            || String.eqb ty DUST_EVENT_USER_MESSAGE_ERROR).
  { unfold mbind, Tracer_bind, bind. rewrite on_error_event_calls.
    split; reflexivity. }
  split; reflexivity.
Qed.

Lemma error_event_not_success_inv event :
  is_message_success event = true -> is_error_event event = false.
Proof.
  intros Hm. destruct (is_error_event event) eqn:He; [|reflexivity].
  rewrite (error_event_not_success event He) in Hm. discriminate.
Qed.

Lemma tool_action_raises event : raises event = true -> exists a, tool_action event = Some a.
Proof.
  unfold raises, tool_action. intros H. apply andb_prop in H as [-> Ha].
  destruct (action event) as [a|]; [eauto | discriminate].
Qed.

Lemma tool_event_writes_nothing event a :
  tool_action event = Some a -> event_writes event = [] /\ event_statuses event = [].
Proof.
  unfold tool_action, event_writes, event_statuses, is_message_success, is_error_event.
  destruct (String.eqb_spec (event_type event) DUST_EVENT_AGENT_ACTION_SUCCESS)
    as [->|]; [|discriminate].
  intros _. split; reflexivity.
Qed.

(** What the calls of one event say of the stream span. *)
Lemma event_calls_on_parent config p n event :
  p ≠ n ->
  writes p (event_calls config p n event) = event_writes event
  /\ statuses p (event_calls config p n event) = event_statuses event
  /\ thrown p (event_calls config p n event) = []
  /\ keeps_alive p (event_calls config p n event).
Proof.
  intros Hne. unfold event_calls.
  destruct (tool_action event) as [a|] eqn:Ha.
  - destruct (tool_event_writes_nothing event a Ha) as [-> ->].
    apply (elsewhere p n); [|congruence].
    constructor; [reflexivity|]. apply Forall_app. split.
    + eapply Forall_impl; [apply captured_on_tool|]. intros e (k & v & ->). reflexivity.
    + destruct (scans_cleanly (output a)); repeat constructor.
  - unfold parent_calls, event_writes, event_statuses.
    destruct (is_message_success event) eqn:Hm.
    + rewrite (error_event_not_success_inv event Hm).
      destruct (sets_projections p (message_writes event)) as (W & S & X & _ & _ & K).
      auto.
    + destruct (is_error_event event); simpl; rewrite ?Nat.eqb_refl;
        repeat split; repeat constructor.
Qed.

(** ** What a whole iteration says of the stream span *)

Lemma for_await_nil config p stop st n :
  for_await config p [] stop st n = (completion_of stop, closing config p stop st, n).
Proof.
  destruct stop as [|e]; simpl; [|reflexivity].
  run_tracer. rewrite on_exhausted_run. simpl. rewrite app_nil_r. reflexivity.
Qed.

Lemma for_await_cons config p event rest stop st n :
  for_await config p (event :: rest) stop st n =
  match on_event config p event st n with
  | (inl err, l, n1) => (Threw err, l ++ catch_calls p err, n1)
  | (inr st1, l, n1) =>
      (outcome (for_await config p rest stop st1 n1),
       l ++ Yield event :: effects (for_await config p rest stop st1 n1),
       snd (for_await config p rest stop st1 n1))
  end.
Proof.
  simpl for_await. run_tracer.
  destruct (on_event config p event st n) as [[[err|st1] l] n1]; [reflexivity|].
  destruct (for_await config p rest stop st1 n1) as [[c l2] n2]. reflexivity.
Qed.

Lemma final_attributes_sets config p st :
  final_attributes config p st = sets p (final_writes config st).
Proof.
  unfold final_attributes, final_writes.
  destruct (r_captureMessageContent config && negb (String.eqb (outputContent st) "")),
    (negb (Qle_bool (outputTokens st) 0)), (truthy_str (finishReason st)),
    (negb (Nat.eqb (length (retrievalDocuments st)) 0)); reflexivity.
Qed.

Lemma final_writes_keys config st :
  Forall (fun kv => fst kv ∈ final_keys) (final_writes config st).
Proof.
  unfold final_writes.
  destruct (r_captureMessageContent config && negb (String.eqb (outputContent st) "")),
    (negb (Qle_bool (outputTokens st) 0)), (truthy_str (finishReason st)),
    (negb (Nat.eqb (length (retrievalDocuments st)) 0));
    simpl; repeat (apply List.Forall_cons; [simpl; compute_done|]); apply List.Forall_nil.
Qed.

Lemma next_span_ge n event : n <= next_span n event.
Proof. unfold next_span. destruct (tool_action event); lia. Qed.

(** The shape of the record of an iteration, whatever the stream. *)
Lemma for_await_shape config p evs : forall stop st n,
  p < n ->
  iteration_shape p evs (outcome (for_await config p evs stop st n))
    (effects (for_await config p evs stop st n)).
Proof.
  induction evs as [|event rest IH]; intros stop st n Hp.
  - rewrite for_await_nil. unfold outcome, effects. cbn [fst snd].
    destruct stop as [|e]; simpl closing; simpl completion_of.
    + unfold final_calls. rewrite final_attributes_sets.
      destruct (sets_projections p (final_writes config st)) as (W & S & X & _ & _ & K).
      eapply (Build_iteration_shape _ _ _ _ _ (final_writes config st));
        [reflexivity | exact K | exact W | apply final_writes_keys | exact S | exact X].
    + eapply (Build_iteration_shape _ _ _ _
                [RecordException p e; SetStatus p ERROR (error_message e)] []);
        simpl; rewrite ?Nat.eqb_refl; try reflexivity; repeat constructor.
  - rewrite for_await_cons.
    destruct (on_event_calls config p event st n) as [Hcalls Hnext].
    destruct (event_calls_on_parent config p n event ltac:(lia)) as (W & S & X & K).
    destruct (raises event) eqn:Hr.
    + destruct (on_event_raising config p event st n Hr) as (err & a & _ & Hrun).
      rewrite Hrun in *. unfold outcome, effects in *. cbn [fst snd] in *.
      destruct (tool_action_raises event Hr) as (a' & Ha').
      destruct (tool_event_writes_nothing event a' Ha') as [Hw Hs].
      rewrite Hcalls.
      eapply (Build_iteration_shape _ _ _ _
                (event_calls config p n event
                 ++ [RecordException p err; SetStatus p ERROR (error_message err)]) []).
      * unfold catch_calls. rewrite <- app_assoc. reflexivity.
      * apply keeps_alive_app; [exact K | repeat constructor].
      * rewrite writes_app, W, Hw. unfold loop_writes. simpl. rewrite Hr. reflexivity.
      * constructor.
      * rewrite statuses_app, S, Hs. unfold loop_statuses. simpl.
        rewrite Hr, Nat.eqb_refl. reflexivity.
      * rewrite thrown_app, X. simpl. rewrite Nat.eqb_refl. reflexivity.
    + destruct (on_event_clean config p event st n Hr)
        as (st1 & l & n1 & Hrun & _ & _ & _).
      rewrite Hrun in *. unfold outcome, effects in *. cbn [fst snd] in *.
      subst l n1.
      destruct (IH stop st1 (next_span n event)
                  ltac:(pose proof (next_span_ge n event); lia))
        as [front tail Hrec Hal Hw Htk Hs Hx].
      unfold outcome, effects in *.
      eapply (Build_iteration_shape _ _ _ _
                (event_calls config p n event ++ Yield event :: front) tail).
      * rewrite Hrec, <- app_assoc. reflexivity.
      * apply keeps_alive_app; [exact K | constructor; [exact I | exact Hal]].
      * rewrite writes_app, W. simpl. rewrite Hw. unfold loop_writes. simpl.
        rewrite Hr. simpl. rewrite app_assoc. reflexivity.
      * exact Htk.
      * rewrite statuses_app, S. simpl. rewrite Hs. unfold loop_statuses. simpl.
        rewrite Hr. simpl. rewrite app_assoc. reflexivity.
      * simpl. rewrite thrown_app, X. simpl. exact Hx.
Qed.

(** ** A session, whatever the stream *)

Lemma session_run baseConfig original active args n value :
  r_enabled (_getConfig baseConfig) = true ->
  original args = Fulfilled (Ok value) ->
  stream_and_consume baseConfig original active args n
  = ((Fulfilled (Ok {| eventStream :=
                         Wrapped (eventStream value) n (_getConfig baseConfig) |}),
      Some (outcome (_wrapEventStream (eventStream value) n (_getConfig baseConfig) (S n)))),
     stream_start active args n
       :: effects (_wrapEventStream (eventStream value) n (_getConfig baseConfig) (S n)),
     snd (_wrapEventStream (eventStream value) n (_getConfig baseConfig) (S n))).
Proof.
  intros Hen Horig. unfold stream_and_consume. run_tracer.
  rewrite (patched_stream_ok _ _ _ _ _ _ Hen Horig).
  unfold iterate. cbn [eventStream].
  destruct (_wrapEventStream (eventStream value) n (_getConfig baseConfig) (S n))
    as [[c l] m].
  simpl. rewrite app_nil_r. reflexivity.
Qed.

(** The stream span of a session: started as [stream_start] says, carried
    through the iteration and ended once. *)
Lemma session_span baseConfig original active args n value :
  r_enabled (_getConfig baseConfig) = true ->
  original args = Fulfilled (Ok value) ->
  exists c front tail sd,
    snd (outcome (stream_and_consume baseConfig original active args n)) = Some c
    /\ span_view n (effects (stream_and_consume baseConfig original active args n))
       = Some (put_end sd)
    /\ carried n front
         (new_span ("invoke_agent " +:+ "agent") CLIENT
            [ (SEMATTRS_GEN_AI_OPERATION_NAME, Some (AStr GEN_AI_OPERATION_INVOKE_AGENT));
              (SEMATTRS_GEN_AI_PROVIDER_NAME, Some (AStr GEN_AI_PROVIDER_DUST));
              (SEMATTRS_GEN_AI_CONVERSATION_ID,
                Some (AStr (conversation_sId (stream_conversation args)))) ]
            active) sd
    /\ writes n front = loop_writes (events (eventStream value)) ++ tail
    /\ Forall (fun kv => fst kv ∈ final_keys) tail
    /\ statuses n front = loop_statuses (events (eventStream value)) ++ failure_status c
    /\ thrown n front = failure_thrown c.
Proof.
  intros Hen Horig. rewrite (session_run _ _ active _ n _ Hen Horig).
  unfold _wrapEventStream.
  destruct (for_await_shape (_getConfig baseConfig) n (events (eventStream value))
              (ending (eventStream value)) initial_locals (S n) ltac:(lia))
    as [front tail Hrec Hal Hw Htk Hs Hx].
  unfold outcome at 1. unfold effects at 1. cbn [fst snd].
  rewrite Hrec.
  destruct (view_ended n ("invoke_agent " +:+ "agent") CLIENT
              [ (SEMATTRS_GEN_AI_OPERATION_NAME, Some (AStr GEN_AI_OPERATION_INVOKE_AGENT));
                (SEMATTRS_GEN_AI_PROVIDER_NAME, Some (AStr GEN_AI_PROVIDER_DUST));
                (SEMATTRS_GEN_AI_CONVERSATION_ID,
                  Some (AStr (conversation_sId (stream_conversation args)))) ]
              active front Hal) as (sd & Hv & Hc).
  exists (outcome (for_await (_getConfig baseConfig) n (events (eventStream value))
                     (ending (eventStream value)) initial_locals (S n))),
    front, tail, sd.
  split; [reflexivity|]. split; [exact Hv|]. split; [exact Hc|].
  split; [exact Hw|]. split; [exact Htk|]. split; [exact Hs | exact Hx].
Qed.

(** ** Which keys the loop writes *)

Lemma last_write_attr_other k k' o seen :
  k' ≠ k -> last_write k (attr_if_truthy k' o) seen = seen.
Proof.
  intros Hne. unfold attr_if_truthy.
  destruct o as [s|]; [|reflexivity]. destruct (String.eqb s ""); [reflexivity|].
  unfold last_write. simpl. destruct (String.eqb_spec k' k); [contradiction | reflexivity].
Qed.

Lemma last_write_attr_same k o seen :
  last_write k (attr_if_truthy k o) seen
  = if truthy_str o then Some (AStr (default "" o)) else seen.
Proof.
  unfold attr_if_truthy, truthy_str.
  destruct o as [s|]; [|reflexivity]. simpl.
  destruct (String.eqb s ""); [reflexivity|].
  unfold last_write. simpl. rewrite String.eqb_refl. reflexivity.
Qed.

(** The keys a passing event may write on the stream span. *)
Lemma event_writes_keys event :
  Forall (fun kv => fst kv ∈ [ SEMATTRS_GEN_AI_AGENT_ID; SEMATTRS_GEN_AI_RESPONSE_ID;
                               SEMATTRS_GEN_AI_AGENT_NAME; SEMATTRS_GEN_AI_AGENT_DESCRIPTION;
                               SEMATTRS_DUST_AGENT_VERSION;
                               SEMATTRS_DUST_AGENT_VERSION_CREATED_AT;
                               SEMATTRS_ERROR_TYPE ]) (event_writes event).
Proof.
  assert (Hattr : forall k o (keys : list string),
             k ∈ keys -> Forall (fun kv : string * AttrValue => fst kv ∈ keys)
                           (attr_if_truthy k o)).
  { intros k o keys Hk. unfold attr_if_truthy. destruct o as [s|]; [|constructor].
    destruct (String.eqb s ""); repeat constructor; exact Hk. }
  unfold event_writes.
  destruct (is_message_success event).
  - unfold message_writes. repeat apply Forall_app_2.
    + apply Hattr. set_solver.
    + apply Hattr. set_solver.
    + destruct (message event ≫= message_configuration) as [c|]; [|constructor].
      repeat apply Forall_app_2.
      * apply Hattr. set_solver.
      * apply Hattr. set_solver.
      * destruct (configuration_version c); repeat constructor; try set_solver.
      * apply Hattr. set_solver.
  - destruct (is_error_event event); repeat constructor; try set_solver.
Qed.

Lemma loop_writes_keys evs :
  Forall (fun kv => fst kv ∈ [ SEMATTRS_GEN_AI_AGENT_ID; SEMATTRS_GEN_AI_RESPONSE_ID;
                               SEMATTRS_GEN_AI_AGENT_NAME; SEMATTRS_GEN_AI_AGENT_DESCRIPTION;
                               SEMATTRS_DUST_AGENT_VERSION;
                               SEMATTRS_DUST_AGENT_VERSION_CREATED_AT;
                               SEMATTRS_ERROR_TYPE ]) (loop_writes evs).
Proof.
  unfold loop_writes. induction (passing evs) as [|e l IH]; [constructor|].
  simpl. apply Forall_app_2; [apply event_writes_keys | exact IH].
Qed.

Lemma last_write_outside (keys : list string) k ws seen :
  Forall (fun kv : string * AttrValue => fst kv ∈ keys) ws -> k ∉ keys ->
  last_write k ws seen = seen.
Proof.
  intros Hws Hk. apply last_write_absent.
  eapply Forall_impl; [exact Hws|]. intros kv Hin Heq. simpl in Hin. subst k. tauto.
Qed.

Lemma last_status_snoc ss s seen : last_status (ss ++ [s]) seen = s.
Proof. rewrite last_status_app. reflexivity. Qed.

Lemma last_status_events evs : forall seen,
  last_status (flat_map event_statuses evs) seen
  = match last (error_events evs) with
    | Some event => error_status event
    | None => seen
    end.
Proof.
  induction evs as [|e l IH] using rev_ind; intros seen; [reflexivity|].
  rewrite flat_map_app, last_status_app, IH. unfold error_events.
  rewrite filter_app. simpl flat_map. rewrite app_nil_r.
  unfold event_statuses. rewrite filter_cons, filter_nil.
  destruct (is_error_event e) eqn:He.
  - case_decide; [|congruence]. rewrite last_snoc. reflexivity.
  - case_decide; [discriminate|]. rewrite app_nil_r. reflexivity.
Qed.

Lemma message_writes_response_id event seen :
  last_write SEMATTRS_GEN_AI_RESPONSE_ID (message_writes event) seen
  = if truthy_str (messageId event) then Some (AStr (default "" (messageId event)))
    else seen.
Proof.
  unfold message_writes. rewrite !last_write_app.
  rewrite (last_write_attr_other _ SEMATTRS_GEN_AI_AGENT_ID)
    by (apply String.eqb_neq; reflexivity).
  rewrite last_write_attr_same.
  destruct (message event ≫= message_configuration) as [c|]; [|reflexivity].
  rewrite !last_write_app.
  rewrite !last_write_attr_other by (apply String.eqb_neq; reflexivity).
  destruct (configuration_version c); reflexivity.
Qed.

Lemma last_write_response_ids evs : forall seen,
  last_write SEMATTRS_GEN_AI_RESPONSE_ID (flat_map event_writes evs) seen
  = match last (response_ids evs) with
    | Some id => Some (AStr id)
    | None => seen
    end.
Proof.
  induction evs as [|e l IH] using rev_ind; intros seen; [reflexivity|].
  rewrite flat_map_app, last_write_app, IH. unfold response_ids.
  rewrite flat_map_app. simpl flat_map. rewrite !app_nil_r.
  unfold event_writes. destruct (is_message_success e) eqn:Hm.
  - rewrite message_writes_response_id. simpl andb.
    destruct (truthy_str (messageId e)).
    + rewrite last_snoc. reflexivity.
    + rewrite app_nil_r. reflexivity.
  - simpl andb. rewrite app_nil_r.
    destruct (is_error_event e); reflexivity.
Qed.

Lemma last_write_error_type evs : forall seen,
  last_write SEMATTRS_ERROR_TYPE (flat_map event_writes evs) seen
  = match last (error_events evs) with
    | Some event => Some (AStr (or_else (error event ≫= error_code) "unknown"))
    | None => seen
    end.
Proof.
  induction evs as [|e l IH] using rev_ind; intros seen; [reflexivity|].
  rewrite flat_map_app, last_write_app, IH. unfold error_events.
  rewrite filter_app. simpl flat_map. rewrite app_nil_r.
  rewrite filter_cons, filter_nil.
  unfold event_writes. destruct (is_message_success e) eqn:Hm.
  - assert (He : is_error_event e = false).
    { destruct (is_error_event e) eqn:He; [|reflexivity].
      apply error_event_not_success in He. congruence. }
    rewrite He. case_decide; [discriminate|]. rewrite app_nil_r.
    apply (last_write_outside [ SEMATTRS_GEN_AI_AGENT_ID; SEMATTRS_GEN_AI_RESPONSE_ID;
                                SEMATTRS_GEN_AI_AGENT_NAME; SEMATTRS_GEN_AI_AGENT_DESCRIPTION;
                                SEMATTRS_DUST_AGENT_VERSION;
                                SEMATTRS_DUST_AGENT_VERSION_CREATED_AT ]).
    + unfold message_writes.
      assert (Hattr : forall k o (keys : list string),
                 k ∈ keys -> Forall (fun kv : string * AttrValue => fst kv ∈ keys)
                               (attr_if_truthy k o)).
      { intros k o keys Hk. unfold attr_if_truthy. destruct o as [s|]; [|constructor].
        destruct (String.eqb s ""); repeat constructor; exact Hk. }
      repeat apply Forall_app_2; try (apply Hattr; set_solver).
      destruct (message e ≫= message_configuration) as [c|]; [|constructor].
      repeat apply Forall_app_2; try (apply Hattr; set_solver).
      destruct (configuration_version c); repeat constructor; try set_solver.
    + compute_done.
  - destruct (is_error_event e) eqn:He.
    + case_decide; [|congruence]. rewrite last_snoc. reflexivity.
    + case_decide; [discriminate|]. rewrite app_nil_r. reflexivity.
Qed.

(** ** The spans an iteration starts *)

Lemma starts_sets p ws : starts (sets p ws) = [].
Proof. apply (sets_projections p ws). Qed.

Lemma starts_captured config n a : starts (captured config n a) = [].
Proof.
  unfold captured. destruct (r_captureMessageContent config); [|reflexivity].
  destruct (truthy_opt (params a)), (truthy_opt (output a)); reflexivity.
Qed.

Lemma starts_closing config p stop st : starts (closing config p stop st) = [].
Proof.
  destruct stop as [|e]; [|reflexivity]. simpl. unfold final_calls.
  rewrite final_attributes_sets, starts_app, starts_sets. reflexivity.
Qed.

Lemma starts_event_calls config p n event :
  starts (event_calls config p n event)
  = match tool_action event with
    | Some a => [tool_start p n a]
    | None => []
    end.
Proof.
  unfold event_calls. destruct (tool_action event) as [a|].
  - unfold tool_start at 1. simpl starts. rewrite starts_app, starts_captured.
    destruct (scans_cleanly (output a)); reflexivity.
  - unfold parent_calls. destruct (is_message_success event); [apply starts_sets|].
    destruct (is_error_event event); reflexivity.
Qed.

Lemma for_await_starts config p evs : forall stop st n,
  starts (effects (for_await config p evs stop st n)) = tool_starts p n (reached evs).
Proof.
  induction evs as [|event rest IH]; intros stop st n.
  - rewrite for_await_nil. unfold effects. cbn [fst snd]. apply starts_closing.
  - rewrite for_await_cons.
    destruct (on_event_calls config p event st n) as [Hcalls Hnext].
    pose proof (starts_event_calls config p n event) as Hst.
    simpl reached. simpl tool_starts.
    destruct (raises event) eqn:Hr.
    + destruct (on_event_raising config p event st n Hr) as (err & a & _ & Hrun).
      rewrite Hrun in *. unfold effects in *. cbn [fst snd] in *.
      rewrite starts_app, Hcalls, Hst. cbn [tool_starts].
      destruct (tool_action event); reflexivity.
    + destruct (on_event_clean config p event st n Hr)
        as (st1 & l & n1 & Hrun & _ & _ & _).
      rewrite Hrun in *. unfold effects in *. cbn [fst snd] in *. subst l n1.
      rewrite starts_app, Hst. simpl starts. cbn [tool_starts].
      specialize (IH stop st1 (next_span n event)). unfold effects in IH. rewrite IH.
      unfold next_span. destruct (tool_action event); reflexivity.
Qed.

(** ** Properties of a consumed stream *)

(** X1. A consumer that iterates the wrapped stream to its end receives
    exactly the events that precede the first event whose tool output
    cannot be scanned (all of them when there is none), in order and
    unchanged; and the iteration returns normally exactly when the
    underlying stream ends normally and no event is of that kind. *)
Theorem wrapper_yields_until_first_raise baseConfig original active args n value :
  r_enabled (_getConfig baseConfig) = true ->
  original args = Fulfilled (Ok value) ->
  let R := stream_and_consume baseConfig original active args n in
  yielded (effects R) = passing (events (eventStream value))
  /\ (snd (outcome R) = Some Returned
      <-> ending (eventStream value) = EndOfStream /\ clean (events (eventStream value))).
Proof.
  intros Hen Horig R. subst R. split.
  - rewrite (session_run _ _ active _ n _ Hen Horig).
    unfold effects at 1. cbn [fst snd]. simpl yielded. apply for_await_yields.
  - split.
    + apply (session_returned _ _ active _ n _ Hen Horig).
    + intros [Hend Hclean].
      destruct (clean_stream_passes_through _ _ active _ n _ Hen Horig Hclean) as [_ H].
      rewrite H, Hend. reflexivity.
Qed.

Lemma wrapper_yields_until_first_raise_witness :
  r_enabled (_getConfig default_config) = true
  /\ yielded (effects (stream_and_consume default_config
                         (streaming null_item_stream EndOfStream) None
                         sample_stream_args 0))
     = [tokens_event "Hi"].
Proof.
  split; [reflexivity|].
  exact (proj1 (wrapper_yields_until_first_raise default_config
                  (streaming null_item_stream EndOfStream) None sample_stream_args 0 _
                  eq_refl eq_refl)).
Defined.

(** X2. Besides the stream span, a consumed stream starts one
    [execute_tool] span for each action-success event with an action among
    the events the loop reaches (those up to and including the first whose
    output scan raises), in the order of the events; each is a child of the
    stream span and is started with the operation, the provider, the tool
    name and the call id of its event.  No other span is started. *)
Theorem session_starts_one_span_per_tool_event baseConfig original active args n value :
  r_enabled (_getConfig baseConfig) = true ->
  original args = Fulfilled (Ok value) ->
  starts (effects (stream_and_consume baseConfig original active args n))
  = stream_start active args n
      :: tool_starts n (S n) (reached (events (eventStream value))).
Proof.
  intros Hen Horig. rewrite (session_run _ _ active _ n _ Hen Horig).
  unfold effects at 1. cbn [fst snd]. unfold stream_start at 1. simpl starts.
  unfold _wrapEventStream. rewrite for_await_starts. reflexivity.
Qed.

Lemma session_starts_one_span_per_tool_event_witness :
  r_enabled (_getConfig default_config) = true
  /\ starts (effects (stream_and_consume default_config
                        (streaming null_item_stream EndOfStream) None
                        sample_stream_args 0))
     = [ stream_start None sample_stream_args 0;
         tool_start 0 1 (search_action (Some (JArr [JNull]))) ].
Proof.
  split; [reflexivity|].
  exact (session_starts_one_span_per_tool_event default_config
           (streaming null_item_stream EndOfStream) None sample_stream_args 0 _
           eq_refl eq_refl).
Defined.

(** X3. Whatever the events of a consumed stream are and however the
    iteration stops, the stream span is ended exactly once and is still the
    span that was started: named [invoke_agent agent], of kind CLIENT,
    child of the span active at the call, with the operation name, the
    provider name and the conversation id given at its start.  No event and
    no final attribute overwrites them. *)
Theorem stream_span_identity baseConfig original active args n value :
  r_enabled (_getConfig baseConfig) = true ->
  original args = Fulfilled (Ok value) ->
  exists sd,
    span_view n (effects (stream_and_consume baseConfig original active args n)) = Some sd
    /\ span_end_calls sd = 1
    /\ span_name sd = "invoke_agent agent"
    /\ span_kind sd = CLIENT
    /\ span_parent sd = active
    /\ span_attributes sd !! SEMATTRS_GEN_AI_OPERATION_NAME
       = Some (AStr GEN_AI_OPERATION_INVOKE_AGENT)
    /\ span_attributes sd !! SEMATTRS_GEN_AI_PROVIDER_NAME = Some (AStr GEN_AI_PROVIDER_DUST)
    /\ span_attributes sd !! SEMATTRS_GEN_AI_CONVERSATION_ID
       = Some (AStr (conversation_sId (stream_conversation args))).
Proof.
  intros Hen Horig.
  destruct (session_span _ _ active _ n _ Hen Horig)
    as (c & front & tail & sd & _ & Hv & [N K P E A S X] & Hw & Htk & _ & _).
  exists (put_end sd). split; [exact Hv|]. simpl.
  split; [rewrite E; reflexivity|]. split; [rewrite N; reflexivity|].
  split; [exact K|]. split; [exact P|].
  assert (Hkeep : forall k,
             k ∉ [ SEMATTRS_GEN_AI_AGENT_ID; SEMATTRS_GEN_AI_RESPONSE_ID;
                   SEMATTRS_GEN_AI_AGENT_NAME; SEMATTRS_GEN_AI_AGENT_DESCRIPTION;
                   SEMATTRS_DUST_AGENT_VERSION; SEMATTRS_DUST_AGENT_VERSION_CREATED_AT;
                   SEMATTRS_ERROR_TYPE ] ->
             k ∉ final_keys ->
             forall seen, last_write k (writes n front) seen = seen).
  { intros k H1 H2 seen. rewrite Hw, last_write_app.
    rewrite (last_write_outside _ k _ _ (loop_writes_keys _) H1).
    apply (last_write_outside _ k _ _ Htk H2). }
  repeat split; rewrite A, Hkeep by compute_done; reflexivity.
Qed.

Lemma stream_span_identity_witness :
  r_enabled (_getConfig default_config) = true
  /\ exists sd,
       span_view 0 (effects (stream_and_consume default_config
                               (streaming null_item_stream EndOfStream) None
                               sample_stream_args 0)) = Some sd
       /\ span_end_calls sd = 1
       /\ span_attributes sd !! SEMATTRS_GEN_AI_CONVERSATION_ID = Some (AStr "conv-123").
Proof.
  split; [reflexivity|].
  destruct (stream_span_identity default_config
              (streaming null_item_stream EndOfStream) None sample_stream_args 0 _
              eq_refl eq_refl) as (sd & Hv & He & _ & _ & _ & _ & _ & Hc).
  exists sd. split; [exact Hv|]. split; [exact He | exact Hc].
Defined.

(** X4. The status of the stream span once the stream has been consumed:
    when the iteration throws (the underlying stream throws, or the scan of
    a tool output raises) it is ERROR with the message of the thrown error,
    and that error is the one exception recorded on the span; when the
    iteration returns, no exception is recorded and the status is the one
    set by the last error event (ERROR, with the event's error message or
    'Unknown error'), or UNSET when there was no error event.  The status
    is never OK. *)
Theorem stream_span_final_status baseConfig original active args n value :
  r_enabled (_getConfig baseConfig) = true ->
  original args = Fulfilled (Ok value) ->
  exists c sd,
    snd (outcome (stream_and_consume baseConfig original active args n)) = Some c
    /\ span_view n (effects (stream_and_consume baseConfig original active args n))
       = Some sd
    /\ span_status sd
       = match c with
         | Threw e => (ERROR, error_message e)
         | Returned =>
             match last (error_events (events (eventStream value))) with
             | Some event =>
                 (ERROR, or_else (error event ≫= event_error_message) "Unknown error")
             | None => (UNSET, "")
             end
         end
    /\ span_exceptions sd = match c with Threw e => [e] | Returned => [] end.
Proof.
  intros Hen Horig.
  destruct (session_span _ _ active _ n _ Hen Horig)
    as (c & front & tail & sd & Hc & Hv & [N K P E A S X] & _ & _ & Hs & Hx).
  exists c, (put_end sd). split; [exact Hc|]. split; [exact Hv|]. simpl.
  rewrite S, X, Hs, Hx. split.
  - destruct c as [|e]; simpl.
    + rewrite app_nil_r. unfold loop_statuses.
      destruct (session_returned _ _ active _ n _ Hen Horig Hc) as [_ Hclean].
      rewrite (passing_clean _ Hclean). rewrite last_status_events. reflexivity.
    + apply last_status_snoc.
  - destruct c; reflexivity.
Qed.

Lemma stream_span_final_status_witness :
  r_enabled (_getConfig default_config) = true
  /\ exists c sd,
       snd (outcome (stream_and_consume default_config
                       (streaming null_item_stream EndOfStream) None
                       sample_stream_args 0)) = Some c
       /\ span_view 0 (effects (stream_and_consume default_config
                                  (streaming null_item_stream EndOfStream) None
                                  sample_stream_args 0)) = Some sd
       /\ span_exceptions sd = match c with Threw e => [e] | Returned => [] end.
Proof.
  split; [reflexivity|].
  destruct (stream_span_final_status default_config
              (streaming null_item_stream EndOfStream) None sample_stream_args 0 _
              eq_refl eq_refl) as (c & sd & Hc & Hv & _ & Hx).
  exists c, sd. split; [exact Hc|]. split; [exact Hv | exact Hx].
Defined.

(** X5. On the stream span of a consumed stream, [gen_ai.response.id] is
    the [messageId] of the last message-success event with a non-empty
    [messageId] among the events that reach the consumer, and is absent
    when there is none; [error.type] is the error code of the last error
    event among them ('unknown' when that event carries no code), and is
    absent when there is none.  A later event overwrites what an earlier
    one wrote. *)
Theorem stream_span_last_event_wins baseConfig original active args n value :
  r_enabled (_getConfig baseConfig) = true ->
  original args = Fulfilled (Ok value) ->
  exists sd,
    span_view n (effects (stream_and_consume baseConfig original active args n)) = Some sd
    /\ span_attributes sd !! SEMATTRS_GEN_AI_RESPONSE_ID
       = AStr <$> last (response_ids (passing (events (eventStream value))))
    /\ span_attributes sd !! SEMATTRS_ERROR_TYPE
       = (fun event => AStr (or_else (error event ≫= error_code) "unknown"))
         <$> last (error_events (passing (events (eventStream value)))).
Proof.
  intros Hen Horig.
  destruct (session_span _ _ active _ n _ Hen Horig)
    as (c & front & tail & sd & _ & Hv & [N K P E A S X] & Hw & Htk & _ & _).
  exists (put_end sd). split; [exact Hv|]. simpl.
  split; rewrite A, Hw, last_write_app.
  - rewrite (last_write_outside _ _ _ _ Htk) by compute_done.
    unfold loop_writes. rewrite last_write_response_ids.
    destruct (last (response_ids (passing (events (eventStream value))))); reflexivity.
  - rewrite (last_write_outside _ _ _ _ Htk) by compute_done.
    unfold loop_writes. rewrite last_write_error_type.
    destruct (last (error_events (passing (events (eventStream value))))); reflexivity.
Qed.

Lemma stream_span_last_event_wins_witness :
  r_enabled (_getConfig default_config) = true
  /\ exists sd,
       span_view 0 (effects (stream_and_consume default_config
                               (streaming replies_stream EndOfStream) None
                               sample_stream_args 0)) = Some sd
       /\ span_attributes sd !! SEMATTRS_GEN_AI_RESPONSE_ID = Some (AStr "msg-2")
       /\ span_attributes sd !! SEMATTRS_ERROR_TYPE = Some (AStr "unknown").
Proof.
  split; [reflexivity|].
  exact (stream_span_last_event_wins default_config
           (streaming replies_stream EndOfStream) None sample_stream_args 0 _
           eq_refl eq_refl).
Defined.

(** ** The span of [createConversation] *)

Lemma settle_calls_front n r : settle_calls n r = settle_front n r ++ [EndSpan n].
Proof.
  destruct r as [[[value|]|error]|e]; reflexivity.
Qed.

Lemma create_front_alive config args n r :
  keeps_alive n (create_prelude config args n ++ settle_front n r).
Proof.
  apply keeps_alive_app.
  - unfold create_prelude.
    destruct (truthy_str (context_email args)),
      (r_captureMessageContent config && truthy_str (message_text args));
      repeat constructor.
  - destruct r as [[[value|]|error]|e]; simpl;
      try destruct (truthy_str (agent_message_sId <$> value_message value));
      repeat constructor.
Qed.

(** The span of an enabled [createConversation] call: started, carried
    through the request attributes and the settling, and ended once. *)
Lemma create_span baseConfig original active args n :
  r_enabled (_getConfig baseConfig) = true ->
  exists sd,
    span_view n (effects (patchedCreateConversation baseConfig original active args n))
    = Some (put_end sd)
    /\ carried n
         (create_prelude (_getConfig baseConfig) args n ++ settle_front n (original args))
         (new_span ("invoke_agent " +:+ or_else (first_mention args) "unknown") CLIENT
            (create_attributes args) active) sd.
Proof.
  intros Hen. rewrite (create_run _ _ active _ n Hen). unfold effects. cbn [fst snd].
  rewrite settle_calls_front, app_assoc. unfold create_start.
  apply view_ended, create_front_alive.
Qed.

Ltac split_strings :=
  repeat match goal with
         | |- context [String.eqb ?s ""] => destruct (String.eqb s "")
         end.

Ltac split_create config args r :=
  unfold create_prelude, settle_front, truthy_str;
  destruct (context_email args);
  destruct (r_captureMessageContent config);
  destruct (message_text args);
  destruct r as [[[[[?|] [?|]]|]|?]|?];
  simpl; split_strings; simpl; rewrite ?Nat.eqb_refl.

Lemma create_front_starts config args n r :
  started (create_prelude config args n ++ settle_calls n r) = [].
Proof.
  rewrite settle_calls_front. split_create config args r; reflexivity.
Qed.

(** X6. Whatever the SDK's [createConversation] does (a value, an error
    result or a rejection), an enabled patched call hands its outcome back
    as it is and produces exactly one span, ended exactly once: named
    [invoke_agent] followed by the [configurationId] of the first mention
    ('unknown' without a message, without a mention or with an empty id),
    of kind CLIENT, child of the span active at the call, and holding the
    operation name, the provider name and that agent id, which nothing
    later overwrites. *)
Theorem create_span_identity baseConfig original active args n :
  r_enabled (_getConfig baseConfig) = true ->
  let R := patchedCreateConversation baseConfig original active args n in
  outcome R = original args
  /\ started (effects R) = [n]
  /\ exists sd,
       span_view n (effects R) = Some sd
       /\ span_end_calls sd = 1
       /\ span_name sd = "invoke_agent " +:+ or_else (first_mention args) "unknown"
       /\ span_kind sd = CLIENT
       /\ span_parent sd = active
       /\ span_attributes sd !! SEMATTRS_GEN_AI_OPERATION_NAME
          = Some (AStr GEN_AI_OPERATION_INVOKE_AGENT)
       /\ span_attributes sd !! SEMATTRS_GEN_AI_PROVIDER_NAME
          = Some (AStr GEN_AI_PROVIDER_DUST)
       /\ span_attributes sd !! SEMATTRS_GEN_AI_AGENT_ID
          = Some (AStr (or_else (first_mention args) "unknown")).
Proof.
  intros Hen R. subst R. split; [|split].
  - rewrite (create_run _ _ active _ n Hen). reflexivity.
  - rewrite (create_run _ _ active _ n Hen). unfold effects. cbn [fst snd].
    unfold create_start. simpl started. rewrite create_front_starts. reflexivity.
  - destruct (create_span baseConfig original active args n Hen)
      as (sd & Hv & [N K P E A S X]).
    exists (put_end sd). split; [exact Hv|]. simpl.
    split; [rewrite E; reflexivity|]. split; [exact N|].
    split; [exact K|]. split; [exact P|].
    remember (_getConfig baseConfig) as config eqn:Hconfig. clear Hconfig.
    rewrite !A. clear.
    split_create config args (original args); repeat split; reflexivity.
Qed.

Lemma create_span_identity_witness :
  r_enabled (_getConfig default_config) = true
  /\ exists sd,
       span_view 0 (effects (patchedCreateConversation default_config
                               (fun _ => Rejected network_error) None
                               sample_create_args 0)) = Some sd
       /\ span_name sd = "invoke_agent agent-1"
       /\ span_attributes sd !! SEMATTRS_GEN_AI_AGENT_ID = Some (AStr "agent-1").
Proof.
  split; [reflexivity|].
  destruct (create_span_identity default_config (fun _ => Rejected network_error) None
              sample_create_args 0 eq_refl)
    as (_ & _ & sd & Hv & _ & Hn & _ & _ & _ & _ & Ha).
  exists sd. split; [exact Hv|]. split; [exact Hn | exact Ha].
Defined.

(** X7. The request attributes of the span of [createConversation],
    whatever the outcome of the call: [enduser.id] is the email of the
    message context when there is a non-empty one and is absent otherwise;
    [gen_ai.input.messages] is the serialized user message when content
    capture is on and the message content is not empty, and is absent
    otherwise. *)
Theorem create_request_attributes baseConfig original active args n :
  r_enabled (_getConfig baseConfig) = true ->
  exists sd,
    span_view n (effects (patchedCreateConversation baseConfig original active args n))
    = Some sd
    /\ span_attributes sd !! SEMATTRS_ENDUSER_ID
       = (if truthy_str (context_email args) then AStr <$> context_email args else None)
    /\ span_attributes sd !! SEMATTRS_GEN_AI_INPUT_MESSAGES
       = (if r_captureMessageContent (_getConfig baseConfig)
             && truthy_str (message_text args)
          then Some (AJson (role_content "user" (default "" (message_text args))))
          else None).
Proof.
  intros Hen.
  destruct (create_span baseConfig original active args n Hen)
    as (sd & Hv & [N K P E A S X]).
  exists (put_end sd). split; [exact Hv|].
  remember (_getConfig baseConfig) as config eqn:Hconfig. clear Hconfig.
  simpl. rewrite !A. clear.
  split_create config args (original args); split; reflexivity.
Qed.

Lemma create_request_attributes_witness :
  r_enabled (_getConfig capturing_config) = true
  /\ exists sd,
       span_view 0 (effects (patchedCreateConversation capturing_config
                               (fun _ => Fulfilled (Ok None)) None
                               sample_create_args 0)) = Some sd
       /\ span_attributes sd !! SEMATTRS_ENDUSER_ID = None
       /\ span_attributes sd !! SEMATTRS_GEN_AI_INPUT_MESSAGES
          = Some (AJson (role_content "user" "Hello, agent!")).
Proof.
  split; [reflexivity|].
  exact (create_request_attributes capturing_config (fun _ => Fulfilled (Ok None)) None
           sample_create_args 0 eq_refl).
Defined.

(** X8. How the span of [createConversation] records the outcome.  For an
    error result: status ERROR with the error's message ('Unknown error'
    when missing or empty), [error.type] the error's type ('unknown' when
    missing or empty), no exception recorded.  For a rejection: status
    ERROR with the message of the thrown error, [error.type] its name
    ('Error' when empty), and that error recorded as the one exception.  In
    both cases no conversation id and no response id is set.  For a
    result that is not an error: the status stays UNSET (it is never OK),
    there is no [error.type] and no exception. *)
Theorem create_outcome_details baseConfig original active args n :
  r_enabled (_getConfig baseConfig) = true ->
  exists sd,
    span_view n (effects (patchedCreateConversation baseConfig original active args n))
    = Some sd
    /\ match original args with
       | Fulfilled (Err error) =>
           span_status sd = (ERROR, or_else (error ≫= api_error_message) "Unknown error")
           /\ span_attributes sd !! SEMATTRS_ERROR_TYPE
              = Some (AStr (or_else (error ≫= api_error_type) "unknown"))
           /\ span_exceptions sd = []
           /\ span_attributes sd !! SEMATTRS_GEN_AI_CONVERSATION_ID = None
           /\ span_attributes sd !! SEMATTRS_GEN_AI_RESPONSE_ID = None
       | Rejected e =>
           span_status sd = (ERROR, error_message e)
           /\ span_attributes sd !! SEMATTRS_ERROR_TYPE
              = Some (AStr (or_else (Some (error_name e)) "Error"))
           /\ span_exceptions sd = [e]
           /\ span_attributes sd !! SEMATTRS_GEN_AI_CONVERSATION_ID = None
           /\ span_attributes sd !! SEMATTRS_GEN_AI_RESPONSE_ID = None
       | Fulfilled (Ok _) =>
           span_status sd = (UNSET, "")
           /\ span_attributes sd !! SEMATTRS_ERROR_TYPE = None
           /\ span_exceptions sd = []
       end.
Proof.
  intros Hen.
  destruct (create_span baseConfig original active args n Hen)
    as (sd & Hv & [N K P E A S X]).
  exists (put_end sd). split; [exact Hv|].
  remember (_getConfig baseConfig) as config eqn:Hconfig. clear Hconfig.
  simpl. rewrite !A, S, X. clear.
  split_create config args (original args); repeat split; reflexivity.
Qed.

Lemma create_outcome_details_witness :
  r_enabled (_getConfig default_config) = true
  /\ exists sd,
       span_view 0 (effects (patchedCreateConversation default_config
                               (fun _ => Rejected network_error) None
                               sample_create_args 0)) = Some sd
       /\ span_status sd = (ERROR, "socket hang up")
       /\ span_attributes sd !! SEMATTRS_ERROR_TYPE = Some (AStr "Error")
       /\ span_exceptions sd = [network_error].
Proof.
  split; [reflexivity|].
  destruct (create_outcome_details default_config (fun _ => Rejected network_error) None
              sample_create_args 0 eq_refl) as (sd & Hv & Hs & Ht & Hx & _).
  exists sd. split; [exact Hv|]. split; [exact Hs|]. split; [exact Ht | exact Hx].
Defined.

(** ** The settling of [streamAgentAnswerEvents] when no stream is given *)

(** X9. When the SDK's [streamAgentAnswerEvents] gives an error result or
    rejects, an enabled patched call hands that outcome back as it is,
    wraps no stream and yields nothing, and produces exactly one span,
    ended exactly once, named [invoke_agent agent], child of the span
    active at the call and holding the conversation id.  For an error
    result the span has status ERROR with the error's message ('Unknown
    error' when missing or empty), [error.type] the error's type
    ('unknown' when missing or empty) and no exception; for a rejection
    it has status ERROR with the message of the thrown error, [error.type]
    its name ('Error' when empty) and that error as its one exception. *)
Theorem stream_failure_details baseConfig original active args n :
  r_enabled (_getConfig baseConfig) = true ->
  (forall value, original args <> Fulfilled (Ok value)) ->
  let R := stream_and_consume baseConfig original active args n in
  fst (outcome R) = handed_back (original args)
  /\ snd (outcome R) = None
  /\ started (effects R) = [n]
  /\ yielded (effects R) = []
  /\ exists sd,
       span_view n (effects R) = Some sd
       /\ span_end_calls sd = 1
       /\ span_name sd = "invoke_agent agent"
       /\ span_parent sd = active
       /\ span_attributes sd !! SEMATTRS_GEN_AI_CONVERSATION_ID
          = Some (AStr (conversation_sId (stream_conversation args)))
       /\ match original args with
          | Fulfilled (Err error) =>
              span_status sd
              = (ERROR, or_else (error ≫= api_error_message) "Unknown error")
              /\ span_attributes sd !! SEMATTRS_ERROR_TYPE
                 = Some (AStr (or_else (error ≫= api_error_type) "unknown"))
              /\ span_exceptions sd = []
          | Rejected e =>
              span_status sd = (ERROR, error_message e)
              /\ span_attributes sd !! SEMATTRS_ERROR_TYPE
                 = Some (AStr (or_else (Some (error_name e)) "Error"))
              /\ span_exceptions sd = [e]
          | Fulfilled (Ok _) => False
          end.
Proof.
  intros Hen Hno R. subst R. unfold stream_and_consume. run_tracer.
  destruct (original args) as [[value|error]|e] eqn:Horig.
  - destruct (Hno value eq_refl).
  - rewrite (patched_stream_err _ _ _ _ _ _ Hen Horig). cbn [fst snd].
    repeat (split; [reflexivity|]).
    destruct (view_ended n ("invoke_agent " +:+ "agent") CLIENT (stream_attributes args)
                active
                [ SetStatus n ERROR (or_else (error ≫= api_error_message) "Unknown error");
                  SetAttribute n SEMATTRS_ERROR_TYPE
                    (Some (AStr (or_else (error ≫= api_error_type) "unknown"))) ]
                ltac:(repeat constructor)) as (sd & Hv & [N K P E A S X]).
    exists (put_end sd). split; [exact Hv|]. simpl.
    rewrite !A, S, X, N, P, E. simpl. rewrite Nat.eqb_refl. repeat split; reflexivity.
  - rewrite (patched_stream_rejected _ _ _ _ _ _ Hen Horig). cbn [fst snd].
    repeat (split; [reflexivity|]).
    destruct (view_ended n ("invoke_agent " +:+ "agent") CLIENT (stream_attributes args)
                active
                [ RecordException n e;
                  SetStatus n ERROR (error_message e);
                  SetAttribute n SEMATTRS_ERROR_TYPE
                    (Some (AStr (or_else (Some (error_name e)) "Error"))) ]
                ltac:(repeat constructor)) as (sd & Hv & [N K P E A S X]).
    exists (put_end sd). split; [exact Hv|]. simpl.
    rewrite !A, S, X, N, P, E. simpl. rewrite Nat.eqb_refl. repeat split; reflexivity.
Qed.

Lemma stream_failure_details_witness :
  r_enabled (_getConfig default_config) = true
  /\ exists sd,
       span_view 0 (effects (stream_and_consume default_config
                               (fun _ => Fulfilled (Err None)) None
                               sample_stream_args 0)) = Some sd
       /\ span_status sd = (ERROR, "Unknown error")
       /\ span_attributes sd !! SEMATTRS_ERROR_TYPE = Some (AStr "unknown").
Proof.
  split; [reflexivity|].
  destruct (stream_failure_details default_config (fun _ => Fulfilled (Err None)) None
              sample_stream_args 0 eq_refl ltac:(discriminate))
    as (_ & _ & _ & _ & sd & Hv & _ & _ & _ & _ & Hs & Ht & _).
  exists sd. split; [exact Hv|]. split; [exact Hs | exact Ht].
Defined.

(** ** Which tool outputs can be scanned *)

Lemma scan_item_run item docs :
  unscannable item = false -> scan_item item docs = inr (docs ++ item_documents item).
Proof.
  destruct item as [|b|q|s|items|fields]; try discriminate;
    try (intros _; simpl; rewrite app_nil_r; reflexivity).
  unfold scan_item, unscannable, item_documents, spreadable. cbv beta iota zeta delta [get_prop].
  destruct (strict_eq_str (lookup_field "type" fields) "retrieval_documents") eqn:Ht;
    simpl andb; cbv iota.
  - destruct (lookup_field "documents" fields) as [[|b|q|s|items|fs]|]; simpl;
      try destruct b; try destruct (Qeq_bool q 0); try destruct (String.eqb s "");
      simpl; try discriminate; intros _;
      try destruct (strict_eq_str (lookup_field "type" fields) "resource");
      rewrite ?app_nil_r; reflexivity.
  - intros _. destruct (strict_eq_str (lookup_field "type" fields) "resource");
      rewrite ?app_nil_r; reflexivity.
Qed.

Lemma scan_item_error item docs e :
  scan_item item docs = inl e -> unscannable item = true /\ error_name e = "TypeError".
Proof.
  destruct item as [|b|q|s|items|fields]; try discriminate.
  - intros H. inversion H. split; reflexivity.
  - unfold scan_item, unscannable, spreadable. cbv beta iota zeta delta [get_prop].
    destruct (strict_eq_str (lookup_field "type" fields) "retrieval_documents").
    + destruct (lookup_field "documents" fields) as [[|b|q|s|items|fs]|]; simpl;
        try destruct b; try destruct (Qeq_bool q 0); try destruct (String.eqb s "");
        simpl; try destruct (strict_eq_str (lookup_field "type" fields) "resource");
        intros H; inversion H; split; reflexivity.
    + destruct (strict_eq_str (lookup_field "type" fields) "resource"); discriminate.
Qed.

Lemma unscannable_raises item docs :
  unscannable item = true -> exists e, scan_item item docs = inl e.
Proof.
  destruct item as [|b|q|s|items|fields]; try discriminate.
  - intros _. eexists. reflexivity.
  - unfold scan_item, unscannable, spreadable. cbv beta iota zeta delta [get_prop].
    destruct (strict_eq_str (lookup_field "type" fields) "retrieval_documents");
      [|discriminate].
    destruct (lookup_field "documents" fields) as [[|b|q|s|items|fs]|]; simpl;
      try destruct b; try destruct (Qeq_bool q 0); try destruct (String.eqb s "");
      simpl; try discriminate; intros _; eexists; reflexivity.
Qed.

Lemma scan_items_run items : forall docs,
  existsb unscannable items = false ->
  scan_items items docs = inr (docs ++ flat_map item_documents items).
Proof.
  induction items as [|item rest IH]; intros docs H; simpl in *.
  - rewrite app_nil_r. reflexivity.
  - apply orb_false_iff in H as [Hi Hrest].
    rewrite (scan_item_run _ _ Hi), (IH _ Hrest), app_assoc. reflexivity.
Qed.

Lemma scan_items_error items : forall docs e,
  scan_items items docs = inl e ->
  existsb unscannable items = true /\ error_name e = "TypeError".
Proof.
  induction items as [|item rest IH]; intros docs e H; simpl in *; [discriminate|].
  destruct (scan_item item docs) as [e1|d1] eqn:E.
  - inversion H; subst. destruct (scan_item_error _ _ _ E) as [-> Hn].
    split; [reflexivity | exact Hn].
  - destruct (IH _ _ H) as [-> Hn]. split; [apply orb_true_r | exact Hn].
Qed.

Lemma scan_items_raises items : forall docs,
  existsb unscannable items = true -> exists e, scan_items items docs = inl e.
Proof.
  induction items as [|item rest IH]; intros docs H; simpl in *; [discriminate|].
  destruct (scan_item item docs) as [e1|d1] eqn:E; [exists e1; reflexivity|].
  apply orb_true_iff in H as [Hi|Hrest]; [|apply IH; exact Hrest].
  destruct (unscannable_raises item docs Hi) as (e & He). congruence.
Qed.

Lemma scan_output_error_name o docs e :
  scan_output o docs = inl e -> error_name e = "TypeError".
Proof.
  intros He. destruct o as [[| | | |items|]|]; try discriminate.
  apply (scan_items_error _ _ _ He).
Qed.

(** X10. Scanning the output of a tool raises exactly when the output is
    an array holding [null] or a [retrieval_documents] item whose
    [documents] is truthy and is neither an array nor a string; what is
    raised is then a TypeError.  An output that is missing, or is not an
    array, is never scanned. *)
Theorem scan_raises_exactly_on_unscannable_item o docs :
  ((exists e, scan_output o docs = inl e)
   <-> exists items, o = Some (JArr items) /\ existsb unscannable items = true)
  /\ forall e, scan_output o docs = inl e -> error_name e = "TypeError".
Proof.
  split; [split|].
  - intros (e & He). destruct o as [[| | | |items|]|]; try discriminate.
    exists items. split; [reflexivity|]. apply (scan_items_error _ _ _ He).
  - intros (items & -> & H). apply scan_items_raises. exact H.
  - apply scan_output_error_name.
Qed.

(** X11. When the output of a tool is an array that can be scanned, the
    scan appends to the batch of retrieval documents, in the order of the
    items: for a [retrieval_documents] item with truthy [documents], the
    elements of that array, or the characters of that string, one by one;
    for a [resource] item, the item itself; and nothing for any other
    item.  What the batch already holds is kept. *)
Theorem scan_gathers_documents_in_order items docs :
  existsb unscannable items = false ->
  scan_output (Some (JArr items)) docs = inr (docs ++ flat_map item_documents items).
Proof.
  intros H. apply scan_items_run. exact H.
Qed.

Lemma scan_gathers_documents_in_order_witness :
  scan_output
    (Some (JArr [ JObj [("type", JStr "retrieval_documents"); ("documents", JStr "ab")];
                  resource_item;
                  JStr "text" ]))
    [JNum 1]
  = inr [ JNum 1; JStr "a"; JStr "b"; resource_item ].
Proof.
  exact (scan_gathers_documents_in_order
           [ JObj [("type", JStr "retrieval_documents"); ("documents", JStr "ab")];
             resource_item;
             JStr "text" ]
           [JNum 1] eq_refl).
Defined.

(** ** An event in the middle of a stream *)

Lemma spans_drawn_cons event rest :
  spans_drawn (event :: rest) = (next_span 0 event + spans_drawn rest)%nat
  /\ forall n, next_span n event = (n + next_span 0 event)%nat.
Proof.
  unfold spans_drawn, next_span. cbn [omap list_omap].
  destruct (tool_action event); split; intros; simpl; lia.
Qed.

(** The iteration up to an event that only passing events precede. *)
Lemma for_await_prefix config p pre evs : forall stop st n,
  clean pre ->
  exists body st1 n1,
    for_await config p (pre ++ evs) stop st n
    = (outcome (for_await config p evs stop st1 n1),
       body ++ effects (for_await config p evs stop st1 n1),
       snd (for_await config p evs stop st1 n1))
    /\ yielded body = pre
    /\ body_ok p n n1 body
    /\ n1 = n + spans_drawn pre.
Proof.
  induction pre as [|event rest IH]; intros stop st n Hclean.
  - exists [], st, n.
    split; [|split; [reflexivity | split; [apply body_ok_nil | unfold spans_drawn; simpl; lia]]].
    simpl. destruct (for_await config p evs stop st n) as [[c l] m]. reflexivity.
  - inversion Hclean as [|? ? He Hrest]; subst.
    destruct (on_event_calls config p event st n) as [_ Hnext].
    destruct (on_event_clean config p event st n He)
      as (st1 & l & n1 & Hrun & Hsilent & Hbody & _).
    rewrite Hrun in Hnext. cbn [snd] in Hnext.
    destruct (IH stop st1 n1 Hrest) as (body & st2 & n2 & Hloop & Hy & Hb & Hn2).
    exists (l ++ Yield event :: body), st2, n2. split; [|split; [|split]].
    + rewrite <- app_comm_cons, for_await_cons, Hrun, Hloop.
      unfold outcome, effects. cbn [fst snd]. rewrite <- app_assoc. reflexivity.
    + rewrite yielded_app, Hsilent. simpl. rewrite Hy. reflexivity.
    + eapply body_ok_app; [exact Hbody|].
      change (Yield event :: body) with ([Yield event] ++ body).
      eapply body_ok_app; [apply body_ok_yield | exact Hb].
    + destruct (spans_drawn_cons event rest) as [-> Hstep].
      rewrite Hn2, Hnext, (Hstep n). lia.
Qed.

(** A stretch of the loop's record does not touch the span drawn next. *)
Lemma body_foreign p n n1 body :
  p < n -> body_ok p n n1 body -> Forall (foreign n1) body.
Proof.
  intros Hp [M _ Hsc _ _]. eapply Forall_impl; [exact Hsc|].
  intros e He Heq. destruct (He n1 Heq) as [->|[_ Hlt]]; lia.
Qed.

Lemma on_event_error_name config p event st n err l n' :
  on_event config p event st n = (inl err, l, n') -> error_name err = "TypeError".
Proof.
  intros Hrun. destruct (raises event) eqn:Hr.
  - destruct (on_event_raising config p event st n Hr) as (err' & a & Ha & Hrun').
    unfold raises in Hr. apply andb_prop in Hr as [Hty _].
    apply String.eqb_eq in Hty.
    assert (Hact : on_event config p event st n = on_action config p a st n).
    { unfold on_event. rewrite Hty, Ha. reflexivity. }
    rewrite Hact, on_action_run in Hrun.
    destruct (scan_output (output a) (retrievalDocuments st)) as [e|d] eqn:E;
      [|discriminate].
    inversion Hrun; subst.
    apply (scan_output_error_name _ _ _ E).
  - destruct (on_event_clean config p event st n Hr) as (st1 & l1 & n1 & Hrun' & _).
    congruence.
Qed.

Lemma captured_alive config t a p : keeps_alive p (captured config t a).
Proof.
  pose proof (captured_on_tool config t a) as Hc.
  induction Hc as [|e l (k & v & ->) _ IH]; constructor; [exact I | exact IH].
Qed.

Lemma session_prefix_view active args n n1 body :
  body_ok n (S n) n1 body ->
  fold_left (observe n1) (stream_start active args n :: body) None = None.
Proof.
  intros Hb. pose proof (ck_mono _ _ _ _ Hb) as Hm.
  simpl fold_left. rewrite observe_foreign.
  - apply fold_foreign. apply (body_foreign n (S n)); [lia | exact Hb].
  - unfold foreign, stream_start. simpl. intros H. inversion H. lia.
Qed.

(** X12. When an event of a consumed stream is the first whose tool
    output cannot be scanned, the consumer receives the events before it
    and then a TypeError: that event and all that follow are lost.  The
    [execute_tool] span of that very event, the one started once the
    events before it have been yielded, under the id that follows those of
    the stream span and of the tool spans of the events before it, is
    never ended. *)
Theorem raising_event_cuts_stream
    baseConfig original active args n value pre event post :
  r_enabled (_getConfig baseConfig) = true ->
  original args = Fulfilled (Ok value) ->
  events (eventStream value) = pre ++ event :: post ->
  clean pre ->
  raises event = true ->
  let R := stream_and_consume baseConfig original active args n in
  let t := S n + spans_drawn pre in
  exists err a sd before after,
    snd (outcome R) = Some (Threw err)
    /\ error_name err = "TypeError"
    /\ yielded (effects R) = pre
    /\ action event = Some a
    /\ effects R = before ++ tool_start n t a :: after
    /\ yielded before = pre
    /\ started before = seq n (S (spans_drawn pre))
    /\ started after = []
    /\ span_view t (effects R) = Some sd
    /\ span_end_calls sd = 0.
Proof.
  intros Hen Horig Hev Hclean Hr R t. subst R t.
  rewrite (session_run _ _ active _ n _ Hen Horig). unfold _wrapEventStream.
  rewrite Hev.
  destruct (for_await_prefix (_getConfig baseConfig) n pre (event :: post)
              (ending (eventStream value)) initial_locals (S n) Hclean)
    as (body & st1 & n1 & Hloop & Hy & Hb & Hn1).
  destruct (on_event_raising (_getConfig baseConfig) n event st1 n1 Hr)
    as (err & a & Ha & Hrun).
  assert (Hrest : for_await (_getConfig baseConfig) n (event :: post)
                    (ending (eventStream value)) st1 n1
                  = (Threw err,
                     (tool_start n n1 a :: captured (_getConfig baseConfig) n1 a)
                       ++ catch_calls n err, S n1)).
  { rewrite for_await_cons, Hrun. reflexivity. }
  rewrite Hloop, Hrest. unfold outcome, effects. cbn [fst snd].
  pose proof (ck_mono _ _ _ _ Hb) as Hm.
  destruct (view_from_start n1 GEN_AI_OPERATION_EXECUTE_TOOL CLIENT
              [ (SEMATTRS_GEN_AI_OPERATION_NAME, Some (AStr GEN_AI_OPERATION_EXECUTE_TOOL));
                (SEMATTRS_GEN_AI_PROVIDER_NAME, Some (AStr GEN_AI_PROVIDER_DUST));
                (SEMATTRS_GEN_AI_TOOL_NAME,
                  Some (AStr (or_else (functionCallName a) "unknown")));
                (SEMATTRS_GEN_AI_TOOL_CALL_ID,
                  Some (AStr (or_else (functionCallId a)
                                (or_else (action_sId a) "unknown")))) ]
              (Some n)
              (captured (_getConfig baseConfig) n1 a ++ catch_calls n err))
    as (sd & Hv & [N K P E A St X]).
  { apply keeps_alive_app; [apply captured_alive|].
    repeat constructor. lia. }
  rewrite <- Hn1.
  exists err, a, sd, (stream_start active args n :: body),
    (captured (_getConfig baseConfig) n1 a ++ catch_calls n err).
  split; [reflexivity|].
  split; [exact (on_event_error_name _ _ _ _ _ _ _ _ Hrun)|].
  split.
  { simpl yielded. rewrite yielded_app, Hy. simpl yielded.
    rewrite yielded_app, captured_silent. apply app_nil_r. }
  split; [exact Ha|].
  split; [reflexivity|].
  split; [exact Hy|].
  split.
  { simpl started. rewrite (ck_started _ _ _ _ Hb), Hn1.
    replace (S n + spans_drawn pre - S n) with (spans_drawn pre) by lia. reflexivity. }
  split; [rewrite started_app, captured_starts_none; reflexivity|].
  split; [|rewrite E; reflexivity].
  unfold span_view.
  change (stream_start active args n
            :: body ++ (tool_start n n1 a :: captured (_getConfig baseConfig) n1 a)
                 ++ catch_calls n err)
    with ((stream_start active args n :: body)
            ++ (tool_start n n1 a :: captured (_getConfig baseConfig) n1 a)
            ++ catch_calls n err).
  rewrite fold_left_app, (session_prefix_view _ _ _ _ _ Hb). exact Hv.
Qed.

Lemma raising_event_cuts_stream_witness :
  r_enabled (_getConfig default_config) = true
  /\ clean [action_event (search_action None)]
  /\ raises (action_event (search_action (Some (JArr [JNull])))) = true
  /\ exists err sd,
       snd (outcome (stream_and_consume default_config
                       (streaming twin_null_stream EndOfStream) None
                       sample_stream_args 0)) = Some (Threw err)
       /\ error_name err = "TypeError"
       /\ span_view 2 (effects (stream_and_consume default_config
                                  (streaming twin_null_stream EndOfStream) None
                                  sample_stream_args 0)) = Some sd
       /\ span_end_calls sd = 0.
Proof.
  split; [reflexivity|].
  split; [repeat constructor|]. split; [reflexivity|].
  destruct (raising_event_cuts_stream default_config
              (streaming twin_null_stream EndOfStream) None sample_stream_args 0 _
              [action_event (search_action None)]
              (action_event (search_action (Some (JArr [JNull])))) []
              eq_refl eq_refl eq_refl ltac:(repeat constructor) eq_refl)
    as (err & a & sd & before & after & Ho & Hn & _ & _ & _ & _ & _ & _ & Hv & He).
  exists err, sd. split; [exact Ho|]. split; [exact Hn|]. split; [exact Hv | exact He].
Defined.

(** X13. The [execute_tool] span of a tool-execution event whose output
    can be scanned, wherever the event stands among passing events and
    whatever comes after it.  The span of that very event is the one
    started once the events before it have been yielded, under the id that
    follows those of the stream span and of the tool spans of the events
    before it; it is started, given its content attributes and ended
    before the event is yielded.  It is ended exactly once, its status
    stays UNSET and it records no exception; it holds
    [gen_ai.tool.call.arguments], the serialized [params], exactly when
    content capture is on and [params] is truthy, and
    [gen_ai.tool.call.result], the serialized [output], exactly when
    content capture is on and [output] is truthy. *)
Theorem tool_span_content
    baseConfig original active args n value pre event post a :
  r_enabled (_getConfig baseConfig) = true ->
  original args = Fulfilled (Ok value) ->
  events (eventStream value) = pre ++ event :: post ->
  clean pre ->
  raises event = false ->
  tool_action event = Some a ->
  let R := stream_and_consume baseConfig original active args n in
  let t := S n + spans_drawn pre in
  exists sd before after,
    effects R
    = before
        ++ (tool_start n t a :: captured (_getConfig baseConfig) t a ++ [EndSpan t])
        ++ Yield event :: after
    /\ yielded before = pre
    /\ started before = seq n (S (spans_drawn pre))
    /\ Forall (foreign t) after
    /\ span_view t (effects R) = Some sd
    /\ span_end_calls sd = 1
    /\ span_status sd = (UNSET, "")
    /\ span_exceptions sd = []
    /\ span_attributes sd !! SEMATTRS_GEN_AI_TOOL_CALL_ARGUMENTS
       = (if r_captureMessageContent (_getConfig baseConfig) && truthy_opt (params a)
          then AJson <$> params a else None)
    /\ span_attributes sd !! SEMATTRS_GEN_AI_TOOL_CALL_RESULT
       = (if r_captureMessageContent (_getConfig baseConfig) && truthy_opt (output a)
          then AJson <$> output a else None).
Proof.
  intros Hen Horig Hev Hclean Hr Htool R t. subst R t.
  rewrite (session_run _ _ active _ n _ Hen Horig). unfold _wrapEventStream.
  rewrite Hev.
  remember (_getConfig baseConfig) as config eqn:Hconfig. clear Hconfig Hen.
  destruct (for_await_prefix config n pre (event :: post)
              (ending (eventStream value)) initial_locals (S n) Hclean)
    as (body & st1 & n1 & Hloop & Hy & Hb & Hn1).
  pose proof (ck_mono _ _ _ _ Hb) as Hm.
  destruct (on_event_calls config n event st1 n1) as [Hcalls Hnext].
  destruct (on_event_clean config n event st1 n1 Hr) as (st2 & l & n2 & Hrun & _).
  rewrite Hrun in Hcalls, Hnext. unfold effects in Hcalls. cbn [fst snd] in Hcalls, Hnext.
  subst l n2.
  assert (Hscan : scans_cleanly (output a) = true).
  { unfold raises in Hr. unfold tool_action in Htool.
    destruct (String.eqb (event_type event) DUST_EVENT_AGENT_ACTION_SUCCESS);
      [|discriminate].
    rewrite Htool in Hr. simpl in Hr. apply negb_false_iff in Hr. exact Hr. }
  assert (Hblock : event_calls config n n1 event
                   = tool_start n n1 a :: captured config n1 a ++ [EndSpan n1]).
  { unfold event_calls. rewrite Htool, Hscan. reflexivity. }
  assert (Hn2 : next_span n1 event = S n1).
  { unfold next_span. rewrite Htool. reflexivity. }
  rewrite Hblock, Hn2 in Hrun.
  rewrite Hloop, for_await_cons, Hrun. unfold outcome, effects. cbn [fst snd].
  set (rest := for_await config n post (ending (eventStream value)) st2 (S n1)).
  destruct (view_ended n1 GEN_AI_OPERATION_EXECUTE_TOOL CLIENT
              [ (SEMATTRS_GEN_AI_OPERATION_NAME, Some (AStr GEN_AI_OPERATION_EXECUTE_TOOL));
                (SEMATTRS_GEN_AI_PROVIDER_NAME, Some (AStr GEN_AI_PROVIDER_DUST));
                (SEMATTRS_GEN_AI_TOOL_NAME,
                  Some (AStr (or_else (functionCallName a) "unknown")));
                (SEMATTRS_GEN_AI_TOOL_CALL_ID,
                  Some (AStr (or_else (functionCallId a)
                                (or_else (action_sId a) "unknown")))) ]
              (Some n) (captured config n1 a) (captured_alive _ _ _ _))
    as (sd & Hv & [N K P E A St X]).
  assert (Hafter : Forall (foreign n1) rest.1.2).
  { pose proof (for_await_scoped config n post (ending (eventStream value)) st2 (S n1))
      as Hsc.
    eapply Forall_impl; [exact Hsc|].
    intros e He Heq. destruct (He n1 Heq) as [Hp|Hp]; lia. }
  rewrite <- Hn1.
  exists (put_end sd), (stream_start active args n :: body), rest.1.2.
  split; [reflexivity|].
  split; [exact Hy|].
  split.
  { simpl started. rewrite (ck_started _ _ _ _ Hb), Hn1.
    replace (S n + spans_drawn pre - S n) with (spans_drawn pre) by lia. reflexivity. }
  split; [exact Hafter|].
  split.
  { unfold span_view in *.
    change (stream_start active args n
              :: body ++ (tool_start n n1 a :: captured config n1 a ++ [EndSpan n1])
                   ++ Yield event :: rest.1.2)
      with ((stream_start active args n :: body)
              ++ (tool_start n n1 a :: captured config n1 a ++ [EndSpan n1])
              ++ Yield event :: rest.1.2).
    rewrite fold_left_app, (session_prefix_view _ _ _ _ _ Hb).
    rewrite fold_left_app. unfold tool_start at 1. rewrite Hv.
    apply fold_foreign. constructor; [discriminate | exact Hafter]. }
  simpl. rewrite E, St, X, !A. clear.
  unfold captured.
  destruct (r_captureMessageContent config); [|repeat split; reflexivity].
  destruct (params a) as [pv|], (output a) as [ov|]; simpl;
    try destruct (truthy pv); try destruct (truthy ov);
    simpl; rewrite ?Nat.eqb_refl; repeat split; reflexivity.
Qed.

Lemma tool_span_content_witness :
  r_enabled (_getConfig capturing_config) = true
  /\ clean [action_event (search_action None)]
  /\ exists sd,
       span_view 2 (effects (stream_and_consume capturing_config
                               (streaming twin_stream EndOfStream) None
                               sample_stream_args 0)) = Some sd
       /\ span_end_calls sd = 1
       /\ span_attributes sd !! SEMATTRS_GEN_AI_TOOL_CALL_RESULT
          = Some (AJson (JArr [resource_item])).
Proof.
  split; [reflexivity|]. split; [repeat constructor|].
  destruct (tool_span_content capturing_config
              (streaming twin_stream EndOfStream) None sample_stream_args 0 _
              [action_event (search_action None)]
              (action_event (search_action (Some (JArr [resource_item])))) []
              (search_action (Some (JArr [resource_item])))
              eq_refl eq_refl eq_refl ltac:(repeat constructor) eq_refl eq_refl)
    as (sd & before & after & _ & _ & _ & _ & Hv & He & _ & _ & _ & Hr).
  exists sd. split; [exact Hv|]. split; [exact He | exact Hr].
Defined.

(** ** A consumer that leaves the loop early *)

Lemma for_await_until_prefix leave config p pre evs : forall stop st n,
  clean pre ->
  Forall (fun e => leave e = false) pre ->
  exists body st1 n1,
    for_await_until leave config p (pre ++ evs) stop st n
    = (outcome (for_await_until leave config p evs stop st1 n1),
       body ++ effects (for_await_until leave config p evs stop st1 n1),
       snd (for_await_until leave config p evs stop st1 n1))
    /\ yielded body = pre
    /\ body_ok p n n1 body.
Proof.
  induction pre as [|event rest IH]; intros stop st n Hclean Hstay.
  - exists [], st, n. split; [|split; [reflexivity | apply body_ok_nil]].
    simpl. destruct (for_await_until leave config p evs stop st n) as [[c l] m].
    reflexivity.
  - inversion Hclean as [|? ? He Hrest]; subst.
    inversion Hstay as [|? ? Hl Hstay']; subst.
    destruct (on_event_clean config p event st n He)
      as (st1 & l & n1 & Hrun & Hsilent & Hbody & _).
    destruct (IH stop st1 n1 Hrest Hstay') as (body & st2 & n2 & Hloop & Hy & Hb).
    exists (l ++ Yield event :: body), st2, n2. split; [|split].
    + simpl. run_tracer. rewrite Hrun, Hl, Hloop. simpl.
      rewrite <- app_assoc. reflexivity.
    + rewrite yielded_app, Hsilent. simpl. rewrite Hy. reflexivity.
    + eapply body_ok_app; [exact Hbody|].
      change (Yield event :: body) with ([Yield event] ++ body).
      eapply body_ok_app; [apply body_ok_yield | exact Hb].
Qed.

(** X14. When the consumer leaves its loop at an event of the wrapped
    stream (as the second example of the repository does at the first
    message-success event), having received the events before it and that
    event, the stream span is left open: it is never ended, and none of
    the final attributes (output messages, output-token count, finish
    reasons, retrieval documents) is ever written on it. *)
Theorem early_break_leaves_stream_span_open
    leave baseConfig original active args n value pre event post :
  r_enabled (_getConfig baseConfig) = true ->
  original args = Fulfilled (Ok value) ->
  events (eventStream value) = pre ++ event :: post ->
  clean pre ->
  Forall (fun e => leave e = false) pre ->
  raises event = false ->
  leave event = true ->
  let R := stream_until leave baseConfig original active args n in
  snd (outcome R) = Some None
  /\ yielded (effects R) = pre ++ [event]
  /\ Forall (fun e => e <> EndSpan n) (effects R)
  /\ exists sd,
       span_view n (effects R) = Some sd
       /\ span_end_calls sd = 0
       /\ forall k, k ∈ final_keys -> span_attributes sd !! k = None.
Proof.
  intros Hen Horig Hev Hclean Hstay Hr Hleave R. subst R.
  unfold stream_until. run_tracer.
  rewrite (patched_stream_ok _ _ _ _ _ _ Hen Horig).
  unfold iterate_until. cbn [eventStream]. rewrite Hev.
  destruct (for_await_until_prefix leave (_getConfig baseConfig) n pre (event :: post)
              (ending (eventStream value)) initial_locals (S n) Hclean Hstay)
    as (body & st1 & n1 & Hloop & Hy & Hb).
  destruct (on_event_clean (_getConfig baseConfig) n event st1 n1 Hr)
    as (st2 & l & n2 & Hrun & Hsilent & Hbody & _).
  assert (Hrest : for_await_until leave (_getConfig baseConfig) n (event :: post)
                    (ending (eventStream value)) st1 n1
                  = (None, l ++ [Yield event], n2)).
  { simpl. run_tracer. rewrite Hrun, Hleave. reflexivity. }
  rewrite Hloop, Hrest. unfold outcome, effects. cbn [fst snd].
  assert (Hall : body_ok n (S n) n2 (body ++ l ++ [Yield event])).
  { eapply body_ok_app; [exact Hb|].
    eapply body_ok_app; [exact Hbody | apply body_ok_yield]. }
  pose proof (ck_loop _ _ _ _ Hall ltac:(lia)) as Hloopcalls.
  rewrite app_nil_r.
  split; [reflexivity|]. split; [|split].
  - simpl yielded. rewrite !yielded_app, Hy, Hsilent. reflexivity.
  - constructor; [discriminate|].
    eapply Forall_impl; [exact Hloopcalls|].
    intros e He ->. simpl in He. congruence.
  - unfold span_view. simpl fold_left.
    destruct (stream_start_open active args n) as (sd0 & -> & Ho & _).
    destruct (fold_during_loop n _ sd0 Hloopcalls Ho) as (sd & Hv & [H0 _ Hf]).
    exists sd. split; [exact Hv|]. split; [exact H0 | exact Hf].
Qed.

Lemma early_break_leaves_stream_span_open_witness :
  r_enabled (_getConfig default_config) = true
  /\ exists sd,
       span_view 0 (effects (stream_until is_message_success default_config
                               (streaming [ tokens_event "Hi";
                                            bare_event DUST_EVENT_AGENT_MESSAGE_SUCCESS;
                                            tokens_event "late" ] EndOfStream)
                               None sample_stream_args 0)) = Some sd
       /\ span_end_calls sd = 0.
Proof.
  split; [reflexivity|].
  destruct (early_break_leaves_stream_span_open is_message_success default_config
              (streaming [ tokens_event "Hi";
                           bare_event DUST_EVENT_AGENT_MESSAGE_SUCCESS;
                           tokens_event "late" ] EndOfStream)
              None sample_stream_args 0 _
              [tokens_event "Hi"] (bare_event DUST_EVENT_AGENT_MESSAGE_SUCCESS)
              [tokens_event "late"]
              eq_refl eq_refl eq_refl ltac:(repeat constructor) ltac:(repeat constructor)
              eq_refl eq_refl)
    as (_ & _ & _ & sd & Hv & He & _).
  exists sd. split; [exact Hv | exact He].
Defined.

(** ** What a span can hold *)

Lemma sanitize_called attributes k v :
  sanitize attributes !! k = Some v -> In (k, Some v) attributes.
Proof.
  unfold sanitize.
  assert (H : forall (m : gmap string AttrValue),
             fold_left (fun m kv => match snd kv with
                                    | Some v => <[fst kv := v]> m
                                    | None => m
                                    end) attributes m !! k = Some v ->
             In (k, Some v) attributes \/ m !! k = Some v).
  { induction attributes as [|[k' [v'|]] rest IH]; intros m Hm; simpl in *.
    - right. exact Hm.
    - destruct (IH _ Hm) as [Hin|Hl]; [left; right; exact Hin|].
      destruct (decide (k' = k)) as [->|Hne].
      + rewrite lookup_insert_eq in Hl. inversion Hl; subst. left. left. reflexivity.
      + rewrite lookup_insert_ne in Hl by exact Hne. right. exact Hl.
    - destruct (IH _ Hm) as [Hin|Hl]; [left; right; exact Hin | right; exact Hl]. }
  intros Hk. destruct (H ∅ Hk) as [Hin|He]; [exact Hin|].
  rewrite lookup_empty in He. discriminate.
Qed.

(** An attribute held by a span was given in some call of the record. *)
Lemma held_attribute_called id record : forall sd k v,
  span_view id record = Some sd ->
  span_attributes sd !! k = Some v ->
  In (k, Some v) (attribute_calls record).
Proof.
  unfold span_view.
  induction record as [|e l IH] using rev_ind; intros sd k v Hv Hk; [discriminate|].
  rewrite fold_left_app in Hv. simpl in Hv.
  rewrite attribute_calls_app. apply in_or_app.
  remember (fold_left (observe id) l None) as s0 eqn:Hs0. clear Hs0.
  destruct (decide (effect_span e = Some id)) as [Hid|Hid].
  - destruct e as [i name kind attributes parent|i key value|i code msg|i err|i|ev];
      simpl in Hid; inversion Hid; subst i.
    + rewrite observe_start in Hv. inversion Hv; subst. right. simpl.
      rewrite app_nil_r. apply sanitize_called. exact Hk.
    + rewrite observe_set in Hv. destruct s0 as [sd0|]; [|discriminate].
      simpl in Hv. inversion Hv; subst. unfold put_attribute in Hk.
      destruct value as [v0|]; [|left; eapply IH; [reflexivity | exact Hk]].
      destruct (is_ended sd0); [left; eapply IH; [reflexivity | exact Hk]|].
      simpl in Hk. destruct (decide (key = k)) as [->|Hne].
      * rewrite lookup_insert_eq in Hk. inversion Hk; subst. right. left. reflexivity.
      * rewrite lookup_insert_ne in Hk by exact Hne.
        left. eapply IH; [reflexivity | exact Hk].
    + rewrite observe_status in Hv. destruct s0 as [sd0|]; [|discriminate].
      simpl in Hv. inversion Hv; subst. unfold put_status in Hk.
      destruct (is_ended sd0); left; eapply IH; try reflexivity; exact Hk.
    + rewrite observe_exception in Hv. destruct s0 as [sd0|]; [|discriminate].
      simpl in Hv. inversion Hv; subst. unfold put_exception in Hk.
      destruct (is_ended sd0); left; eapply IH; try reflexivity; exact Hk.
    + rewrite observe_end in Hv. destruct s0 as [sd0|]; [|discriminate].
      simpl in Hv. inversion Hv; subst.
      left. eapply IH; [reflexivity | exact Hk].
  - rewrite (observe_foreign _ _ _ Hid) in Hv.
    left. eapply IH; [exact Hv | exact Hk].
Qed.

(** X15. With content capture off (the default), no span produced by
    either patched method, whatever the SDK gives and whatever the events
    are, holds any of the four content attributes: input messages, output
    messages, tool-call arguments, tool-call result. *)
Theorem capture_off_spans_hold_no_content baseConfig :
  r_captureMessageContent (_getConfig baseConfig) = false ->
  forall id k, k ∈ content_keys ->
    (forall original active args n,
       span_attribute id k
         (effects (patchedCreateConversation baseConfig original active args n)) = None)
    /\ (forall original active args n,
          span_attribute id k
            (effects (stream_and_consume baseConfig original active args n)) = None).
Proof.
  intros Hoff id k Hk.
  destruct (capture_off_no_content_attribute baseConfig Hoff) as [Hcreate Hstream].
  assert (Hnone : forall record, no_content record -> span_attribute id k record = None).
  { intros record Hno. unfold span_attribute.
    destruct (span_view id record) as [sd|] eqn:Hv; [|reflexivity]. simpl.
    destruct (span_attributes sd !! k) as [v|] eqn:Hl; [|reflexivity].
    pose proof (held_attribute_called id record sd k v Hv Hl) as Hin.
    unfold no_content in Hno. rewrite List.Forall_forall in Hno.
    destruct (Hno _ Hin Hk). }
  split; intros original active args n; apply Hnone; [apply Hcreate | apply Hstream].
Qed.

Lemma capture_off_spans_hold_no_content_witness :
  r_captureMessageContent (_getConfig default_config) = false
  /\ span_attribute 1 SEMATTRS_GEN_AI_TOOL_CALL_RESULT
       (effects (stream_and_consume default_config
                   (streaming resource_stream EndOfStream) None sample_stream_args 0))
     = None.
Proof.
  split; [reflexivity|].
  exact (proj2 (capture_off_spans_hold_no_content default_config eq_refl 1
                  SEMATTRS_GEN_AI_TOOL_CALL_RESULT ltac:(compute_done))
           (streaming resource_stream EndOfStream) None sample_stream_args 0).
Defined.

(** ** The flag that is not read *)

Lemma for_await_same_capture enabled1 enabled2 capture system1 system2 p evs :
  forall stop st n,
  for_await {| r_enabled := enabled1; r_captureMessageContent := capture;
               r_captureSystemInstructions := system1 |} p evs stop st n
  = for_await {| r_enabled := enabled2; r_captureMessageContent := capture;
                 r_captureSystemInstructions := system2 |} p evs stop st n.
Proof.
  induction evs as [|event rest IH]; intros stop st n.
  - reflexivity.
  - rewrite !for_await_cons.
    change (on_event {| r_enabled := enabled1; r_captureMessageContent := capture;
                        r_captureSystemInstructions := system1 |} p event st n)
      with (on_event {| r_enabled := enabled2; r_captureMessageContent := capture;
                        r_captureSystemInstructions := system2 |} p event st n).
    destruct (on_event _ p event st n) as [[[err|st1] l] n1]; [reflexivity|].
    rewrite IH. reflexivity.
Qed.

(** X16. The option [captureSystemInstructions] is carried into the
    configuration but never read: two instrumentations that differ only
    in it make the same calls on the tracing API and hand back the same
    outcomes, for [createConversation] and for a consumed stream. *)
Theorem system_instructions_flag_is_ignored
    (baseConfig : DustInstrumentationConfig) (flag : option bool) :
  (forall original active args n,
     patchedCreateConversation
       {| enabled := enabled baseConfig;
          captureMessageContent := captureMessageContent baseConfig;
          captureSystemInstructions := flag |} original active args n
     = patchedCreateConversation baseConfig original active args n)
  /\ (forall original active args n,
        effects (stream_and_consume
                   {| enabled := enabled baseConfig;
                      captureMessageContent := captureMessageContent baseConfig;
                      captureSystemInstructions := flag |} original active args n)
        = effects (stream_and_consume baseConfig original active args n)
        /\ snd (outcome (stream_and_consume
                      {| enabled := enabled baseConfig;
                         captureMessageContent := captureMessageContent baseConfig;
                         captureSystemInstructions := flag |} original active args n))
           = snd (outcome (stream_and_consume baseConfig original active args n))).
Proof.
  split.
  - intros original active args n. reflexivity.
  - intros original active args n.
    assert (H : let R' := stream_and_consume
                            {| enabled := enabled baseConfig;
                               captureMessageContent := captureMessageContent baseConfig;
                               captureSystemInstructions := flag |}
                            original active args n in
                let R := stream_and_consume baseConfig original active args n in
                effects R' = effects R /\ snd (outcome R') = snd (outcome R)).
    { unfold stream_and_consume, patchedStreamAgentAnswerEvents, _getConfig.
      cbn [enabled captureMessageContent captureSystemInstructions r_enabled].
      destruct (negb (default true (enabled baseConfig))).
      - destruct (original args) as [[value|error]|e]; split; reflexivity.
      - destruct (original args) as [[value|error]|e]; try (split; reflexivity).
        run_tracer. unfold iterate, _wrapEventStream. cbn [eventStream fst snd].
        rewrite (for_await_same_capture _ (default true (enabled baseConfig)) _ _
                   (default false (captureSystemInstructions baseConfig))).
        destruct (for_await _ n (events (eventStream value)) (ending (eventStream value))
                    initial_locals (S n)) as [[c l] m].
        split; reflexivity. }
    exact H.
Qed.

(** ** What the stream span says of the agent *)

Lemma last_write_events k (g : AgentEvent -> option AttrValue) :
  (forall event seen,
     last_write k (event_writes event) seen
     = match g event with Some v => Some v | None => seen end) ->
  forall evs seen,
    last_write k (flat_map event_writes evs) seen
    = match last (omap g evs) with Some v => Some v | None => seen end.
Proof.
  intros Hg. induction evs as [|e l IH] using rev_ind; intros seen; [reflexivity|].
  rewrite flat_map_app, last_write_app, IH. simpl flat_map. rewrite app_nil_r, Hg.
  rewrite omap_app. simpl omap. destruct (g e) as [v|].
  - rewrite last_snoc. reflexivity.
  - rewrite app_nil_r. reflexivity.
Qed.

Lemma truthy_default (o : option string) :
  truthy_str o = true -> Some (AStr (default "" o)) = AStr <$> o.
Proof. destruct o; [reflexivity | discriminate]. Qed.

Lemma event_writes_named k (read : AgentEvent -> option string) event seen :
  (forall seen',
     last_write k (message_writes event) seen'
     = if truthy_str (read event) then Some (AStr (default "" (read event))) else seen') ->
  k <> SEMATTRS_ERROR_TYPE ->
  last_write k (event_writes event) seen
  = match named read event with Some v => Some v | None => seen end.
Proof.
  intros Hm Hk. unfold event_writes, named.
  destruct (is_message_success event); simpl andb.
  - rewrite Hm. destruct (truthy_str (read event)) eqn:Ht; [|reflexivity].
    rewrite (truthy_default _ Ht). destruct (read event); [reflexivity | discriminate].
  - destruct (is_error_event event); [|reflexivity].
    apply last_write_absent. unfold error_writes.
    constructor; [|constructor]. cbn [fst]. congruence.
Qed.

Lemma message_writes_agent_id event seen :
  last_write SEMATTRS_GEN_AI_AGENT_ID (message_writes event) seen
  = if truthy_str (configurationId event)
    then Some (AStr (default "" (configurationId event))) else seen.
Proof.
  unfold message_writes. rewrite last_write_app, last_write_attr_same, last_write_app.
  rewrite last_write_attr_other by (apply String.eqb_neq; reflexivity).
  destruct (message event ≫= message_configuration) as [c|]; [|reflexivity].
  rewrite !last_write_app.
  rewrite !last_write_attr_other by (apply String.eqb_neq; reflexivity).
  destruct (configuration_version c); reflexivity.
Qed.

Lemma message_writes_agent_name event seen :
  last_write SEMATTRS_GEN_AI_AGENT_NAME (message_writes event) seen
  = if truthy_str (configuration_of event ≫= configuration_name)
    then Some (AStr (default "" (configuration_of event ≫= configuration_name)))
    else seen.
Proof.
  unfold message_writes, configuration_of. rewrite !last_write_app.
  rewrite !last_write_attr_other by (apply String.eqb_neq; reflexivity).
  destruct (message event ≫= message_configuration) as [c|]; [|reflexivity].
  rewrite !last_write_app, last_write_attr_same.
  rewrite !last_write_attr_other by (apply String.eqb_neq; reflexivity).
  simpl. destruct (configuration_version c); reflexivity.
Qed.

Lemma message_writes_agent_description event seen :
  last_write SEMATTRS_GEN_AI_AGENT_DESCRIPTION (message_writes event) seen
  = if truthy_str (configuration_of event ≫= configuration_description)
    then Some (AStr (default "" (configuration_of event ≫= configuration_description)))
    else seen.
Proof.
  unfold message_writes, configuration_of. rewrite !last_write_app.
  rewrite !last_write_attr_other by (apply String.eqb_neq; reflexivity).
  destruct (message event ≫= message_configuration) as [c|]; [|reflexivity].
  rewrite !last_write_app.
  rewrite (last_write_attr_other _ SEMATTRS_GEN_AI_AGENT_NAME)
    by (apply String.eqb_neq; reflexivity).
  rewrite last_write_attr_same.
  rewrite !last_write_attr_other by (apply String.eqb_neq; reflexivity).
  simpl. destruct (configuration_version c); reflexivity.
Qed.

Lemma event_writes_versioned event seen :
  last_write SEMATTRS_DUST_AGENT_VERSION (event_writes event) seen
  = match versioned event with Some v => Some v | None => seen end.
Proof.
  unfold event_writes, versioned, configuration_of.
  destruct (is_message_success event).
  - unfold message_writes. rewrite !last_write_app.
    rewrite !last_write_attr_other by (apply String.eqb_neq; reflexivity).
    destruct (message event ≫= message_configuration) as [c|]; [|reflexivity].
    rewrite !last_write_app.
    rewrite !last_write_attr_other by (apply String.eqb_neq; reflexivity).
    simpl. destruct (configuration_version c); reflexivity.
  - destruct (is_error_event event); reflexivity.
Qed.

(** X17. What the stream span of a consumed stream says of the agent,
    from the message-success events that reach the consumer:
    [gen_ai.agent.id], [gen_ai.agent.name] and [gen_ai.agent.description]
    are those of the last such event that carries a non-empty
    [configurationId], configuration name or configuration description
    (an event without one leaves the earlier value), and
    [dust.agent.version] is the version of the last such event whose
    configuration has a version, whatever its value, zero included.  Each
    is absent when no event carries it. *)
Theorem stream_span_agent_attributes baseConfig original active args n value :
  r_enabled (_getConfig baseConfig) = true ->
  original args = Fulfilled (Ok value) ->
  exists sd,
    span_view n (effects (stream_and_consume baseConfig original active args n)) = Some sd
    /\ span_attributes sd !! SEMATTRS_GEN_AI_AGENT_ID
       = last (omap (named configurationId) (passing (events (eventStream value))))
    /\ span_attributes sd !! SEMATTRS_GEN_AI_AGENT_NAME
       = last (omap (named (fun event => configuration_of event ≫= configuration_name))
                 (passing (events (eventStream value))))
    /\ span_attributes sd !! SEMATTRS_GEN_AI_AGENT_DESCRIPTION
       = last (omap (named (fun event =>
                              configuration_of event ≫= configuration_description))
                 (passing (events (eventStream value))))
    /\ span_attributes sd !! SEMATTRS_DUST_AGENT_VERSION
       = last (omap versioned (passing (events (eventStream value)))).
Proof.
  intros Hen Horig.
  destruct (session_span _ _ active _ n _ Hen Horig)
    as (c & front & tail & sd & _ & Hv & [N K P E A St X] & Hw & Htk & _ & _).
  exists (put_end sd). split; [exact Hv|]. simpl.
  rewrite !A, Hw, !last_write_app.
  rewrite !(last_write_outside _ _ _ _ Htk) by compute_done.
  unfold loop_writes.
  rewrite (last_write_events _ (named configurationId))
    by (intros e s; apply event_writes_named;
        [intros; apply message_writes_agent_id | discriminate]).
  rewrite (last_write_events _
             (named (fun event => configuration_of event ≫= configuration_name)))
    by (intros e s; apply event_writes_named;
        [intros; apply message_writes_agent_name | discriminate]).
  rewrite (last_write_events _
             (named (fun event => configuration_of event ≫= configuration_description)))
    by (intros e s; apply event_writes_named;
        [intros; apply message_writes_agent_description | discriminate]).
  rewrite (last_write_events _ versioned) by (intros e s; apply event_writes_versioned).
  repeat split;
    match goal with
    | |- match ?l with _ => _ end = _ => destruct l; reflexivity
    end.
Qed.

Lemma stream_span_agent_attributes_witness :
  r_enabled (_getConfig default_config) = true
  /\ exists sd,
       span_view 0 (effects (stream_and_consume default_config
                               (streaming replies_stream EndOfStream) None
                               sample_stream_args 0)) = Some sd
       /\ span_attributes sd !! SEMATTRS_GEN_AI_AGENT_ID = Some (AStr "agent-1")
       /\ span_attributes sd !! SEMATTRS_GEN_AI_AGENT_NAME = Some (AStr "Helper")
       /\ span_attributes sd !! SEMATTRS_GEN_AI_AGENT_DESCRIPTION = Some (AStr "second")
       /\ span_attributes sd !! SEMATTRS_DUST_AGENT_VERSION = Some (ANum 0%Q).
Proof.
  split; [reflexivity|].
  exact (stream_span_agent_attributes default_config
           (streaming replies_stream EndOfStream) None sample_stream_args 0 _
           eq_refl eq_refl).
Defined.

(** ** The batch of retrieval documents *)

Lemma found_documents_items o :
  scans_cleanly o = true ->
  found_documents o
  = match o with
    | Some (JArr items) => flat_map item_documents items
    | _ => []
    end.
Proof.
  unfold scans_cleanly, found_documents.
  destruct o as [[| | | |items|]|]; try reflexivity.
  simpl scan_output. intros H.
  destruct (existsb unscannable items) eqn:Hu.
  - destruct (scan_items_raises items [] Hu) as (e & He). rewrite He in H. discriminate.
  - rewrite (scan_items_run items [] Hu). reflexivity.
Qed.

Lemma collected_documents_items evs :
  clean evs -> collected_documents evs = flat_map tool_documents evs.
Proof.
  induction 1 as [|event rest Hr _ IH]; [reflexivity|].
  simpl. rewrite IH. f_equal.
  unfold event_documents, tool_documents, tool_action.
  unfold raises in Hr.
  destruct (String.eqb (event_type event) DUST_EVENT_AGENT_ACTION_SUCCESS);
    [|reflexivity].
  destruct (action event) as [a|]; [|reflexivity].
  simpl in Hr. apply negb_false_iff in Hr. apply found_documents_items. exact Hr.
Qed.

(** X18. When a consumed stream ends normally, [gen_ai.retrieval.documents]
    on the stream span is the serialized list of what the outputs of the
    tool-execution events hold, in order: the elements of the [documents]
    of each [retrieval_documents] item and each [resource] item itself.
    It is absent when that list is empty, and it does not depend on the
    content-capture setting. *)
Theorem retrieval_documents_attribute baseConfig original active args n value :
  r_enabled (_getConfig baseConfig) = true ->
  original args = Fulfilled (Ok value) ->
  snd (outcome (stream_and_consume baseConfig original active args n)) = Some Returned ->
  exists sd,
    span_view n (effects (stream_and_consume baseConfig original active args n)) = Some sd
    /\ span_attributes sd !! SEMATTRS_GEN_AI_RETRIEVAL_DOCUMENTS
       = match flat_map tool_documents (events (eventStream value)) with
         | [] => None
         | documents => Some (AJson (JArr documents))
         end.
Proof.
  intros Hen Horig Hret.
  destruct (session_exhausted _ _ active _ n _ Hen Horig Hret)
    as (body & st & sd & _ & _ & _ & [_ _ _ Hd] & Hv & [_ _ _ _ Hf]).
  destruct (session_returned _ _ active _ n _ Hen Horig Hret) as [_ Hclean].
  exists sd. split; [exact Hv|].
  rewrite Hf, Hd. simpl. rewrite (collected_documents_items _ Hclean).
  destruct (flat_map tool_documents (events (eventStream value))); reflexivity.
Qed.

Lemma retrieval_documents_attribute_witness :
  r_enabled (_getConfig default_config) = true
  /\ exists sd,
       span_view 0 (effects (stream_and_consume default_config
                               (streaming resource_stream EndOfStream) None
                               sample_stream_args 0)) = Some sd
       /\ span_attributes sd !! SEMATTRS_GEN_AI_RETRIEVAL_DOCUMENTS
          = Some (AJson (JArr [resource_item])).
Proof.
  split; [reflexivity|].
  exact (retrieval_documents_attribute default_config
           (streaming resource_stream EndOfStream) None sample_stream_args 0 _
           eq_refl eq_refl eq_refl).
Defined.

(** ** The buffered output text *)

Lemma generated_text_spoken config evs :
  generated_text config evs = if r_captureMessageContent config then spoken evs else "".
Proof.
  induction evs as [|event rest IH]; simpl.
  - destruct (r_captureMessageContent config); reflexivity.
  - rewrite IH. unfold event_text.
    destruct (r_captureMessageContent config); reflexivity.
Qed.

(** X19. When a consumed stream ends normally, [gen_ai.output.messages] on
    the stream span is the serialized assistant message whose content is
    the texts of the generation-token events put end to end, in order; it
    is set exactly when content capture is on and that text is not
    empty. *)
Theorem output_messages_attribute baseConfig original active args n value :
  r_enabled (_getConfig baseConfig) = true ->
  original args = Fulfilled (Ok value) ->
  snd (outcome (stream_and_consume baseConfig original active args n)) = Some Returned ->
  exists sd,
    span_view n (effects (stream_and_consume baseConfig original active args n)) = Some sd
    /\ span_attributes sd !! SEMATTRS_GEN_AI_OUTPUT_MESSAGES
       = if r_captureMessageContent (_getConfig baseConfig)
            && negb (String.eqb (spoken (events (eventStream value))) "")
         then Some (AJson (role_content "assistant" (spoken (events (eventStream value)))))
         else None.
Proof.
  intros Hen Horig Hret.
  destruct (session_exhausted _ _ active _ n _ Hen Horig Hret)
    as (body & st & sd & _ & _ & _ & [_ Hc _ _] & Hv & [_ Hf _ _ _ _]).
  exists sd. split; [exact Hv|].
  rewrite Hf, Hc, generated_text_spoken.
  destruct (r_captureMessageContent (_getConfig baseConfig)); reflexivity.
Qed.

Lemma output_messages_attribute_witness :
  r_enabled (_getConfig capturing_config) = true
  /\ exists sd,
       span_view 0 (effects (stream_and_consume capturing_config
                               (streaming [tokens_event "Hel"; tokens_event "lo"]
                                  EndOfStream)
                               None sample_stream_args 0)) = Some sd
       /\ span_attributes sd !! SEMATTRS_GEN_AI_OUTPUT_MESSAGES
          = Some (AJson (role_content "assistant" "Hello")).
Proof.
  split; [reflexivity|].
  exact (output_messages_attribute capturing_config
           (streaming [tokens_event "Hel"; tokens_event "lo"] EndOfStream)
           None sample_stream_args 0 _ eq_refl eq_refl eq_refl).
Defined.
